(** * CrowdSec AppSec acquisition source and decision bulk deletion

    A shallow embedding of
    - [pkg/acquisition/modules/appsec/appsec.go]: the authentication cache,
      [UnmarshalConfig], [Configure], [IsAuth] and [appsecHandler];
    - the decisions file of [pkg/database]: [ExpireDecisions] and
      [DeleteDecisions], [ExpireDecisionByID], the builder of the
      queries and the functions that query or expire with a filter, and
      the filters on addresses.

    Conventions.
    - An instant ([time.Time]) is an integer number of nanoseconds on the
      monotonic clock, a [time.Duration] an integer number of nanoseconds;
      [t.After u] is [u < t] and [t.Add d] is [t + d].
    - Go strings are byte strings: [string] of [ascii].
    - Code outside the two files (the YAML decoder, [net/http], the [appsec]
      package, the global [csconfig]) is reached through the class
      [Externals]; what the outside world answers during one handler
      invocation is an [Oracle].
    - The handler runs in a small monad [M] that threads the [World]
      (the receiver [w] and the two Prometheus counters), collects the
      effects of the invocation as a list of [Event]s and propagates a Go
      panic. *)

From Stdlib Require Import ZArith String Ascii List Bool Lia.
From stdpp Require Import base option gmap strings list fin_maps pretty.

Local Open Scope string_scope.
Local Open Scope Z_scope.
Local Open Scope list_scope.

(* ===================================================================== *)
(** ** Data model of appsec.go *)
(* ===================================================================== *)

(** [AuthCache]: [APIKeys map[string]time.Time]. The [sync.RWMutex] makes
    [Set] and [Get] atomic; an execution is a sequence of them. *)
Record AuthCache := mkAuthCache { APIKeys : gmap string Z }.

(** [AppsecSourceConfig], with the fields of the inlined
    [configuration.DataSourceCommonCfg] that appsec.go reads or writes
    ([Mode], [Name], [UniqueId]). [AuthCacheDuration] is a pointer:
    [None] is [nil]. *)
Record AppsecSourceConfig := mkConfig {
  ListenAddr : string;
  ListenSocket : string;
  CertFilePath : string;
  KeyFilePath : string;
  Path : string;
  Routines : Z;
  AppsecConfig : string;
  AppsecConfigPath : string;
  AuthCacheDuration : option Z;
  Mode : string;
  Name : string;
  UniqueId : string
}.

(** The zero value of the struct, what [&w.config] holds in a fresh source. *)
Definition zeroConfig : AppsecSourceConfig :=
  mkConfig "" "" "" "" "" 0 "" "" None "" "" "".

Definition set_ListenAddr (v : string) (c : AppsecSourceConfig) : AppsecSourceConfig :=
  mkConfig v (ListenSocket c) (CertFilePath c) (KeyFilePath c) (Path c) (Routines c)
    (AppsecConfig c) (AppsecConfigPath c) (AuthCacheDuration c) (Mode c) (Name c) (UniqueId c).

Definition set_Path (v : string) (c : AppsecSourceConfig) : AppsecSourceConfig :=
  mkConfig (ListenAddr c) (ListenSocket c) (CertFilePath c) (KeyFilePath c) v (Routines c)
    (AppsecConfig c) (AppsecConfigPath c) (AuthCacheDuration c) (Mode c) (Name c) (UniqueId c).

Definition set_Routines (v : Z) (c : AppsecSourceConfig) : AppsecSourceConfig :=
  mkConfig (ListenAddr c) (ListenSocket c) (CertFilePath c) (KeyFilePath c) (Path c) v
    (AppsecConfig c) (AppsecConfigPath c) (AuthCacheDuration c) (Mode c) (Name c) (UniqueId c).

Definition set_Mode (v : string) (c : AppsecSourceConfig) : AppsecSourceConfig :=
  mkConfig (ListenAddr c) (ListenSocket c) (CertFilePath c) (KeyFilePath c) (Path c) (Routines c)
    (AppsecConfig c) (AppsecConfigPath c) (AuthCacheDuration c) v (Name c) (UniqueId c).

Definition set_Name (v : string) (c : AppsecSourceConfig) : AppsecSourceConfig :=
  mkConfig (ListenAddr c) (ListenSocket c) (CertFilePath c) (KeyFilePath c) (Path c) (Routines c)
    (AppsecConfig c) (AppsecConfigPath c) (AuthCacheDuration c) (Mode c) v (UniqueId c).

(** [AppsecSource]: the fields the modelled methods touch. The logger, the
    mux, the server and the channels appear as events of the handler. *)
Record AppsecSource := mkSource {
  config : AppsecSourceConfig;
  lapiURL : string;
  authCache : AuthCache
}.

(** [BodyResponse] as appsec.go declares it. *)
Record BodyResponse := mkBody { Action : string }.

(** An incoming [*http.Request]: the header map (keys in canonical form,
    as [net/http] stores them), the peer address and the URL path. *)
Record Request := mkRequest {
  Header : gmap string (list string);
  RemoteAddr : string;
  URL_Path : string
}.

(** The request [IsAuth] builds. *)
Record HttpRequest := mkHttpRequest {
  Method : string;
  URL : string;
  ReqHeader : list (string * string)
}.

(** [appsec.ParsedRequest]: the fields the handler reads or writes. The
    [ResponseChannel] is the [EvRecv] event. *)
Record ParsedRequest := mkParsed {
  UUID : string;
  ClientIP : string;
  RemoteAddrNormalized : string;
  AppsecEngine : string
}.

Definition set_AppsecEngine (v : string) (p : ParsedRequest) : ParsedRequest :=
  mkParsed (UUID p) (ClientIP p) (RemoteAddrNormalized p) v.

(** [appsec.AppsecTempResponse], the value received on the response
    channel. The handler reads [InBandInterrupt]; the other two fields
    are what [GenerateResponse] turns into a status and a body. *)
Record AppsecTempResponse := mkTemp {
  InBandInterrupt : bool;
  TempAction : string;
  HTTPResponseCode : Z
}.

Definition StatusOK : Z := 200.
Definition StatusUnauthorized : Z := 401.
Definition StatusInternalServerError : Z := 500.
Definition MethodHead : string := "HEAD".

(** [DefaultAuthCacheDuration = 1 * time.Minute], in nanoseconds. *)
Definition DefaultAuthCacheDuration : Z := 60 * 1000000000.

(** Code of other packages and libraries that appsec.go calls. *)
Class Externals := mkExternals {
  (** [yaml.UnmarshalStrict(yamlConfig, &w.config)]: the error, if any,
      and what the struct holds afterwards. *)
  yaml_UnmarshalStrict : string -> AppsecSourceConfig -> option string * AppsecSourceConfig;
  (** [configuration.TAIL_MODE] *)
  TAIL_MODE : string;
  (** [csconfig.GetConfig().API.Client.Credentials.URL] *)
  Credentials_URL : string;
  (** [appsec.APIKeyHeaderName] and [appsec.IPHeaderName] *)
  APIKeyHeaderName : string;
  IPHeaderName : string;
  (** whether [http.NewRequest] accepts the URL *)
  url_ok : string -> bool;
  (** [w.AppsecRuntime.GenerateResponse(response, logger)] *)
  GenerateResponse : AppsecTempResponse -> Z * BodyResponse;
  (** [json.Marshal(appsecResponse)]: the bytes, or an error *)
  json_Marshal : BodyResponse -> string + string
}.

(** What the outside world answers during one handler invocation. *)
Record Oracle := mkOracle {
  (** [time.Now()] in the expiry test (line 351) *)
  now_check : Z;
  (** [time.Now()] when the key is stored (line 359) *)
  now_set : Z;
  (** [client.Do(req)]: a transport error or a timeout, or the status
      code of the response *)
  client_Do : HttpRequest -> string + Z;
  (** [appsec.NewParsedRequestFromRequest(r, w.logger)] *)
  parse : Request -> string + ParsedRequest;
  (** the value a runner sends on [parsedRequest.ResponseChannel] *)
  reply : ParsedRequest -> AppsecTempResponse
}.

(* ===================================================================== *)
(** ** AuthCache *)
(* ===================================================================== *)

Definition NewAuthCache : AuthCache := mkAuthCache ∅.

(** [func (ac *AuthCache) Set(apiKey string, expiration time.Time)] *)
Definition AuthCache_Set (apiKey : string) (expiration : Z) (ac : AuthCache) : AuthCache :=
  mkAuthCache (<[apiKey := expiration]> (APIKeys ac)).

(** [func (ac *AuthCache) Get(apiKey string) (time.Time, bool)]: a missing
    key reads as the zero instant and [false]. *)
Definition AuthCache_Get (apiKey : string) (ac : AuthCache) : Z * bool :=
  match APIKeys ac !! apiKey with
  | Some expiration => (expiration, true)
  | None => (0, false)
  end.

(** A serialisation of calls on one cache. *)
Inductive CacheOp :=
| OpSet (apiKey : string) (expiration : Z)
| OpGet (apiKey : string).

Definition run_op (op : CacheOp) (ac : AuthCache) : AuthCache :=
  match op with
  | OpSet k e => AuthCache_Set k e ac
  | OpGet _ => ac
  end.

Definition run_ops (ops : list CacheOp) (ac : AuthCache) : AuthCache :=
  fold_left (fun a op => run_op op a) ops ac.

Definition sets_key (k : string) (op : CacheOp) : bool :=
  match op with
  | OpSet k' _ => String.eqb k' k
  | OpGet _ => false
  end.

(* ===================================================================== *)
(** ** UnmarshalConfig *)
(* ===================================================================== *)

(** The result of a Go call that may panic. *)
Inductive outcome (A : Type) :=
| Done (a : A)
| Panicked (msg : string).
Arguments Done {A} a.
Arguments Panicked {A} msg.

Section Config.
Context `{Externals}.

(** The naming block, lines 127-134. *)
Definition default_Name (c : AppsecSourceConfig) : AppsecSourceConfig :=
  if String.eqb (Name c) "" then
    let c1 :=
      if negb (String.eqb (ListenSocket c) "") && String.eqb (ListenAddr c) ""
      then set_Name (ListenSocket c) c else c in
    if String.eqb (ListenSocket c1) ""
    then set_Name (ListenAddr c1 +:+ Path c1) c1 else c1
  else c.

(** [func (w *AppsecSource) UnmarshalConfig(yamlConfig []byte) error]:
    the returned error ([None] is [nil]) and the receiver afterwards. *)
Definition UnmarshalConfig (yamlConfig : string) (w : AppsecSource)
  : outcome (option string * AppsecSource) :=
  let '(err, c) := yaml_UnmarshalStrict yamlConfig (config w) in
  match err with
  | Some e =>
      Done (Some ("cannot parse appsec configuration: " +:+ e),
            mkSource c (lapiURL w) (authCache w))
  | None =>
      let c := if String.eqb (ListenAddr c) "" && String.eqb (ListenSocket c) ""
               then set_ListenAddr "127.0.0.1:7422" c else c in
      let c := if String.eqb (Path c) "" then set_Path "/" c else c in
      match Path c with
      | EmptyString => Panicked "index out of range [0] with length 0"
      | String b _ =>
          let c := if negb (Ascii.eqb b "/") then set_Path ("/" +:+ Path c) c else c in
          let c := if String.eqb (Mode c) "" then set_Mode TAIL_MODE c else c in
          let c := if Z.eqb (Routines c) 0 then set_Routines 1 c else c in
          if String.eqb (AppsecConfig c) "" && String.eqb (AppsecConfigPath c) "" then
            Done (Some "appsec_config or appsec_config_path must be set",
                  mkSource c (lapiURL w) (authCache w))
          else
            let c := default_Name c in
            Done (None,
                  mkSource c (Credentials_URL +:+ "v1/decisions/stream") NewAuthCache)
      end
  end.

(** The configuration after the defaulting of lines 102-121, field by
    field, as a function of what the decoder left in the struct. *)
Definition defaulted (c0 : AppsecSourceConfig) : AppsecSourceConfig :=
  mkConfig
    (if String.eqb (ListenAddr c0) "" && String.eqb (ListenSocket c0) ""
     then "127.0.0.1:7422" else ListenAddr c0)
    (ListenSocket c0) (CertFilePath c0) (KeyFilePath c0)
    (match Path c0 with
     | EmptyString => "/"
     | String b _ => if Ascii.eqb b "/" then Path c0 else "/" +:+ Path c0
     end)
    (if Z.eqb (Routines c0) 0 then 1 else Routines c0)
    (AppsecConfig c0) (AppsecConfigPath c0) (AuthCacheDuration c0)
    (if String.eqb (Mode c0) "" then TAIL_MODE else Mode c0)
    (Name c0) (UniqueId c0).

End Config.

(* ===================================================================== *)
(** ** The handler monad *)
(* ===================================================================== *)

Inductive Level := DebugLevel | ErrorLevel.

(** The effects of a handler invocation, in program order. *)
Inductive Event :=
| EvLog (lvl : Level) (msg : string)            (* a call on a logger *)
| EvWriteHeader (status : Z)                    (* rw.WriteHeader *)
| EvWrite (body : string)                       (* rw.Write *)
| EvCacheGet (apiKey : string)                  (* w.AuthCache.Get *)
| EvCacheSet (apiKey : string) (expiration : Z) (* w.AuthCache.Set *)
| EvNow (t : Z)                                 (* time.Now *)
| EvNewRequest (method url : string)            (* http.NewRequest *)
| EvDo (req : HttpRequest)                      (* client.Do *)
| EvCloseBody                                   (* resp.Body.Close *)
| EvParse (r : Request)                         (* NewParsedRequestFromRequest *)
| EvReqCounterInc (source engine : string)      (* AppsecReqCounter ... Inc *)
| EvBlockCounterInc (source engine : string)    (* AppsecBlockCounter ... Inc *)
| EvSend (p : ParsedRequest)                    (* w.InChan <- parsedRequest *)
| EvRecv (p : ParsedRequest) (response : AppsecTempResponse).
                                                (* <-parsedRequest.ResponseChannel *)

(** The state a handler invocation reads and writes: the receiver and the
    two package-level counter vectors, indexed by the labels
    [(source, appsec_engine)]. *)
Record World := mkWorld {
  self : AppsecSource;
  AppsecReqCounter : gmap (string * string) nat;
  AppsecBlockCounter : gmap (string * string) nat
}.

Definition M (A : Type) : Type := Oracle -> World -> outcome A * World * list Event.

Definition ret {A} (a : A) : M A := fun _ w => (Done a, w, []).

Definition bind {A B} (m : M A) (f : A -> M B) : M B :=
  fun o w =>
    match m o w with
    | (Done a, w1, t1) => let '(r, w2, t2) := f a o w1 in (r, w2, (t1 ++ t2)%list)
    | (Panicked msg, w1, t1) => (Panicked msg, w1, t1)
    end.

Definition emit (e : Event) : M unit := fun _ w => (Done tt, w, [e]).
Definition ask {A} (f : Oracle -> A) : M A := fun o w => (Done (f o), w, []).
Definition gets {A} (f : World -> A) : M A := fun _ w => (Done (f w), w, []).
Definition modify (f : World -> World) : M unit := fun _ w => (Done tt, f w, []).
Definition panic {A} (msg : string) : M A := fun _ w => (Panicked msg, w, []).

Declare Scope go_scope.
Delimit Scope go_scope with go.
Notation "x <- m ;; k" := (bind m (fun x => k))
  (at level 100, m at next level, right associativity) : go_scope.
Notation "m ;;; k" := (bind m (fun _ => k))
  (at level 100, right associativity) : go_scope.

Definition set_self (s : AppsecSource) (w : World) : World :=
  mkWorld s (AppsecReqCounter w) (AppsecBlockCounter w).

(** [CounterVec.With(labels).Inc()] *)
Definition Inc (labels : string * string) (c : gmap (string * string) nat)
  : gmap (string * string) nat :=
  <[labels := S (default 0%nat (c !! labels))]> c.

Definition value_of (labels : string * string) (c : gmap (string * string) nat) : nat :=
  default 0%nat (c !! labels).

(** Counting the calls of one kind in the events of an invocation. *)
Definition is_IsAuth_call (e : Event) : bool :=
  match e with EvNewRequest _ _ => true | _ => false end.
Definition is_Do (e : Event) : bool :=
  match e with EvDo _ => true | _ => false end.
Definition is_Send (e : Event) : bool :=
  match e with EvSend _ => true | _ => false end.
Definition is_ReqInc (e : Event) : bool :=
  match e with EvReqCounterInc _ _ => true | _ => false end.
Definition is_BlockInc (e : Event) : bool :=
  match e with EvBlockCounterInc _ _ => true | _ => false end.
Definition is_cache_access (e : Event) : bool :=
  match e with EvCacheGet _ | EvCacheSet _ _ => true | _ => false end.

Definition is_Parse (e : Event) : bool :=
  match e with EvParse _ => true | _ => false end.
Definition is_WriteHeader (e : Event) : bool :=
  match e with EvWriteHeader _ => true | _ => false end.

Definition count_events (p : Event -> bool) (t : list Event) : nat :=
  length (List.filter p t).

(** [IsAuth] starts with [http.NewRequest], which nothing else calls. *)
Definition IsAuth_calls (t : list Event) : nat := count_events is_IsAuth_call t.

Section Handler.
Context `{Externals}.
Local Open Scope go_scope.

(** [r.Header.Get(key)]: the first value of the key, [""] when there is none. *)
Definition Header_Get (r : Request) (key : string) : string :=
  match Header r !! key with
  | Some (v :: _) => v
  | _ => ""
  end.

Definition logger_Debugf (msg : string) : M unit := emit (EvLog DebugLevel msg).
Definition logger_Errorf (msg : string) : M unit := emit (EvLog ErrorLevel msg).
Definition rw_WriteHeader (status : Z) : M unit := emit (EvWriteHeader status).
Definition rw_Write (body : string) : M unit := emit (EvWrite body).

(** The two readings of the clock. *)
Definition time_Now_check : M Z := t <- ask now_check ;; emit (EvNow t) ;;; ret t.
Definition time_Now_set : M Z := t <- ask now_set ;; emit (EvNow t) ;;; ret t.

(** [t.After(u)] *)
Definition After (t u : Z) : bool := u <? t.

(** [http.NewRequest(method, url, nil)] *)
Definition http_NewRequest (method url : string) : M (string + HttpRequest) :=
  emit (EvNewRequest method url) ;;;
  ret (if url_ok url then inr (mkHttpRequest method url []) else inl "invalid URL").

(** [req.Header.Add(key, value)] *)
Definition Header_Add (key value : string) (req : HttpRequest) : HttpRequest :=
  mkHttpRequest (Method req) (URL req) (ReqHeader req ++ [(key, value)])%list.

(** [w.AuthCache.Get] and [w.AuthCache.Set] on the receiver. *)
Definition w_AuthCache_Get (apiKey : string) : M (Z * bool) :=
  emit (EvCacheGet apiKey) ;;;
  gets (fun w => AuthCache_Get apiKey (authCache (self w))).

Definition w_AuthCache_Set (apiKey : string) (expiration : Z) : M unit :=
  emit (EvCacheSet apiKey expiration) ;;;
  modify (fun w =>
    set_self (mkSource (config (self w)) (lapiURL (self w))
                (AuthCache_Set apiKey expiration (authCache (self w)))) w).

Definition AppsecReqCounter_Inc (source engine : string) : M unit :=
  emit (EvReqCounterInc source engine) ;;;
  modify (fun w =>
    mkWorld (self w) (Inc (source, engine) (AppsecReqCounter w)) (AppsecBlockCounter w)).

Definition AppsecBlockCounter_Inc (source engine : string) : M unit :=
  emit (EvBlockCounterInc source engine) ;;;
  modify (fun w =>
    mkWorld (self w) (AppsecReqCounter w) (Inc (source, engine) (AppsecBlockCounter w))).

(** [func (w *AppsecSource) IsAuth(apiKey string) bool]. The client's
    200 ms timeout is one of the errors of [client.Do]. *)
Definition IsAuth (apiKey : string) : M bool :=
  url <- gets (fun w => lapiURL (self w)) ;;
  r <- http_NewRequest MethodHead url ;;
  match r with
  | inl err =>
      logger_Errorf ("Error creating request: " +:+ err) ;;;
      ret false
  | inr req =>
      let req := Header_Add "X-Api-Key" apiKey req in
      emit (EvDo req) ;;;
      resp <- ask (fun o => client_Do o req) ;;
      match resp with
      | inl err =>
          logger_Errorf ("Error performing request: " +:+ err) ;;;
          ret false
      | inr StatusCode =>
          emit EvCloseBody ;;;
          ret (Z.eqb StatusCode StatusOK)
      end
  end.

(** ["Unauthorized request from '%s' (real IP = %s)"] *)
Definition unauthorized_msg (remoteIP clientIP : string) : string :=
  "Unauthorized request from '" +:+ remoteIP +:+ "' (real IP = " +:+ clientIP +:+ ")".

(** [appsecHandler], lines 341-360: the authentication of the request.
    [false] is the early [return] after a 401. *)
Definition authenticate (r : Request) : M bool :=
  let apiKey := Header_Get r APIKeyHeaderName in
  let clientIP := Header_Get r IPHeaderName in
  let remoteIP := RemoteAddr r in
  if String.eqb apiKey "" then
    logger_Errorf (unauthorized_msg remoteIP clientIP) ;;;
    rw_WriteHeader StatusUnauthorized ;;;
    ret false
  else
    cached <- w_AuthCache_Get apiKey ;;
    let '(expiration, exists_) := cached in
    (* !exists || time.Now().After(expiration), evaluated left to right *)
    recheck <- (if negb exists_ then ret true
                else now <- time_Now_check ;; ret (After now expiration)) ;;
    if recheck then
      ok <- IsAuth apiKey ;;
      if negb ok then
        rw_WriteHeader StatusUnauthorized ;;;
        logger_Errorf (unauthorized_msg remoteIP clientIP) ;;;
        ret false
      else
        (* apiKey is valid, store it in cache *)
        now <- time_Now_set ;;
        d <- gets (fun w => AuthCacheDuration (config (self w))) ;;
        match d with
        | None => panic "invalid memory address or nil pointer dereference"
        | Some d => w_AuthCache_Set apiKey (now + d) ;;; ret true
        end
    else ret true.

(** [appsecHandler], lines 362-400: parse, count, hand over to a runner,
    wait for the in-band verdict and answer. *)
Definition dispatch (r : Request) : M unit :=
  emit (EvParse r) ;;;
  parsed <- ask (fun o => parse o r) ;;
  match parsed with
  | inl err =>
      logger_Errorf err ;;;
      rw_WriteHeader StatusInternalServerError
  | inr parsedRequest =>
      name <- gets (fun w => Name (config (self w))) ;;
      let parsedRequest := set_AppsecEngine name parsedRequest in
      AppsecReqCounter_Inc (RemoteAddrNormalized parsedRequest)
                           (AppsecEngine parsedRequest) ;;;
      emit (EvSend parsedRequest) ;;;
      response <- ask (fun o => reply o parsedRequest) ;;
      emit (EvRecv parsedRequest response) ;;;
      (if InBandInterrupt response then
         AppsecBlockCounter_Inc (RemoteAddrNormalized parsedRequest)
                                (AppsecEngine parsedRequest)
       else ret tt) ;;;
      let '(statusCode, appsecResponse) := GenerateResponse response in
      logger_Debugf ("Response: {Action:" +:+ Action appsecResponse +:+ "}") ;;;
      rw_WriteHeader statusCode ;;;
      match json_Marshal appsecResponse with
      | inl err =>
          logger_Errorf ("unable to serialize response: " +:+ err) ;;;
          rw_WriteHeader StatusInternalServerError
      | inr body => rw_Write body
      end
  end.

(** [func (w *AppsecSource) appsecHandler(rw http.ResponseWriter, r *http.Request)] *)
Definition appsecHandler (r : Request) : M unit :=
  logger_Debugf ("Received request from '" +:+ RemoteAddr r +:+ "' on " +:+ URL_Path r) ;;;
  authenticated <- authenticate r ;;
  if authenticated then dispatch r else ret tt.

(** The key a request carries. *)
Definition apiKey_of (r : Request) : string := Header_Get r APIKeyHeaderName.

(** The request [IsAuth] sends for a key. *)
Definition probe_request (w : World) (apiKey : string) : HttpRequest :=
  mkHttpRequest MethodHead (lapiURL (self w)) [("X-Api-Key", apiKey)].

(** The answer of the upstream to the probe for a key: whether the HEAD
    request can be built and completes with status 200. *)
Definition probe_answer (w : World) (o : Oracle) (apiKey : string) : bool :=
  url_ok (lapiURL (self w)) &&
  match client_Do o (probe_request w apiKey) with
  | inr status => Z.eqb status StatusOK
  | inl _ => false
  end.

(** The events of one call of [IsAuth]. *)
Definition probe_events (w : World) (o : Oracle) (apiKey : string) : list Event :=
  (IsAuth apiKey o w).2.

(** The events of the cache lookup that precedes a probe: the clock is
    read only when the key is in the cache. *)
Definition stale_lookup (w : World) (o : Oracle) (apiKey : string) : list Event :=
  match APIKeys (authCache (self w)) !! apiKey with
  | Some _ => [EvCacheGet apiKey; EvNow (now_check o)]
  | None => [EvCacheGet apiKey]
  end.

(** The events that answer the caller once the verdict is received. *)
Definition answer_events (response : AppsecTempResponse) : list Event :=
  let '(statusCode, appsecResponse) := GenerateResponse response in
  [EvLog DebugLevel ("Response: {Action:" +:+ Action appsecResponse +:+ "}");
   EvWriteHeader statusCode] ++
  match json_Marshal appsecResponse with
  | inl err => [EvLog ErrorLevel ("unable to serialize response: " +:+ err);
                EvWriteHeader StatusInternalServerError]
  | inr body => [EvWrite body]
  end.

(** The key is in the cache and [now() <= expiration]. *)
Definition cache_fresh (w : World) (o : Oracle) (apiKey : string) : bool :=
  match APIKeys (authCache (self w)) !! apiKey with
  | Some expiration => Z.leb (now_check o) expiration
  | None => false
  end.

(** Whether a request passes the authentication, in the words of the
    specification: it carries a key, and the key is fresh in the cache or
    the probe approves it. *)
Definition passes_auth (w : World) (o : Oracle) (r : Request) : bool :=
  negb (String.eqb (apiKey_of r) "") &&
  (cache_fresh w o (apiKey_of r) || probe_answer w o (apiKey_of r)).

(** Whether the handler calls the probe: a key is there and is not fresh
    in the cache. *)
Definition probes (w : World) (o : Oracle) (r : Request) : bool :=
  negb (String.eqb (apiKey_of r) "") && negb (cache_fresh w o (apiKey_of r)).

(** A sequence of invocations on one source, each with its oracle: the
    final world and the events of each invocation. A panic ends the
    invocation ([net/http] recovers it), not the server. *)
Fixpoint serve (reqs : list (Request * Oracle)) (w : World) : World * list (list Event) :=
  match reqs with
  | [] => (w, [])
  | (r, o) :: rest =>
      let '(_, w1, evs) := appsecHandler r o w in
      let '(w2, evss) := serve rest w1 in
      (w2, evs :: evss)
  end.

(** *** The properties of a run, named *)

(** Every request of the run that carries the key [K] arrives while
    [now() <= E]. *)
Definition within_ttl (K : string) (E : Z) (reqs : list (Request * Oracle)) : Prop :=
  Forall (fun ro => apiKey_of ro.1 = K -> now_check ro.2 <= E) reqs.

(** Every request of the run that carries the key [K] is authenticated
    without a call of the probe: it goes on to be parsed. *)
Definition served_from_cache (K : string) (reqs : list (Request * Oracle))
    (evss : list (list Event)) : Prop :=
  Forall2 (fun ro evs =>
             apiKey_of ro.1 = K -> IsAuth_calls evs = 0%nat /\ In (EvParse ro.1) evs)
    reqs evss.

(** Neither counter moves and nothing is handed to a runner. *)
Definition counters_untouched (w w' : World) (evs : list Event) : Prop :=
  AppsecReqCounter w' = AppsecReqCounter w /\
  AppsecBlockCounter w' = AppsecBlockCounter w /\
  count_events is_ReqInc evs = 0%nat /\
  count_events is_BlockInc evs = 0%nat /\
  count_events is_Send evs = 0%nat.

(** A counter vector after one increment under [labels]: the value
    under [labels] is one more, the value under every other label set is
    what it was. *)
Definition one_more (labels : string * string) (before after : gmap (string * string) nat)
  : Prop :=
  value_of labels after = S (value_of labels before) /\
  (forall other, other <> labels -> value_of other after = value_of other before).

(** The metrics of one invocation: a request that passes the
    authentication and parses increments the request counter once, under
    the labels (normalized remote address, engine name), right before it
    is sent to the runners: the value under these labels is one more
    than it was and no other value moves; the block counter is
    incremented, once and in the same way, exactly when the verdict
    received has [InBandInterrupt]. Any other request leaves both
    counters alone. *)
Definition metrics_discipline (r : Request) (o : Oracle) (w : World) : Prop :=
  let '(_, w', evs) := appsecHandler r o w in
  match parse o r with
  | inr p =>
      if passes_auth w o r then
        let source := RemoteAddrNormalized p in
        let engine := Name (config (self w)) in
        let p' := set_AppsecEngine engine p in
        let response := reply o p' in
        AppsecReqCounter w' = Inc (source, engine) (AppsecReqCounter w) /\
        one_more (source, engine) (AppsecReqCounter w) (AppsecReqCounter w') /\
        count_events is_ReqInc evs = 1%nat /\
        count_events is_Send evs = 1%nat /\
        (exists before after,
           evs = before ++ [EvReqCounterInc source engine; EvSend p'] ++ after) /\
        In (EvRecv p' response) evs /\
        AppsecBlockCounter w' =
          (if InBandInterrupt response
           then Inc (source, engine) (AppsecBlockCounter w)
           else AppsecBlockCounter w) /\
        (if InBandInterrupt response
         then one_more (source, engine) (AppsecBlockCounter w) (AppsecBlockCounter w')
         else forall labels,
                value_of labels (AppsecBlockCounter w') =
                value_of labels (AppsecBlockCounter w)) /\
        count_events is_BlockInc evs = (if InBandInterrupt response then 1 else 0)%nat
      else counters_untouched w w' evs
  | inl _ => counters_untouched w w' evs
  end.

End Handler.

(* ===================================================================== *)
(** ** Bulk expiry and deletion of decisions (pkg/database) *)
(* ===================================================================== *)

Module database.

(** [const decisionDeleteBulkSize = 256] *)
Definition decisionDeleteBulkSize : nat := 256.

(** [ent.Decision]: the row id and the expiration. *)
Record Decision := mkDecision { ID : Z; Until : Z }.

(** The [Client]: the decision table behind [c.Ent.Decision] (row id to
    expiration) and the error, if any, with which the database answers
    every statement. *)
Record Client := mkClient {
  Decisions : gmap Z Z;
  db_error : option string
}.

(** [func decisionIDs(decisions []*ent.Decision) []int] *)
Definition decisionIDs (decisions : list Decision) : list Z := map ID decisions.

(** [c.Ent.Decision.Delete().Where(decision.IDIn(ids...)).Exec(ctx)]:
    the number of rows removed, or the database's error. *)
Definition Delete_IDIn_Exec (ids : list Z) (c : Client) : (string + Z) * Client :=
  match db_error c with
  | Some e => (inl e, c)
  | None =>
      let kept := filter (fun kv => kv.1 ∉ ids) (Decisions c) in
      (inr (Z.of_nat (size (Decisions c)) - Z.of_nat (size kept)), mkClient kept None)
  end.

(** [c.Ent.Decision.Update().Where(decision.IDIn(ids...)).SetUntil(now).Save(ctx)]:
    the number of rows updated, or the database's error. *)
Definition Update_IDIn_SetUntil_Save (ids : list Z) (now : Z) (c : Client)
  : (string + Z) * Client :=
  match db_error c with
  | Some e => (inl e, c)
  | None =>
      let hit := filter (fun kv => kv.1 ∈ ids) (Decisions c) in
      (inr (Z.of_nat (size hit)),
       mkClient (((fun _ => now) <$> hit) ∪ Decisions c) None)
  end.

(** [slicetools.Chunks(items, chunkSize)] of go-cs-lib, a library outside
    the repository: while more than [chunkSize] items are left it cuts
    the first [chunkSize] off as a chunk; what is left is the last
    chunk. Both callers pass [chunkSize = 256] and at least 256 items; the
    model is used on nothing else (an empty slice, a zero size). *)
Fixpoint chunks_loop {A} (n : nat) (items : list A) (chunkSize : nat) : list (list A) :=
  match n with
  | O => [items]
  | S n' =>
      if (chunkSize <? length items)%nat
      then take chunkSize items :: chunks_loop n' (drop chunkSize items) chunkSize
      else [items]
  end.

Definition Chunks {A} (items : list A) (chunkSize : nat) : list (list A) :=
  if (chunkSize =? 0)%nat then [items]
  else chunks_loop (length items) items chunkSize.

(** The result of a call: the count, the error ([None] is [nil]) and the
    client afterwards; [None] when the recursion is deeper than [fuel]. *)
Definition call_result : Type := option (Z * option string * Client).

(** The [for _, chunk := range ... { rows, err := rec(ctx, chunk) ... }]
    loop shared by the two functions. *)
Fixpoint for_chunks (rec : list Decision -> Client -> call_result)
    (chunks : list (list Decision)) (total : Z) (c : Client) : call_result :=
  match chunks with
  | [] => Some (total, None, c)
  | chunk :: rest =>
      match rec chunk c with
      | None => None
      | Some (_, Some err, c1) => Some (total, Some err, c1)
      | Some (rows, None, c1) => for_chunks rec rest (total + rows) c1
      end
  end.

(** [func (c *Client) ExpireDecisions(ctx, decisions) (int, error)];
    [fuel] bounds the depth of the recursion and [now] is
    [time.Now().UTC()]. *)
Fixpoint ExpireDecisions (fuel : nat) (now : Z) (decisions : list Decision) (c : Client)
  : call_result :=
  match fuel with
  | O => None
  | S fuel' =>
      if (length decisions <=? decisionDeleteBulkSize)%nat then
        let ids := decisionIDs decisions in
        match Update_IDIn_SetUntil_Save ids now c with
        | (inl err, c1) =>
            Some (0, Some ("expire decisions with provided filter: " +:+ err), c1)
        | (inr rows, c1) => Some (rows, None, c1)
        end
      else
        for_chunks (ExpireDecisions fuel' now)
          (Chunks decisions decisionDeleteBulkSize) 0 c
  end.

(** [func (c *Client) DeleteDecisions(ctx, decisions) (int, error)];
    [fuel] bounds the depth of the recursion. *)
Fixpoint DeleteDecisions (fuel : nat) (decisions : list Decision) (c : Client)
  : call_result :=
  match fuel with
  | O => None
  | S fuel' =>
      if (length decisions <? decisionDeleteBulkSize)%nat then
        let ids := decisionIDs decisions in
        match Delete_IDIn_Exec ids c with
        | (inl err, c1) =>
            Some (0, Some ("hard delete decisions with provided filter: " +:+ err), c1)
        | (inr rows, c1) => Some (rows, None, c1)
        end
      else
        for_chunks (DeleteDecisions fuel')
          (Chunks decisions decisionDeleteBulkSize) 0 c
  end.

(** A batch of [n] decisions with the ids [1 .. n]. *)
Definition batch (n : nat) : list Decision :=
  map (fun i => mkDecision (Z.of_nat i) 0) (seq 1 n).

(** A database holding exactly the rows of a batch. *)
Definition table_of (decisions : list Decision) : Client :=
  mkClient (list_to_map (map (fun d => (ID d, Until d)) decisions)) None.

End database.

(* ===================================================================== *)
(** ** Concrete instances, used to run the model *)
(* ===================================================================== *)

Module Samples.

Definition newline : ascii := Ascii.ascii_of_nat 10.
Definition dquote : string := String (Ascii.ascii_of_nat 34) "".

(** The lines of a document, and a document from its lines. *)
Fixpoint lines_of (s : string) : list string :=
  match s with
  | EmptyString => [""]
  | String c rest =>
      if Ascii.eqb c newline then "" :: lines_of rest
      else match lines_of rest with
           | l :: ls => String c l :: ls
           | [] => [String c ""]
           end
  end.

Fixpoint unlines (ls : list string) : string :=
  match ls with
  | [] => ""
  | [l] => l
  | l :: rest => l +:+ String newline (unlines rest)
  end.

(** [key: value], split at the first colon followed by a space. *)
Fixpoint key_value (s : string) : option (string * string) :=
  match s with
  | EmptyString => None
  | String c rest =>
      match rest with
      | String " " v => if Ascii.eqb c ":" then Some ("", v)
                        else option_map (fun kv => (String c kv.1, kv.2)) (key_value rest)
      | _ => option_map (fun kv => (String c kv.1, kv.2)) (key_value rest)
      end
  end.

Fixpoint decimal (s : string) (acc : Z) : option Z :=
  match s with
  | EmptyString => Some acc
  | String c rest =>
      let d := Z.of_nat (Ascii.nat_of_ascii c) - 48 in
      if (0 <=? d) && (d <=? 9) then decimal rest (10 * acc + d) else None
  end.

(** One mapping entry decoded into the struct; an unknown key or a
    malformed number is an error, as under strict decoding. *)
Definition set_field (key value : string) (c : AppsecSourceConfig)
  : string + AppsecSourceConfig :=
  if String.eqb key "listen_addr" then inr (set_ListenAddr value c)
  else if String.eqb key "listen_socket" then
    inr (mkConfig (ListenAddr c) value (CertFilePath c) (KeyFilePath c) (Path c)
           (Routines c) (AppsecConfig c) (AppsecConfigPath c) (AuthCacheDuration c)
           (Mode c) (Name c) (UniqueId c))
  else if String.eqb key "path" then inr (set_Path value c)
  else if String.eqb key "routines" then
    match decimal value 0 with
    | Some n => inr (set_Routines n c)
    | None => inl ("cannot unmarshal " +:+ value +:+ " into int")
    end
  else if String.eqb key "appsec_config" then
    inr (mkConfig (ListenAddr c) (ListenSocket c) (CertFilePath c) (KeyFilePath c) (Path c)
           (Routines c) value (AppsecConfigPath c) (AuthCacheDuration c)
           (Mode c) (Name c) (UniqueId c))
  else if String.eqb key "appsec_config_path" then
    inr (mkConfig (ListenAddr c) (ListenSocket c) (CertFilePath c) (KeyFilePath c) (Path c)
           (Routines c) (AppsecConfig c) value (AuthCacheDuration c)
           (Mode c) (Name c) (UniqueId c))
  else if String.eqb key "mode" then inr (set_Mode value c)
  else if String.eqb key "name" then inr (set_Name value c)
  else inl ("field " +:+ key +:+ " not found in type appsecacquisition.AppsecSourceConfig").

Fixpoint decode_lines (ls : list string) (c : AppsecSourceConfig)
  : option string * AppsecSourceConfig :=
  match ls with
  | [] => (None, c)
  | l :: rest =>
      if String.eqb l "" then decode_lines rest c
      else match key_value l with
           | None => (Some ("could not find expected ':' in " +:+ l), c)
           | Some (k, v) =>
               match set_field k v c with
               | inl e => (Some e, c)
               | inr c1 => decode_lines rest c1
               end
           end
  end.

(** A strict decoder for flat [key: value] documents. *)
Definition flat_yaml (doc : string) (c : AppsecSourceConfig)
  : option string * AppsecSourceConfig :=
  decode_lines (lines_of doc) c.

#[local] Instance externals : Externals := {|
  yaml_UnmarshalStrict := flat_yaml;
  TAIL_MODE := "tail";
  Credentials_URL := "http://127.0.0.1:8080/";
  APIKeyHeaderName := "X-Crowdsec-Appsec-Api-Key";
  IPHeaderName := "X-Crowdsec-Appsec-Ip";
  url_ok := fun u => String.prefix "http" u;
  GenerateResponse := fun resp => (HTTPResponseCode resp, mkBody (TempAction resp));
  json_Marshal := fun b =>
    inr ("{" +:+ dquote +:+ "action" +:+ dquote +:+ ":"
         +:+ dquote +:+ Action b +:+ dquote +:+ "}")
|}.

(** A fresh source, before [UnmarshalConfig]. *)
Definition fresh_source : AppsecSource := mkSource zeroConfig "" NewAuthCache.

Definition doc_explicit_addr : string :=
  unlines ["listen_addr: 127.0.0.1:7422"; "appsec_config: crowdsecurity/appsec-default"].
Definition doc_relative_path : string :=
  unlines ["listen_addr: 0.0.0.0:4242"; "path: appsec"; "routines: 0";
           "appsec_config_path: /etc/crowdsec/appsec-configs/mine.yaml"].
Definition doc_no_ruleset : string :=
  unlines ["listen_addr: 127.0.0.1:7422"; "routines: 4"].
Definition doc_socket_and_addr : string :=
  unlines ["listen_addr: 127.0.0.1:7422"; "listen_socket: /run/crowdsec/appsec.sock";
           "appsec_config: crowdsecurity/appsec-default"].

(** The source after [Configure]: [UnmarshalConfig] on [doc_default], then
    the default cache duration. *)
Definition configured (name : string) : AppsecSource :=
  mkSource
    (mkConfig "127.0.0.1:7422" "" "" "" "/" 1 "crowdsecurity/appsec-default" ""
       (Some DefaultAuthCacheDuration) "tail" name "")
    "http://127.0.0.1:8080/v1/decisions/stream" NewAuthCache.

Definition world_of (s : AppsecSource) : World := mkWorld s ∅ ∅.

Definition with_cache (k : string) (e : Z) (w : World) : World :=
  set_self (mkSource (config (self w)) (lapiURL (self w))
              (AuthCache_Set k e (authCache (self w)))) w.

(** A forwarded request carrying the API key [k] ([""]: no header). *)
Definition request_with_key (k : string) : Request :=
  mkRequest
    (if String.eqb k "" then {[ "X-Crowdsec-Appsec-Ip" := ["192.0.2.7"] ]}
     else {[ "X-Crowdsec-Appsec-Api-Key" := [k]; "X-Crowdsec-Appsec-Ip" := ["192.0.2.7"] ]})
    "10.0.0.1:51234" "/".

(** An oracle: the two clock readings, the status the LAPI answers (or
    no answer at all), and the runner's verdict. *)
Definition oracle (t1 t2 : Z) (lapi : option Z) (interrupt : bool) : Oracle :=
  mkOracle t1 t2
    (fun _ => match lapi with Some st => inr st | None => inl "context deadline exceeded" end)
    (fun r => inr (mkParsed "7f0c" (Header_Get r "X-Crowdsec-Appsec-Ip") "10.0.0.1" ""))
    (fun _ => if interrupt then mkTemp true "ban" 403 else mkTemp false "allow" 200).

(** The configured source with an empty cache, a request with the key
    [k1], and five more of them between 1 and 50 ms later. *)
Definition w0 : World := world_of (configured "127.0.0.1:7422/").
Definition r1 : Request := request_with_key "k1".
Definition follow_ups : list (Request * Oracle) :=
  map (fun t => (r1, oracle t t None false))
    [1000000; 10000000; 20000000; 30000000; 50000000].

End Samples.

(* ===================================================================== *)
(** ** What a caller of the handler sees *)
(* ===================================================================== *)

(** A call on the [http.ResponseWriter]. *)
Inductive Written :=
| Status (code : Z)      (* rw.WriteHeader(code) *)
| Body (body : string).  (* rw.Write(body) *)

(** The calls of an invocation on [rw], in program order. *)
Fixpoint written (t : list Event) : list Written :=
  match t with
  | [] => []
  | EvWriteHeader status :: rest => Status status :: written rest
  | EvWrite body :: rest => Body body :: written rest
  | _ :: rest => written rest
  end.



Section Answer.
Context `{Externals}.



End Answer.

(* ===================================================================== *)
(** ** Configure *)
(* ===================================================================== *)

(** What [Configure] loads the rule set from: [appsecCfg.LoadByPath] or
    [appsecCfg.Load]. *)
Inductive RuleSource :=
| ByPath (path : string)
| ByName (name : string).

(** Code of the [appsec] package, of [uuid] and of [net/http] that
    [Configure] calls; an error is [Some]. *)
Class Loader := mkLoader {
  appsecCfg_LoadByPath : string -> option string;
  appsecCfg_Load : string -> option string;
  (** [appsecCfg.Build()] on what was loaded *)
  appsecCfg_Build : RuleSource -> option string;
  (** [w.AppsecRuntime.ProcessOnLoadRules()] *)
  ProcessOnLoadRules : RuleSource -> option string;
  (** [uuid.New().String()] for the runner of an index *)
  uuid_New : nat -> string;
  (** [runner.Init(appsecCfg.GetDataDir())] for the runner of an index *)
  runner_Init : RuleSource -> nat -> option string;
  (** whether [w.mux.HandleFunc] accepts the pattern; it panics otherwise *)
  mux_pattern_ok : string -> bool
}.

(** [AppsecRunner]: its [UUID]; the zero value has the empty one. *)
Record AppsecRunner := mkRunner { runner_UUID : string }.

(** The receiver as [Configure] leaves it: the source, the address of
    [w.server] once it is created, the rule set once it is loaded, the
    slice [w.AppsecRunners] and the patterns registered on [w.mux]. *)
Record Configured := mkConfigured {
  source : AppsecSource;
  server_Addr : option string;
  ruleset : option RuleSource;
  AppsecRunners : list AppsecRunner;
  routes : list string
}.

Definition set_AuthCacheDuration (v : option Z) (c : AppsecSourceConfig)
  : AppsecSourceConfig :=
  mkConfig (ListenAddr c) (ListenSocket c) (CertFilePath c) (KeyFilePath c) (Path c)
    (Routines c) (AppsecConfig c) (AppsecConfigPath c) v (Mode c) (Name c) (UniqueId c).

(** The same world with the cache duration set. *)
Definition with_duration (d : Z) (w : World) : World :=
  set_self (mkSource (set_AuthCacheDuration (Some d) (config (self w)))
              (lapiURL (self w)) (authCache (self w))) w.

Section Configure.
Context `{Externals} `{Loader}.

(** The loop of lines 202-219 from the index [i], with [count] runners
    left to create: the error of the first [runner.Init] that fails, and
    the runners stored so far. *)
Fixpoint init_runners (rs : RuleSource) (i count : nat) : option string * list AppsecRunner :=
  match count with
  | O => (None, [])
  | S count' =>
      let appsecRunnerUUID := uuid_New i in
      match runner_Init rs i with
      | Some err => (Some ("unable to initialize runner: " +:+ err), [])
      | None =>
          let '(err, runners) := init_runners rs (S i) count' in
          (err, mkRunner appsecRunnerUUID :: runners)
      end
  end.

(** [func (w *AppsecSource) Configure(yamlConfig []byte, logger, MetricsLevel) error].
    The calls on the logger are left out. On an error of [runner.Init] the
    slice keeps its length: the slots not reached hold zero values. *)
Definition Configure (yamlConfig : string) (w : AppsecSource)
  : outcome (option string * Configured) :=
  match UnmarshalConfig yamlConfig w with
  | Panicked msg => Panicked msg
  | Done (Some err, w1) =>
      Done (Some ("unable to parse appsec configuration: " +:+ err),
            mkConfigured w1 None None [] [])
  | Done (None, w1) =>
      let c := config w1 in
      let c := match AuthCacheDuration c with
               | None => set_AuthCacheDuration (Some DefaultAuthCacheDuration) c
               | Some _ => c
               end in
      let w2 := mkSource c (lapiURL w1) (authCache w1) in
      let server := Some (ListenAddr c) in
      let loaded :=
        if negb (String.eqb (AppsecConfigPath c) "") then
          match appsecCfg_LoadByPath (AppsecConfigPath c) with
          | Some err => inl ("unable to load appsec_config: " +:+ err)
          | None => inr (ByPath (AppsecConfigPath c))
          end
        else if negb (String.eqb (AppsecConfig c) "") then
          match appsecCfg_Load (AppsecConfig c) with
          | Some err => inl ("unable to load appsec_config: " +:+ err)
          | None => inr (ByName (AppsecConfig c))
          end
        else inl "no appsec_config provided" in
      match loaded with
      | inl err => Done (Some err, mkConfigured w2 server None [] [])
      | inr rs =>
          match appsecCfg_Build rs with
          | Some err =>
              Done (Some ("unable to build appsec_config: " +:+ err),
                    mkConfigured w2 server (Some rs) [] [])
          | None =>
              match ProcessOnLoadRules rs with
              | Some err =>
                  Done (Some ("unable to process on load rules: " +:+ err),
                        mkConfigured w2 server (Some rs) [] [])
              | None =>
                  (* make([]AppsecRunner, w.config.Routines) *)
                  if Routines c <? 0 then Panicked "runtime error: makeslice: len out of range"
                  else
                    let n := Z.to_nat (Routines c) in
                    let '(err, runners) := init_runners rs 0 n in
                    let slots :=
                      runners ++ replicate (n - length runners) (mkRunner "") in
                    match err with
                    | Some e => Done (Some e, mkConfigured w2 server (Some rs) slots [])
                    | None =>
                        if mux_pattern_ok (Path c)
                        then Done (None, mkConfigured w2 server (Some rs) slots [Path c])
                        else Panicked "http: invalid pattern"
                    end
              end
          end
      end
  end.

End Configure.

(* ===================================================================== *)
(** ** The decisions file: errors, single decisions, address filters *)
(* ===================================================================== *)

Module decisions.
Import database.

(** The rows of a table whose id is in a list. *)
Definition rows_in (ids : list Z) (tbl : gmap Z Z) : gmap Z Z :=
  filter (fun kv => kv.1 ∈ ids) tbl.

(** The package-level errors the file returns or wraps. *)
Inductive SentinelError :=
| DeleteFail | ItemNotFound | InvalidFilter | InvalidIPOrRange | QueryFail.

(** An error value: a package-level error itself, one wrapped with a
    message ([errors.Wrap], [errors.Wrapf]), an error wrapped by
    [fmt.Errorf] with [%w], or the error of a library, by its text. *)
Inductive DBError :=
| Sentinel (e : SentinelError)
| Wrapf (cause : SentinelError) (msg : string)
| Errorf (msg : string) (cause : DBError)
| Text (msg : string).

(** [%d] *)
Definition fmt_d (n : Z) : string := pretty n.

(** [err != nil] *)
Definition not_nil {A} (err : option A) : bool :=
  match err with Some _ => true | None => false end.

(** [c.Ent.Decision.Query().Where(decision.IDEQ(decisionID)).All(ctx)]:
    the error with which the database answers this statement, if it
    does, and otherwise the row with that id, if there is one. No
    transaction ties the statement to the update that follows, which the
    [db_error] of the client answers: one can fail without the other. *)
Definition Query_IDEQ_All (select_error : option string) (decisionID : Z) (c : Client)
  : string + list Decision :=
  match select_error with
  | Some e => inl e
  | None =>
      inr (match Decisions c !! decisionID with
           | Some u => [mkDecision decisionID u]
           | None => []
           end)
  end.

(** [func (c *Client) ExpireDecisionByID(ctx, decisionID int) (int, []*ent.Decision, error)]:
    the count, the decisions (an empty list is [nil]), the error, and the
    client afterwards; [None] when [ExpireDecisions] needs more depth
    than [fuel]. *)
Definition ExpireDecisionByID (fuel : nat) (now : Z) (select_error : option string)
    (decisionID : Z) (c : Client)
  : option (Z * list Decision * option DBError * Client) :=
  let '(toUpdate, err) :=
    match Query_IDEQ_All select_error decisionID c with
    | inl e => ([], Some e)
    | inr rows => (rows, None)
    end in
  if not_nil err || (length toUpdate =? 0)%nat then
    Some (0, [],
          Some (Wrapf DeleteFail
                  ("decision with id '" +:+ fmt_d decisionID +:+ "' doesn't exist")), c)
  else if (length toUpdate =? 0)%nat then
    Some (0, [], Some (Sentinel ItemNotFound), c)
  else
    match ExpireDecisions fuel now toUpdate c with
    | None => None
    | Some (count, err, c') => Some (count, toUpdate, option_map Text err, c')
    end.

(** [csnet.IP] and [csnet.Range]: an address as two signed 64-bit halves,
    and a range with what [rng.Size()] returns, the size of its addresses
    in bytes. The zero value, a filter without [ip] or [range], has
    size 0. *)
Record IP := mkIP { Addr : Z; Sfx : Z }.
Record Range := mkRange { Start : IP; End_ : IP; Size : Z }.
Definition zero_Range : Range := mkRange (mkIP 0 0) (mkIP 0 0) 0.

(** The columns of a decision that the predicates of the file read. *)
Record Row := mkRow {
  row_ID : Z;
  row_Until : Z;
  CreatedAt : Z;
  Scenario : string;
  Type_ : string;
  StartIP : Z;
  EndIP : Z;
  StartSuffix : Z;
  EndSuffix : Z;
  IPSize : Z;
  Scope : string;
  Value : string;
  Origin : string;
  Simulated : bool;
  row_UUID : string
}.

(** The predicates of package [decision] that the file builds, and the
    selector [longestDecisionForScopeTypeValue]. *)
#[warnings="-register-all"]
Inductive Pred :=
| SimulatedEQ (b : bool)
| ScopeIn (l : list string)
| ScopeEQ (s : string)
| ValueEQ (s : string)
| TypeEQ (s : string)
| OriginIn (l : list string)
| OriginEQ (s : string)
| ScenarioContainsFold (s : string)
| ScenarioEQ (s : string)
| UUIDIn (l : list string)
| IDGT (n : Z)
| UntilGT (t : Z)
| UntilGTE (t : Z)
| UntilLT (t : Z)
| CreatedAtGT (t : Z)
| StartIPLTE (a : Z) | StartIPLT (a : Z) | StartIPGTE (a : Z) | StartIPGT (a : Z)
| StartIPEQ (a : Z)
| EndIPGTE (a : Z) | EndIPGT (a : Z) | EndIPLTE (a : Z) | EndIPLT (a : Z)
| EndIPEQ (a : Z)
| StartSuffixLTE (a : Z) | StartSuffixGTE (a : Z)
| EndSuffixGTE (a : Z) | EndSuffixLTE (a : Z)
| IPSizeEQ (n : Z)
| And (l : list Pred)
| Or (l : list Pred)
| Not (p : Pred)
| longestDecisionForScopeTypeValue.

Section Semantics.
(** The table the query runs on, for the self-join of
    [longestDecisionForScopeTypeValue], and the database's
    case-insensitive substring test. *)
Variable table : list Row.
Variable contains_fold : string -> string -> bool.

Definition string_in (s : string) (l : list string) : bool :=
  existsb (String.eqb s) l.

(** Whether a row satisfies a predicate. *)
Fixpoint holds (p : Pred) (d : Row) : bool :=
  match p with
  | SimulatedEQ b => Bool.eqb (Simulated d) b
  | ScopeIn l => string_in (Scope d) l
  | ScopeEQ s => String.eqb (Scope d) s
  | ValueEQ s => String.eqb (Value d) s
  | TypeEQ s => String.eqb (Type_ d) s
  | OriginIn l => string_in (Origin d) l
  | OriginEQ s => String.eqb (Origin d) s
  | ScenarioContainsFold s => contains_fold (Scenario d) s
  | ScenarioEQ s => String.eqb (Scenario d) s
  | UUIDIn l => string_in (row_UUID d) l
  | IDGT n => n <? row_ID d
  | UntilGT t => t <? row_Until d
  | UntilGTE t => t <=? row_Until d
  | UntilLT t => row_Until d <? t
  | CreatedAtGT t => t <? CreatedAt d
  | StartIPLTE a => StartIP d <=? a
  | StartIPLT a => StartIP d <? a
  | StartIPGTE a => a <=? StartIP d
  | StartIPGT a => a <? StartIP d
  | StartIPEQ a => StartIP d =? a
  | EndIPGTE a => a <=? EndIP d
  | EndIPGT a => a <? EndIP d
  | EndIPLTE a => EndIP d <=? a
  | EndIPLT a => EndIP d <? a
  | EndIPEQ a => EndIP d =? a
  | StartSuffixLTE a => StartSuffix d <=? a
  | StartSuffixGTE a => a <=? StartSuffix d
  | EndSuffixGTE a => a <=? EndSuffix d
  | EndSuffixLTE a => EndSuffix d <=? a
  | IPSizeEQ n => IPSize d =? n
  | And l => forallb (fun q => holds q d) l
  | Or l => existsb (fun q => holds q d) l
  | Not q => negb (holds q d)
  | longestDecisionForScopeTypeValue =>
      (* no row with the same value, type and scope lasts longer *)
      negb (existsb (fun t => String.eqb (Value t) (Value d) &&
                              String.eqb (Type_ t) (Type_ d) &&
                              String.eqb (Scope t) (Scope d) &&
                              (row_Until d <? row_Until t)) table)
  end.

End Semantics.

(** [ent.Asc(decision.FieldID)] and [ent.Desc(decision.FieldUntil)]. *)
Inductive OrderOption := Asc_FieldID | Desc_FieldUntil.

(** [*ent.DecisionQuery]: the predicates added by [Where], all of which
    must hold, the limit, the offset and the order. *)
Record DecisionQuery := mkQuery {
  predicates : list Pred;
  limit : option Z;
  offset : option Z;
  order : list OrderOption
}.

Definition Where (p : Pred) (q : DecisionQuery) : DecisionQuery :=
  mkQuery (predicates q ++ [p]) (limit q) (offset q) (order q).
Definition Limit (n : Z) (q : DecisionQuery) : DecisionQuery :=
  mkQuery (predicates q) (Some n) (offset q) (order q).
Definition Offset (n : Z) (q : DecisionQuery) : DecisionQuery :=
  mkQuery (predicates q) (limit q) (Some n) (order q).
Definition Order (o : OrderOption) (q : DecisionQuery) : DecisionQuery :=
  mkQuery (predicates q) (limit q) (offset q) (order q ++ [o]).

(** The rows a query selects, before limit, offset and order. *)
Definition selects (table : list Row) (contains_fold : string -> string -> bool)
    (q : DecisionQuery) (d : Row) : bool :=
  forallb (fun p => holds table contains_fold p d) (predicates q).

(** [func decisionIPv4Filter(decisions, contains, rng)] *)
Definition decisionIPv4Filter (decisions_ : DecisionQuery) (contains : bool) (rng : Range)
  : option DecisionQuery * option DBError :=
  if contains then
    (* Decision contains {start_ip,end_ip} *)
    (Some (Where (And [StartIPLTE (Addr (Start rng));
                       EndIPGTE (Addr (End_ rng));
                       IPSizeEQ (Size rng)]) decisions_), None)
  else
    (* Decision is contained within {start_ip,end_ip} *)
    (Some (Where (And [StartIPGTE (Addr (Start rng));
                       EndIPLTE (Addr (End_ rng));
                       IPSizeEQ (Size rng)]) decisions_), None).

(** [func decisionIPv6Filter(decisions, contains, rng)] *)
Definition decisionIPv6Filter (decisions_ : DecisionQuery) (contains : bool) (rng : Range)
  : option DecisionQuery * option DBError :=
  if contains then
    (Some (Where (And [
       IPSizeEQ (Size rng);
       Or [StartIPLT (Addr (Start rng));
           And [StartIPEQ (Addr (Start rng)); StartSuffixLTE (Sfx (Start rng))]];
       Or [EndIPGT (Addr (End_ rng));
           And [EndIPEQ (Addr (End_ rng)); EndSuffixGTE (Sfx (End_ rng))]]
     ]) decisions_), None)
  else
    (Some (Where (And [
       IPSizeEQ (Size rng);
       Or [StartIPGT (Addr (Start rng));
           And [StartIPEQ (Addr (Start rng)); StartSuffixGTE (Sfx (Start rng))]];
       Or [EndIPLT (Addr (End_ rng));
           And [EndIPEQ (Addr (End_ rng)); EndSuffixLTE (Sfx (End_ rng))]]
     ]) decisions_), None).

(** [func decisionIPFilter(decisions, contains, rng)] *)
Definition decisionIPFilter (decisions_ : DecisionQuery) (contains : bool) (rng : Range)
  : option DecisionQuery * option DBError :=
  if Size rng =? 4 then decisionIPv4Filter decisions_ contains rng
  else if Size rng =? 16 then decisionIPv6Filter decisions_ contains rng
  else if Size rng =? 0 then (Some decisions_, None)
  else (None, Some (Wrapf InvalidFilter ("unknown ip size " +:+ fmt_d (Size rng)))).

(** An address as one number: the first half counts 2^64, the second
    half is read from the bottom of its 64-bit range. *)
Definition position (a s : Z) : Z := a * 2 ^ 64 + (s + 2 ^ 63).

Definition int64 (z : Z) : Prop := - 2 ^ 63 <= z < 2 ^ 63.


(** [strings.Split(s, ",")]: the pieces of [s] between the commas, one
    more than there are commas. *)
Fixpoint Split (s : string) : list string :=
  match s with
  | EmptyString => [EmptyString]
  | String ch rest =>
      if Ascii.eqb ch ","%char then EmptyString :: Split rest
      else match Split rest with
           | word :: words => String ch word :: words
           | [] => [String ch EmptyString]
           end
  end.

(** [strings.Join(words, ",")] *)
Fixpoint Join (words : list string) : string :=
  match words with
  | [] => EmptyString
  | [word] => word
  | word :: rest => word +:+ "," +:+ Join rest
  end.

(** The number of commas of a string. *)
Fixpoint commas (s : string) : nat :=
  match s with
  | EmptyString => O
  | String ch rest => ((if Ascii.eqb ch ","%char then 1 else 0) + commas rest)%nat
  end.

(** [func decisionPredicatesFromStr(s, predicateFunc)] *)
Definition decisionPredicatesFromStr (s : string) (predicateFunc : string -> Pred)
  : list Pred :=
  let words := Split s in
  map predicateFunc words.

(** The [map[string][]string] of a request: its entries in the order in
    which the [range] of the call visits them, an order Go leaves open.
    A key occurs once. *)
Definition filter_map : Type := list (string * list string).

(** [v, ok := filter[key]] *)
Definition filter_get (key : string) (f : filter_map) : option (list string) :=
  match List.find (fun kv => String.eqb (fst kv) key) f with
  | Some kv => Some (snd kv)
  | None => None
  end.

(** [delete(filter, key)] *)
Definition filter_delete (key : string) (f : filter_map) : filter_map :=
  List.filter (fun kv => negb (String.eqb (fst kv) key)) f.

(** [value[0]] *)
Definition index0 (value : list string) : outcome string :=
  match value with
  | v :: _ => Done v
  | [] => Panicked "runtime error: index out of range [0] with length 0"
  end.

(** A method called on a nil pointer. *)
Definition nil_dereference : string :=
  "runtime error: invalid memory address or nil pointer dereference".

(** What the file takes from [strconv], [strings], [csnet], [time] and
    from package [types] of the repository; a failing parser gives the
    text of its error. *)
Class Library := mkLibrary {
  ParseBool : string -> string + bool;
  Atoi : string -> string + Z;
  NewRange : string -> string + Range;
  ToLower : string -> string;
  types_Ip : string;
  types_Range : string;
  types_Country : string;
  types_AS : string;
  time_String : Z -> string
}.

(** One turn of a [for ... range] loop: go on with the new state, or
    return an error. *)
Inductive flow (S : Type) :=
| Next (s : S)
| Return (err : DBError).
Arguments Next {S} s.
Arguments Return {S} err.

(** The variables a filter loop updates. *)
Record loop_state := mkLoop {
  st_query : DecisionQuery;
  st_contains : bool;
  st_rng : Range
}.

Section Requests.
Context `{Library}.

(** The loop [for i, scope := range scopes] of the [scopes] case. *)
Definition scope_name (scope : string) : string :=
  let lower := ToLower scope in
  if String.eqb lower "ip" then types_Ip
  else if String.eqb lower "range" then types_Range
  else if String.eqb lower "country" then types_Country
  else if String.eqb lower "as" then types_AS
  else scope.

(** [value[0]], then the rest of the case. *)
Definition with_value0 {A} (value : list string) (k : string -> outcome A) : outcome A :=
  match index0 value with
  | Panicked msg => Panicked msg
  | Done v => k v
  end.

(** The body of the loop of [BuildDecisionRequestWithFilter]: the
    [switch param]; it has no [default]. *)
Definition build_case (param : string) (value : list string) (s : loop_state)
  : outcome (flow loop_state) :=
  if String.eqb param "contains" then
    with_value0 value (fun v =>
      match ParseBool v with
      | inl err => Done (Return (Wrapf InvalidFilter ("invalid contains value : " +:+ err)))
      | inr b => Done (Next (mkLoop (st_query s) b (st_rng s)))
      end)
  else if String.eqb param "scopes" || String.eqb param "scope" then
    with_value0 value (fun v =>
      let scopes := map scope_name (Split v) in
      Done (Next (mkLoop (Where (ScopeIn scopes) (st_query s)) (st_contains s) (st_rng s))))
  else if String.eqb param "value" then
    with_value0 value (fun v =>
      Done (Next (mkLoop (Where (ValueEQ v) (st_query s)) (st_contains s) (st_rng s))))
  else if String.eqb param "type" then
    with_value0 value (fun v =>
      Done (Next (mkLoop (Where (TypeEQ v) (st_query s)) (st_contains s) (st_rng s))))
  else if String.eqb param "origins" then
    with_value0 value (fun v =>
      Done (Next (mkLoop (Where (OriginIn (Split v)) (st_query s))
                    (st_contains s) (st_rng s))))
  else if String.eqb param "scenarios_containing" then
    with_value0 value (fun v =>
      let predicates := decisionPredicatesFromStr v ScenarioContainsFold in
      Done (Next (mkLoop (Where (Or predicates) (st_query s)) (st_contains s) (st_rng s))))
  else if String.eqb param "scenarios_not_containing" then
    with_value0 value (fun v =>
      let predicates := decisionPredicatesFromStr v ScenarioContainsFold in
      Done (Next (mkLoop (Where (Not (Or predicates)) (st_query s))
                    (st_contains s) (st_rng s))))
  else if String.eqb param "ip" || String.eqb param "range" then
    with_value0 value (fun v =>
      match NewRange v with
      | inl err =>
          Done (Return (Wrapf InvalidIPOrRange
                          ("unable to convert '" +:+ v +:+ "' to int: " +:+ err)))
      | inr r => Done (Next (mkLoop (st_query s) (st_contains s) r))
      end)
  else if String.eqb param "limit" then
    with_value0 value (fun v =>
      match Atoi v with
      | inl err => Done (Return (Wrapf InvalidFilter ("invalid limit value : " +:+ err)))
      | inr n => Done (Next (mkLoop (Limit n (st_query s)) (st_contains s) (st_rng s)))
      end)
  else if String.eqb param "offset" then
    with_value0 value (fun v =>
      match Atoi v with
      | inl err => Done (Return (Wrapf InvalidFilter ("invalid offset value : " +:+ err)))
      | inr n => Done (Next (mkLoop (Offset n (st_query s)) (st_contains s) (st_rng s)))
      end)
  else if String.eqb param "id_gt" then
    with_value0 value (fun v =>
      match Atoi v with
      | inl err => Done (Return (Wrapf InvalidFilter ("invalid id_gt value : " +:+ err)))
      | inr n => Done (Next (mkLoop (Where (IDGT n) (st_query s)) (st_contains s) (st_rng s)))
      end)
  else Done (Next s).

(** [for param, value := range filter { ... }] *)
Fixpoint range_loop (body : string -> list string -> loop_state -> outcome (flow loop_state))
    (entries : filter_map) (s : loop_state) : outcome (flow loop_state) :=
  match entries with
  | [] => Done (Next s)
  | (param, value) :: rest =>
      match body param value s with
      | Done (Next s') => range_loop body rest s'
      | stop => stop
      end
  end.

(** [func BuildDecisionRequestWithFilter(query, filter)]:
    the two results ([None] is [nil]) and the caller's map afterwards. *)
Definition BuildDecisionRequestWithFilter (query : DecisionQuery) (filters : filter_map)
  : outcome ((option DecisionQuery * option DBError) * filter_map) :=
  let simulated :=
    match filter_get "simulated" filters with
    | Some v =>
        with_value0 v (fun v0 =>
          Done (if String.eqb v0 "false" then Where (SimulatedEQ false) query else query,
                filter_delete "simulated" filters))
    | None => Done (Where (SimulatedEQ false) query, filters)
    end in
  match simulated with
  | Panicked msg => Panicked msg
  | Done (query, filters) =>
      match range_loop build_case filters (mkLoop query true zero_Range) with
      | Panicked msg => Panicked msg
      | Done (Return err) => Done ((None, Some err), filters)
      | Done (Next s) =>
          match decisionIPFilter (st_query s) (st_contains s) (st_rng s) with
          | (_, Some err) =>
              Done ((None, Some (Errorf "fail to apply StartIpEndIpFilter: " err)), filters)
          | (query, None) => Done ((query, None), filters)
          end
      end
  end.

(** The keys [BuildDecisionRequestWithFilter] reads. *)
Definition build_keys : list string :=
  ["simulated"; "contains"; "scopes"; "scope"; "value"; "type"; "origins";
   "scenarios_containing"; "scenarios_not_containing"; "ip"; "range";
   "limit"; "offset"; "id_gt"].

Definition is_build_key (key : string) : bool := existsb (String.eqb key) build_keys.

(** The two results of a call, without the map. *)
Definition results {A B} (r : outcome (A * B)) : outcome A :=
  match r with
  | Done (a, _) => Done a
  | Panicked msg => Panicked msg
  end.

(** Whether the loop goes on, returns or panics does not depend on the
    query. *)
Definition same_control (r1 r2 : outcome (flow loop_state)) : Prop :=
  match r1, r2 with
  | Panicked m1, Panicked m2 => m1 = m2
  | Done (Return e1), Done (Return e2) => e1 = e2
  | Done (Next t1), Done (Next t2) =>
      st_contains t1 = st_contains t2 /\ st_rng t1 = st_rng t2
  | _, _ => False
  end.

(** [c.Ent.Decision.Query()] *)
Definition Query : DecisionQuery := mkQuery [] None None [].

(** [query.Order(...)]: the method writes a field of its receiver. *)
Definition Order_on (o : OrderOption) (query : option DecisionQuery) : outcome DecisionQuery :=
  match query with
  | None => Panicked nil_dereference
  | Some q => Done (Order o q)
  end.

(** [since.String()] on a [*time.Time] *)
Definition since_String (since : option Z) : outcome string :=
  match since with
  | None => Panicked nil_dereference
  | Some t => Done (time_String t)
  end.

(** The statements the generated client runs for a query: [All], the
    grouped count of [QueryDecisionCountByScenario] and the selection of
    [QueryDecisionWithFilter]. *)
Context {Counts : Type}.
Variable All : DecisionQuery -> Client -> string + list Row.
Variable Scan_counts : DecisionQuery -> Client -> string + Counts.
Variable Scan_selected : DecisionQuery -> Client -> string + list Row.

(** [if v, ok := filters["dedup"]; !ok || v[0] != "false" { query = query.Where(longestDecisionForScopeTypeValue) }] *)
Definition dedup (filters : filter_map) (query : DecisionQuery) : outcome DecisionQuery :=
  match filter_get "dedup" filters with
  | None => Done (Where longestDecisionForScopeTypeValue query)
  | Some v =>
      with_value0 v (fun v0 =>
        Done (if negb (String.eqb v0 "false")
              then Where longestDecisionForScopeTypeValue query else query))
  end.

(** What a query function returns: the decisions and the error. *)
Definition answer : Type := list Row * option DBError.

(** [func (c *Client) QueryAllDecisionsWithFilters(ctx, filters)] *)
Definition QueryAllDecisionsWithFilters (now : Z) (filters : filter_map) (c : Client)
  : outcome (answer * filter_map) :=
  let query := Where (UntilGT now) Query in
  match dedup filters query with
  | Panicked msg => Panicked msg
  | Done query =>
      match BuildDecisionRequestWithFilter query filters with
      | Panicked msg => Panicked msg
      | Done ((_, Some err), filters) =>
          Done (([], Some (Wrapf QueryFail "get all decisions with filters")), filters)
      | Done ((query, None), filters) =>
          match Order_on Asc_FieldID query with
          | Panicked msg => Panicked msg
          | Done query =>
              match All query c with
              | inl err =>
                  Done (([], Some (Wrapf QueryFail "get all decisions with filters")), filters)
              | inr data => Done ((data, None), filters)
              end
          end
      end
  end.

(** [func (c *Client) QueryExpiredDecisionsWithFilters(ctx, filters)]:
    [query.Order] comes before the test of [err]. *)
Definition QueryExpiredDecisionsWithFilters (now : Z) (filters : filter_map) (c : Client)
  : outcome (answer * filter_map) :=
  let query := Where (UntilLT now) Query in
  match dedup filters query with
  | Panicked msg => Panicked msg
  | Done query =>
      match BuildDecisionRequestWithFilter query filters with
      | Panicked msg => Panicked msg
      | Done ((query, err), filters) =>
          match Order_on Asc_FieldID query with
          | Panicked msg => Panicked msg
          | Done query =>
              match err with
              | Some _ =>
                  Done (([], Some (Wrapf QueryFail "get expired decisions with filters")),
                        filters)
              | None =>
                  match All query c with
                  | inl err => Done (([], Some (Wrapf QueryFail "expired decisions")), filters)
                  | inr data => Done ((data, None), filters)
                  end
              end
          end
      end
  end.

(** [func (c *Client) QueryDecisionCountByScenario(ctx)] *)
Definition QueryDecisionCountByScenario (now : Z) (c : Client)
  : outcome (option Counts * option DBError) :=
  let query := Where (UntilGT now) Query in
  match BuildDecisionRequestWithFilter query [] with
  | Panicked msg => Panicked msg
  | Done ((_, Some err), _) =>
      Done (None, Some (Wrapf QueryFail "count all decisions with filters"))
  | Done ((None, None), _) => Panicked nil_dereference
  | Done ((Some query, None), _) =>
      match Scan_counts query c with
      | inl err => Done (None, Some (Wrapf QueryFail "count all decisions with filters"))
      | inr r => Done (Some r, None)
      end
  end.

(** [func (c *Client) QueryDecisionWithFilter(ctx, filter)] *)
Definition QueryDecisionWithFilter (now : Z) (filters : filter_map) (c : Client)
  : outcome (answer * filter_map) :=
  let decisions_ := Where (UntilGTE now) Query in
  match BuildDecisionRequestWithFilter decisions_ filters with
  | Panicked msg => Panicked msg
  | Done ((_, Some err), filters) => Done (([], Some err), filters)
  | Done ((None, None), _) => Panicked nil_dereference
  | Done ((Some decisions_, None), filters) =>
      match Scan_selected decisions_ c with
      | inl err => Done (([], Some (Wrapf QueryFail "query decision failed")), filters)
      | inr data => Done ((data, None), filters)
      end
  end.

(** [func (c *Client) QueryExpiredDecisionsSinceWithFilters(ctx, since, filters)] *)
Definition QueryExpiredDecisionsSinceWithFilters (now : Z) (since : option Z)
    (filters : filter_map) (c : Client) : outcome (answer * filter_map) :=
  let query := Where (UntilLT now) Query in
  let query := match since with Some t => Where (UntilGT t) query | None => query end in
  match dedup filters query with
  | Panicked msg => Panicked msg
  | Done query =>
      match BuildDecisionRequestWithFilter query filters with
      | Panicked msg => Panicked msg
      | Done ((_, Some err), filters) =>
          Done (([], Some (Wrapf QueryFail "expired decisions with filters")), filters)
      | Done ((query, None), filters) =>
          match Order_on Asc_FieldID query with
          | Panicked msg => Panicked msg
          | Done query =>
              match All query c with
              | inl err =>
                  Done (([], Some (Wrapf QueryFail "expired decisions with filters")), filters)
              | inr data => Done ((data, None), filters)
              end
          end
      end
  end.

(** [errors.Wrapf(QueryFail, "new decisions since '%s'", since.String())] *)
Definition new_decisions_error (since : option Z) (filters : filter_map)
  : outcome (answer * filter_map) :=
  match since_String since with
  | Panicked msg => Panicked msg
  | Done text =>
      Done (([], Some (Wrapf QueryFail ("new decisions since '" +:+ text +:+ "'"))), filters)
  end.

(** [func (c *Client) QueryNewDecisionsSinceWithFilters(ctx, since, filters)] *)
Definition QueryNewDecisionsSinceWithFilters (now : Z) (since : option Z)
    (filters : filter_map) (c : Client) : outcome (answer * filter_map) :=
  let query := Where (UntilGT now) Query in
  let query := match since with Some t => Where (CreatedAtGT t) query | None => query end in
  match dedup filters query with
  | Panicked msg => Panicked msg
  | Done query =>
      match BuildDecisionRequestWithFilter query filters with
      | Panicked msg => Panicked msg
      | Done ((_, Some err), filters) => new_decisions_error since filters
      | Done ((query, None), filters) =>
          match Order_on Asc_FieldID query with
          | Panicked msg => Panicked msg
          | Done query =>
              match All query c with
              | inl err => new_decisions_error since filters
              | inr data => Done ((data, None), filters)
              end
          end
      end
  end.

(** The body of the loop of [ExpireDecisionsWithFilter]: its [switch]
    has a [default] that refuses the key. *)
Definition expire_case (param : string) (value : list string) (s : loop_state)
  : outcome (flow loop_state) :=
  if String.eqb param "contains" then
    with_value0 value (fun v =>
      match ParseBool v with
      | inl err => Done (Return (Wrapf InvalidFilter ("invalid contains value : " +:+ err)))
      | inr b => Done (Next (mkLoop (st_query s) b (st_rng s)))
      end)
  else if String.eqb param "scopes" then
    with_value0 value (fun v =>
      Done (Next (mkLoop (Where (ScopeEQ v) (st_query s)) (st_contains s) (st_rng s))))
  else if String.eqb param "uuid" then
    Done (Next (mkLoop (Where (UUIDIn value) (st_query s)) (st_contains s) (st_rng s)))
  else if String.eqb param "origin" then
    with_value0 value (fun v =>
      Done (Next (mkLoop (Where (OriginEQ v) (st_query s)) (st_contains s) (st_rng s))))
  else if String.eqb param "value" then
    with_value0 value (fun v =>
      Done (Next (mkLoop (Where (ValueEQ v) (st_query s)) (st_contains s) (st_rng s))))
  else if String.eqb param "type" then
    with_value0 value (fun v =>
      Done (Next (mkLoop (Where (TypeEQ v) (st_query s)) (st_contains s) (st_rng s))))
  else if String.eqb param "ip" || String.eqb param "range" then
    with_value0 value (fun v =>
      match NewRange v with
      | inl err =>
          Done (Return (Wrapf InvalidIPOrRange
                          ("unable to convert '" +:+ v +:+ "' to int: " +:+ err)))
      | inr r => Done (Next (mkLoop (st_query s) (st_contains s) r))
      end)
  else if String.eqb param "scenario" then
    with_value0 value (fun v =>
      Done (Next (mkLoop (Where (ScenarioEQ v) (st_query s)) (st_contains s) (st_rng s))))
  else Done (Return (Wrapf InvalidFilter ("'" +:+ param +:+ "' doesn't exist"))).

(** The keys [ExpireDecisionsWithFilter] reads. *)
Definition expire_keys : list string :=
  ["contains"; "scopes"; "uuid"; "origin"; "value"; "type"; "ip"; "range"; "scenario"].

Definition is_expire_key (key : string) : bool := existsb (String.eqb key) expire_keys.

(** An [ent.Decision] as the bulk functions read it. *)
Definition to_Decision (d : Row) : Decision := mkDecision (row_ID d) (row_Until d).

(** [func (c *Client) ExpireDecisionsWithFilter(ctx, filter) (int, []*ent.Decision, error)]:
    the results and the client afterwards; [None] when [ExpireDecisions]
    needs more depth than [fuel]. *)
Definition ExpireDecisionsWithFilter (fuel : nat) (now : Z) (filters : filter_map) (c : Client)
  : option (outcome (Z * list Row * option DBError * Client)) :=
  let decisions_ := Where (UntilGT now) Query in
  match range_loop expire_case filters (mkLoop decisions_ true zero_Range) with
  | Panicked msg => Some (Panicked msg)
  | Done (Return err) => Some (Done (0, [], Some err, c))
  | Done (Next s) =>
      match decisionIPFilter (st_query s) (st_contains s) (st_rng s) with
      | (_, Some err) => Some (Done (0, [], Some err, c))
      | (None, None) => Some (Panicked nil_dereference)
      | (Some decisions_, None) =>
          match All decisions_ c with
          | inl err =>
              Some (Done (0, [], Some (Wrapf DeleteFail "expire decisions with provided filter"), c))
          | inr decisionsToDelete =>
              match ExpireDecisions fuel now (map to_Decision decisionsToDelete) c with
              | None => None
              | Some (_, Some err, c') =>
                  Some (Done (0, [],
                              Some (Wrapf DeleteFail
                                      ("expire decisions with provided filter : " +:+ err)), c'))
              | Some (count, None, c') => Some (Done (count, decisionsToDelete, None, c'))
              end
          end
      end
  end.

End Requests.

End decisions.

(* ===================================================================== *)
(** ** More sample inputs *)
(* ===================================================================== *)

Module MoreSamples.
Import Samples database decisions.

(** A decimal with an optional sign. *)
Definition signed_decimal (s : string) : option Z :=
  match s with
  | String "-"%char rest => option_map Z.opp (decimal rest 0)
  | _ => decimal s 0
  end.

(** The decoder of [Samples], reading a signed [routines]. *)
Fixpoint decode_signed (ls : list string) (c : AppsecSourceConfig)
  : option string * AppsecSourceConfig :=
  match ls with
  | [] => (None, c)
  | l :: rest =>
      if String.eqb l "" then decode_signed rest c
      else match key_value l with
           | None => (Some ("could not find expected ':' in " +:+ l), c)
           | Some (k, v) =>
               if String.eqb k "routines" then
                 match signed_decimal v with
                 | Some n => decode_signed rest (set_Routines n c)
                 | None => (Some ("cannot unmarshal " +:+ v +:+ " into int"), c)
                 end
               else
                 match set_field k v c with
                 | inl e => (Some e, c)
                 | inr c1 => decode_signed rest c1
                 end
           end
  end.

Definition signed_yaml (doc : string) (c : AppsecSourceConfig)
  : option string * AppsecSourceConfig :=
  decode_signed (lines_of doc) c.

#[local] Instance signed_externals : Externals := {|
  yaml_UnmarshalStrict := signed_yaml;
  TAIL_MODE := "tail";
  Credentials_URL := "http://127.0.0.1:8080/";
  APIKeyHeaderName := "X-Crowdsec-Appsec-Api-Key";
  IPHeaderName := "X-Crowdsec-Appsec-Ip";
  url_ok := fun u => String.prefix "http" u;
  GenerateResponse := fun resp => (HTTPResponseCode resp, mkBody (TempAction resp));
  json_Marshal := fun b =>
    inr ("{" +:+ dquote +:+ "action" +:+ dquote +:+ ":"
         +:+ dquote +:+ Action b +:+ dquote +:+ "}")
|}.

Definition doc_negative_routines : string :=
  unlines ["routines: -1"; "appsec_config_path: /etc/crowdsec/appsec-configs/mine.yaml"].

Definition doc_negative_routines_named : string :=
  unlines ["routines: -1"; "appsec_config: crowdsecurity/appsec-default"].

Definition doc_unknown_name : string := unlines ["appsec_config: mine"].

Definition doc_named : string :=
  unlines ["name: edge"; "appsec_config: crowdsecurity/appsec-default";
           "appsec_config_path: /etc/crowdsec/appsec-configs/mine.yaml"; "routines: 2"].

(** A hub that knows one rule set by name and reads every path, and
    runners that start. *)
Definition runner_name (i : nat) : string := "runner-" +:+ pretty (Z.of_nat i).

#[local] Instance loader : Loader := {|
  appsecCfg_LoadByPath := fun _ => None;
  appsecCfg_Load := fun name =>
    if String.eqb name "crowdsecurity/appsec-default" then None
    else Some ("no appsec-config found for " +:+ name);
  appsecCfg_Build := fun _ => None;
  ProcessOnLoadRules := fun _ => None;
  uuid_New := runner_name;
  runner_Init := fun _ _ => None;
  mux_pattern_ok := fun pattern => String.prefix "/" pattern
|}.

(** A source put together by hand, as a test does, with everything the
    handler uses except the cache duration, which only [Configure]
    defaults. *)
Definition without_duration : World :=
  world_of (mkSource
    (mkConfig "127.0.0.1:7422" "" "" "" "/" 1 "crowdsecurity/appsec-default" ""
       None "tail" "127.0.0.1:7422/" "")
    "http://127.0.0.1:8080/v1/decisions/stream" NewAuthCache).

(** ASCII lower case. *)
Definition lower_ascii (ch : ascii) : ascii :=
  let n := Ascii.nat_of_ascii ch in
  if ((65 <=? n) && (n <=? 90))%nat then Ascii.ascii_of_nat (n + 32) else ch.

Fixpoint lower (s : string) : string :=
  match s with
  | EmptyString => EmptyString
  | String ch rest => String (lower_ascii ch) (lower rest)
  end.

(** Parsers that know two booleans, unsigned decimals and two
    addresses. *)
#[local] Instance library : Library := {|
  ParseBool := fun s =>
    if String.eqb s "true" then inr true
    else if String.eqb s "false" then inr false
    else inl ("parsing " +:+ s +:+ ": invalid syntax");
  Atoi := fun s =>
    match s, decimal s 0 with
    | String _ _, Some n => inr n
    | _, _ => inl ("parsing " +:+ s +:+ ": invalid syntax")
    end;
  NewRange := fun s =>
    if String.eqb s "192.0.2.7"
    then inr (mkRange (mkIP 3221225991 0) (mkIP 3221225991 0) 4)
    else if String.eqb s "2001:db8::/32"
    then inr (mkRange (mkIP (-6917159607731126272) (- 2 ^ 63))
                (mkIP (-6917159603436158977) (2 ^ 63 - 1)) 16)
    else inl ("invalid ip address " +:+ s);
  ToLower := lower;
  types_Ip := "Ip";
  types_Range := "Range";
  types_Country := "Country";
  types_AS := "AS";
  time_String := fun t => pretty t
|}.

(** The decision of a row of the table, with the columns the table does
    not hold: a ban of one address. *)
Definition row_of (kv : Z * Z) : Row :=
  mkRow kv.1 kv.2 0 "crowdsecurity/ssh-bf" "ban" 3221225991 3221225991 0 0 4
    "Ip" "192.0.2.7" "cscli" false "".

Definition contains_exactly (s sub : string) : bool :=
  match String.index 0 sub s with Some _ => true | None => false end.

(** A database that evaluates the query on its table. *)
Definition table_All (q : DecisionQuery) (c : Client) : string + list Row :=
  match db_error c with
  | Some e => inl e
  | None =>
      let rows := map row_of (map_to_list (Decisions c)) in
      inr (List.filter (selects rows contains_exactly q) rows)
  end.

(** A database that is down. *)
Definition down (c : Client) : Client := mkClient (Decisions c) (Some "connection refused").

(** A decision on a 16-byte range, and a range inside it. *)
Definition row_v6 : Row :=
  mkRow 7 100 0 "crowdsecurity/http-probing" "ban"
    (-6917159607731126272) (-6917159603436158977) (- 2 ^ 63) (2 ^ 63 - 1) 16
    "Range" "2001:db8::/32" "cscli" false "".

Definition range_v6 : Range :=
  mkRange (mkIP (-6917159607731126272) 5) (mkIP (-6917159607731126272) 5) 16.

(** A request for the simulated decisions of two scopes. *)
Definition filters_simulated : filter_map :=
  [("simulated", ["true"]); ("scope", ["ip,range"]); ("dedup", ["false"])].

(** A limit that is not a number. *)
Definition filters_bad_limit : filter_map := [("limit", ["ten"]); ("dedup", ["false"])].

(** A table with a decision that lasts until 500 and one that ended at
    50, at the time 100. *)
Definition two_decisions : Client := mkClient (list_to_map [(1, 500); (2, 50)]) None.

End MoreSamples.

(* ===================================================================== *)
(** * Properties *)
(* ===================================================================== *)

(** ** AuthCache *)

Lemma AuthCache_Get_Set_same k e ac :
  AuthCache_Get k (AuthCache_Set k e ac) = (e, true).
Proof. unfold AuthCache_Get, AuthCache_Set; simpl. by rewrite lookup_insert_eq. Qed.

Lemma AuthCache_Get_Set_other k k' e ac :
  k' <> k -> AuthCache_Get k (AuthCache_Set k' e ac) = AuthCache_Get k ac.
Proof.
  intros Hne. unfold AuthCache_Get, AuthCache_Set; simpl.
  by rewrite lookup_insert_ne.
Qed.

Lemma AuthCache_Get_run_op k op ac :
  sets_key k op = false -> AuthCache_Get k (run_op op ac) = AuthCache_Get k ac.
Proof.
  destruct op as [k' e | k']; simpl; [| reflexivity].
  intros Hk. apply AuthCache_Get_Set_other. by apply String.eqb_neq.
Qed.

(** Calls that do not [Set] the key leave what [Get] reads for it. *)
Lemma AuthCache_Get_run_ops k ops : forall ac,
  forallb (fun op => negb (sets_key k op)) ops = true ->
  AuthCache_Get k (run_ops ops ac) = AuthCache_Get k ac.
Proof.
  induction ops as [| op ops IH]; intros ac Hops; simpl in *; [reflexivity |].
  apply andb_prop in Hops as [Hop Hrest].
  unfold run_ops in *; simpl. rewrite IH by exact Hrest.
  apply AuthCache_Get_run_op. by apply negb_true_iff.
Qed.

(** C5. [Get] after [Set k e] reads [(e, true)] through every sequence of
    cache calls that does not [Set] the key again; a later [Set k e']
    replaces it; and a key that was never [Set] on a new cache reads as
    absent. *)
Theorem AuthCache_roundtrip :
  forall (k : string) (e : Z) (ac : AuthCache) (ops : list CacheOp),
    forallb (fun op => negb (sets_key k op)) ops = true ->
    AuthCache_Get k (run_ops ops (AuthCache_Set k e ac)) = (e, true)
    /\ (forall e', AuthCache_Get k (AuthCache_Set k e' (run_ops ops (AuthCache_Set k e ac)))
                   = (e', true))
    /\ AuthCache_Get k (run_ops ops NewAuthCache) = (0, false).
Proof.
  intros k e ac ops Hops. repeat split.
  - rewrite AuthCache_Get_run_ops by exact Hops. apply AuthCache_Get_Set_same.
  - intros e'. apply AuthCache_Get_Set_same.
  - rewrite AuthCache_Get_run_ops by exact Hops. reflexivity.
Qed.

(** [Set k1], then calls on [k1] and [k2] that do not [Set k1]. *)
Lemma AuthCache_roundtrip_witness :
  AuthCache_Get "k1"
    (run_ops [OpGet "k1"; OpSet "k2" 9; OpGet "k2"] (AuthCache_Set "k1" 42 NewAuthCache))
  = (42, true)
  /\ (forall e', AuthCache_Get "k1"
        (AuthCache_Set "k1" e'
           (run_ops [OpGet "k1"; OpSet "k2" 9; OpGet "k2"] (AuthCache_Set "k1" 42 NewAuthCache)))
      = (e', true))
  /\ AuthCache_Get "k1" (run_ops [OpGet "k1"; OpSet "k2" 9; OpGet "k2"] NewAuthCache)
     = (0, false).
Proof.
  apply (AuthCache_roundtrip "k1" 42 NewAuthCache [OpGet "k1"; OpSet "k2" 9; OpGet "k2"]).
  reflexivity.
Defined.

(** ** UnmarshalConfig *)

Section ConfigProperties.
Context `{Externals}.

Ltac cfg_red :=
  cbv beta iota delta
    [set_ListenAddr set_Path set_Mode set_Routines set_Name
     ListenAddr ListenSocket CertFilePath KeyFilePath Path Routines AppsecConfig
     AppsecConfigPath AuthCacheDuration Mode Name UniqueId andb negb].

(* A test that computes is replaced by its value, another one is split. *)
Ltac resolve t :=
  lazymatch t with
  | (if ?t' then _ else _) => resolve t'
  | _ =>
      let v := eval cbv in t in
      lazymatch v with
      | true => change t with true
      | false => change t with false
      | _ => destruct t
      end
  end.

(* One step of [UnmarshalConfig] on a record: a [let] is unfolded only
   when its value is a record again, so that the term stays small. *)
Ltac cfg_step :=
  cfg_red;
  lazymatch goal with
  | |- (let c := (if ?t then _ else _) in _) = _ => resolve t
  | |- (let c := ?v in @?f c) = ?rhs => change (f v = rhs)
  | |- (if ?t then _ else _) = _ => resolve t
  end.

(** [UnmarshalConfig] never panics: the path is defaulted before its
    first byte is read. Its three ways out. *)
Lemma UnmarshalConfig_cases yamlConfig w :
  UnmarshalConfig yamlConfig w =
  let '(err, c0) := yaml_UnmarshalStrict yamlConfig (config w) in
  match err with
  | Some e => Done (Some ("cannot parse appsec configuration: " +:+ e),
                    mkSource c0 (lapiURL w) (authCache w))
  | None =>
      if String.eqb (AppsecConfig c0) "" && String.eqb (AppsecConfigPath c0) ""
      then Done (Some "appsec_config or appsec_config_path must be set",
                 mkSource (defaulted c0) (lapiURL w) (authCache w))
      else Done (None, mkSource (default_Name (defaulted c0))
                         (Credentials_URL +:+ "v1/decisions/stream") NewAuthCache)
  end.
Proof.
  cbv delta [UnmarshalConfig defaulted]; cbv beta.
  destruct (yaml_UnmarshalStrict yamlConfig (config w)) as [[e |] c0]; [reflexivity |].
  destruct c0 as [la ls cf kf [| b p] r ac acp d m n u];
    repeat cfg_step; reflexivity.
Qed.


(** The naming block writes [Name] only. *)
Lemma default_Name_other_fields c :
  ListenAddr (default_Name c) = ListenAddr c /\
  ListenSocket (default_Name c) = ListenSocket c /\
  Path (default_Name c) = Path c /\
  Routines (default_Name c) = Routines c.
Proof.
  destruct c as [la ls cf kf p r ac acp d m n u]. unfold default_Name; simpl.
  destruct (String.eqb n ""); [| auto].
  destruct (String.eqb ls ""), (String.eqb la ""); simpl;
    try destruct (String.eqb ls ""); auto.
Qed.

(** With a socket and an address both set, neither naming branch fires. *)
Lemma default_Name_socket_and_addr c :
  ListenSocket c <> "" -> ListenAddr c <> "" -> Name c = "" ->
  Name (default_Name c) = "".
Proof.
  intros Hs Ha Hn. unfold default_Name.
  apply String.eqb_neq in Hs, Ha. rewrite Hn, Hs, Ha. simpl.
  rewrite Hs. exact Hn.
Qed.

Lemma defaulted_Path_slash c0 : exists rest, Path (defaulted c0) = String "/" rest.
Proof.
  destruct c0 as [la ls cf kf [| b p] r ac acp d m n u]; simpl; [by eexists |].
  destruct (Ascii.eqb b "/") eqn:E; [| by eexists].
  apply Ascii.eqb_eq in E; subst b. by eexists.
Qed.

(** The configuration a successful [UnmarshalConfig] leaves. *)
Lemma UnmarshalConfig_success yamlConfig w w' :
  UnmarshalConfig yamlConfig w = Done (None, w') ->
  (yaml_UnmarshalStrict yamlConfig (config w)).1 = None /\
  config w' = default_Name (defaulted (yaml_UnmarshalStrict yamlConfig (config w)).2) /\
  lapiURL w' = Credentials_URL +:+ "v1/decisions/stream" /\
  authCache w' = NewAuthCache.
Proof.
  rewrite UnmarshalConfig_cases.
  destruct (yaml_UnmarshalStrict yamlConfig (config w)) as [[e |] c0]; simpl;
    [discriminate |].
  destruct (String.eqb (AppsecConfig c0) "" && String.eqb (AppsecConfigPath c0) "");
    [discriminate |].
  intros [= <-]. auto.
Qed.

(** C6, as amended. After a successful [UnmarshalConfig], with [c0] what
    the decoder left in the struct: (1) [ListenAddr] is [127.0.0.1:7422]
    when [listen_addr] and [listen_socket] were both empty, and is
    [listen_addr] as configured otherwise; (2) [Path] is ["/"] when it was
    empty and always starts with ['/']; (3) [Routines] is [1] when it
    was [0]. *)
Theorem UnmarshalConfig_defaults :
  forall (yamlConfig : string) (w w' : AppsecSource),
    UnmarshalConfig yamlConfig w = Done (None, w') ->
    let c0 := (yaml_UnmarshalStrict yamlConfig (config w)).2 in
    (ListenAddr c0 = "" /\ ListenSocket c0 = "" ->
       ListenAddr (config w') = "127.0.0.1:7422") /\
    (~ (ListenAddr c0 = "" /\ ListenSocket c0 = "") ->
       ListenAddr (config w') = ListenAddr c0) /\
    (Path c0 = "" -> Path (config w') = "/") /\
    (exists rest, Path (config w') = String "/" rest) /\
    (Routines c0 = 0 -> Routines (config w') = 1).
Proof.
  intros yamlConfig w w' Hok c0.
  apply UnmarshalConfig_success in Hok as (_ & Hc & _). fold c0 in Hc.
  destruct (default_Name_other_fields (defaulted c0)) as (Hla & _ & Hp & Hr).
  rewrite Hc, Hla, Hp, Hr. clear Hc Hla Hp Hr.
  repeat split.
  - intros [Ha Hs]. simpl. by rewrite Ha, Hs.
  - intros Hne. simpl.
    destruct (String.eqb (ListenAddr c0) "") eqn:Ea; [| reflexivity].
    destruct (String.eqb (ListenSocket c0) "") eqn:Es; [| reflexivity].
    apply String.eqb_eq in Ea, Es. tauto.
  - intros Hp. simpl. by rewrite Hp.
  - apply defaulted_Path_slash.
  - intros Hr. simpl. by rewrite Hr.
Qed.

(** C7. [UnmarshalConfig] returns an error whenever [appsec_config] and
    [appsec_config_path] are both empty: the decoder's, or
    ["appsec_config or appsec_config_path must be set"]. When one of them
    is set and the document decodes, it returns no error. *)
Theorem UnmarshalConfig_requires_ruleset :
  forall (yamlConfig : string) (w : AppsecSource),
    let r := yaml_UnmarshalStrict yamlConfig (config w) in
    (AppsecConfig r.2 = "" /\ AppsecConfigPath r.2 = "" ->
       exists e w', UnmarshalConfig yamlConfig w = Done (Some e, w') /\
         (r.1 = None -> e = "appsec_config or appsec_config_path must be set")) /\
    (~ (AppsecConfig r.2 = "" /\ AppsecConfigPath r.2 = "") -> r.1 = None ->
       exists w', UnmarshalConfig yamlConfig w = Done (None, w')).
Proof.
  intros yamlConfig w r. rewrite UnmarshalConfig_cases. subst r.
  destruct (yaml_UnmarshalStrict yamlConfig (config w)) as [err c0]; simpl.
  split.
  - intros [Ha Hp]. destruct err as [e |].
    + do 2 eexists. split; [reflexivity | discriminate].
    + rewrite Ha, Hp. simpl. do 2 eexists. split; reflexivity.
  - intros Hne ->.
    destruct (String.eqb (AppsecConfig c0) "") eqn:Ea;
      [destruct (String.eqb (AppsecConfigPath c0) "") eqn:Ep |]; simpl;
      try (eexists; reflexivity).
    apply String.eqb_eq in Ea, Ep. tauto.
Qed.

End ConfigProperties.

(** The two ways out on concrete documents. *)
Lemma UnmarshalConfig_requires_ruleset_witness :
  (exists e w',
     @UnmarshalConfig Samples.externals Samples.doc_no_ruleset Samples.fresh_source
       = Done (Some e, w')
     /\ e = "appsec_config or appsec_config_path must be set")
  /\ (exists w',
        @UnmarshalConfig Samples.externals Samples.doc_relative_path Samples.fresh_source
          = Done (None, w')).
Proof.
  split.
  - destruct (@UnmarshalConfig_requires_ruleset Samples.externals
                Samples.doc_no_ruleset Samples.fresh_source) as [Hmissing _].
    destruct Hmissing as (e & w' & Hrun & He); [split; reflexivity |].
    exists e, w'. split; [exact Hrun | apply He; reflexivity].
  - destruct (@UnmarshalConfig_requires_ruleset Samples.externals
                Samples.doc_relative_path Samples.fresh_source) as [_ Hset].
    apply Hset; [| reflexivity].
    intros [_ Hp]. vm_compute in Hp. discriminate.
Defined.

(** A document with a relative path and [routines: 0]. *)
Lemma UnmarshalConfig_defaults_witness :
  let w' := mkSource
      (mkConfig "0.0.0.0:4242" "" "" "" "/appsec" 1 ""
         "/etc/crowdsec/appsec-configs/mine.yaml" None "tail" "0.0.0.0:4242/appsec" "")
      "http://127.0.0.1:8080/v1/decisions/stream" NewAuthCache in
  @UnmarshalConfig Samples.externals Samples.doc_relative_path Samples.fresh_source
    = Done (None, w')
  /\ ListenAddr (config w') = "0.0.0.0:4242"
  /\ (exists rest, Path (config w') = String "/" rest)
  /\ Routines (config w') = 1.
Proof.
  intros w'.
  assert (Hrun : @UnmarshalConfig Samples.externals Samples.doc_relative_path
                   Samples.fresh_source = Done (None, w')) by (vm_compute; reflexivity).
  destruct (@UnmarshalConfig_defaults Samples.externals _ _ _ Hrun)
    as (_ & Haddr & _ & Hslash & Hroutines).
  split; [exact Hrun |]. split; [| split].
  - reflexivity.
  - exact Hslash.
  - apply Hroutines. reflexivity.
Defined.

(** C6 as stated fails from right to left: a document that sets
    [listen_addr] to the default address decodes to that address although
    [listen_addr] was not empty. *)
Lemma UnmarshalConfig_listen_addr_not_exactly_when :
  exists w',
    @UnmarshalConfig Samples.externals Samples.doc_explicit_addr Samples.fresh_source
      = Done (None, w')
    /\ let c0 := (@yaml_UnmarshalStrict Samples.externals Samples.doc_explicit_addr
                    (config Samples.fresh_source)).2 in
       ~ (ListenAddr (config w') = "127.0.0.1:7422"
          <-> ListenAddr c0 = "" /\ ListenSocket c0 = "").
Proof.
  eexists. split; [vm_compute; reflexivity |].
  intros c0 [Hif _]. destruct Hif as [Ha _]; [reflexivity |].
  vm_compute in Ha. discriminate.
Qed.

(** ** IsAuth and appsecHandler *)

Section HandlerProperties.
Context `{Externals}.

(** Unfolding the monad and the handler's helpers. *)
Ltac unfold_go :=
  cbv beta iota delta
    [bind ret emit ask gets modify panic logger_Debugf logger_Errorf rw_WriteHeader
     rw_Write time_Now_check time_Now_set http_NewRequest w_AuthCache_Get
     w_AuthCache_Set AppsecReqCounter_Inc AppsecBlockCounter_Inc set_self
     self AppsecReqCounter AppsecBlockCounter config lapiURL authCache
     fst snd negb].

Ltac list_norm := cbn [app]; rewrite <- ?app_assoc; cbn [app]; rewrite ?app_nil_r; reflexivity.

Lemma count_events_app p (t1 t2 : list Event) :
  count_events p (t1 ++ t2) = (count_events p t1 + count_events p t2)%nat.
Proof. unfold count_events. by rewrite List.filter_app, length_app. Qed.

Lemma count_events_cons p e (t : list Event) :
  count_events p (e :: t) = ((if p e then 1 else 0) + count_events p t)%nat.
Proof. unfold count_events. simpl. by destruct (p e). Qed.

(** [Inc] adds one under its labels and leaves the other label sets. *)
Lemma value_of_Inc labels labels' c :
  value_of labels' (Inc labels c) =
    if decide (labels = labels') then S (value_of labels c) else value_of labels' c.
Proof.
  unfold value_of, Inc. destruct (decide (labels = labels')) as [<- | Hne].
  - by rewrite lookup_insert_eq.
  - by rewrite lookup_insert_ne.
Qed.

Lemma one_more_Inc labels c : one_more labels c (Inc labels c).
Proof.
  split.
  - rewrite value_of_Inc. by destruct (decide (labels = labels)).
  - intros other Hne. rewrite value_of_Inc.
    destruct (decide (labels = other)); [congruence | reflexivity].
Qed.

(** [IsAuth] returns a boolean and never panics; it leaves the world alone,
    calls [http.NewRequest] once and [client.Do] at most once, on
    [probe_request]. *)
Lemma IsAuth_run apiKey o w :
  IsAuth apiKey o w = (Done (probe_answer w o apiKey), w, probe_events w o apiKey).
Proof.
  unfold probe_events, IsAuth, probe_answer, probe_request.
  destruct w as [[c url ac] rc bc]. unfold_go. unfold Header_Add; simpl.
  destruct (url_ok url); simpl; [| reflexivity].
  destruct (client_Do o _) as [err | status]; reflexivity.
Qed.

Lemma probe_events_counts apiKey o w :
  IsAuth_calls (probe_events w o apiKey) = 1%nat /\
  count_events is_Send (probe_events w o apiKey) = 0%nat /\
  count_events is_ReqInc (probe_events w o apiKey) = 0%nat /\
  count_events is_BlockInc (probe_events w o apiKey) = 0%nat /\
  count_events is_Parse (probe_events w o apiKey) = 0%nat /\
  count_events is_cache_access (probe_events w o apiKey) = 0%nat /\
  count_events is_WriteHeader (probe_events w o apiKey) = 0%nat.
Proof.
  unfold probe_events, IsAuth. destruct w as [[c url ac] rc bc].
  unfold_go. unfold Header_Add; simpl.
  destruct (url_ok url); simpl; [| repeat split; reflexivity].
  destruct (client_Do o _) as [err | status]; repeat split; reflexivity.
Qed.

Lemma probe_events_Do apiKey o w req :
  In (EvDo req) (probe_events w o apiKey) -> req = probe_request w apiKey.
Proof.
  unfold probe_events, IsAuth, probe_request. destruct w as [[c url ac] rc bc].
  unfold_go. unfold Header_Add; simpl.
  destruct (url_ok url); simpl; [| intuition congruence].
  destruct (client_Do o _) as [err | status]; simpl; intuition congruence.
Qed.

(** *** The authentication phase, case by case *)

(** No key: 401, and nothing else happens. *)
Lemma authenticate_missing_key r o w :
  apiKey_of r = "" ->
  authenticate r o w =
    (Done false, w,
     [EvLog ErrorLevel (unauthorized_msg (RemoteAddr r) (Header_Get r IPHeaderName));
      EvWriteHeader StatusUnauthorized]).
Proof.
  unfold apiKey_of, authenticate. intros ->. simpl String.eqb. cbv iota.
  destruct w as [[c url ac] rc bc]. reflexivity.
Qed.

(** A fresh cache entry: authenticated from the cache alone. *)
Lemma authenticate_cached r o w :
  apiKey_of r <> "" ->
  cache_fresh w o (apiKey_of r) = true ->
  authenticate r o w =
    (Done true, w, [EvCacheGet (apiKey_of r); EvNow (now_check o)]).
Proof.
  unfold apiKey_of, authenticate, cache_fresh. intros Hk Hfresh.
  apply String.eqb_neq in Hk. rewrite Hk.
  destruct w as [[c url ac] rc bc]. unfold_go. unfold AuthCache_Get.
  simpl in Hfresh.
  destruct (APIKeys ac !! Header_Get r APIKeyHeaderName) as [e |]; [| discriminate].
  unfold_go. unfold After.
  apply Z.leb_le in Hfresh.
  destruct (Z.ltb_spec e (now_check o)); [lia | reflexivity].
Qed.

(** No fresh entry: the probe decides. A refusal is a 401 and leaves the
    world as it was; an approval stores the key with
    [now() + auth_cache_duration], and panics on a [nil] duration. *)
Lemma authenticate_stale r o w :
  apiKey_of r <> "" ->
  cache_fresh w o (apiKey_of r) = false ->
  authenticate r o w =
    let k := apiKey_of r in
    let lookup := stale_lookup w o k ++ probe_events w o k in
    if probe_answer w o k then
      match AuthCacheDuration (config (self w)) with
      | Some d =>
          (Done true,
           set_self (mkSource (config (self w)) (lapiURL (self w))
                       (AuthCache_Set k (now_set o + d) (authCache (self w)))) w,
           lookup ++ [EvNow (now_set o); EvCacheSet k (now_set o + d)])
      | None =>
          (Panicked "invalid memory address or nil pointer dereference", w,
           lookup ++ [EvNow (now_set o)])
      end
    else
      (Done false, w,
       lookup ++
       [EvWriteHeader StatusUnauthorized;
        EvLog ErrorLevel (unauthorized_msg (RemoteAddr r) (Header_Get r IPHeaderName))]).
Proof.
  intros Hk Hstale. cbv zeta.
  pose proof (IsAuth_run (apiKey_of r) o w) as Hprobe.
  revert Hk Hstale Hprobe.
  generalize (probe_events w o (apiKey_of r)) as probe.
  generalize (probe_answer w o (apiKey_of r)) as answer.
  unfold apiKey_of, authenticate, cache_fresh, stale_lookup.
  intros answer probe Hk Hstale Hprobe. apply String.eqb_neq in Hk. rewrite Hk.
  destruct w as [[c url ac] rc bc]. unfold_go. unfold AuthCache_Get.
  simpl in Hstale.
  destruct (APIKeys ac !! Header_Get r APIKeyHeaderName) as [e |]; unfold_go.
  - unfold After. apply Z.leb_gt in Hstale.
    destruct (Z.ltb_spec e (now_check o)); [| lia].
    rewrite Hprobe. unfold_go. destruct answer; unfold_go.
    + destruct (AuthCacheDuration c); unfold_go; list_norm.
    + list_norm.
  - rewrite Hprobe. unfold_go. destruct answer; unfold_go.
    + destruct (AuthCacheDuration c); unfold_go; list_norm.
    + list_norm.
Qed.

(** *** The second phase *)

Lemma dispatch_parse_error r o w err :
  parse o r = inl err ->
  dispatch r o w =
    (Done tt, w,
     [EvParse r; EvLog ErrorLevel err; EvWriteHeader StatusInternalServerError]).
Proof.
  intros Hp. unfold dispatch. destruct w as [[c url ac] rc bc].
  unfold_go. rewrite Hp. reflexivity.
Qed.

Lemma dispatch_parsed r o w p :
  parse o r = inr p ->
  dispatch r o w =
    let p' := set_AppsecEngine (Name (config (self w))) p in
    let source := RemoteAddrNormalized p in
    let engine := Name (config (self w)) in
    let response := reply o p' in
    (Done tt,
     mkWorld (self w)
       (Inc (source, engine) (AppsecReqCounter w))
       (if InBandInterrupt response
        then Inc (source, engine) (AppsecBlockCounter w)
        else AppsecBlockCounter w),
     [EvParse r; EvReqCounterInc source engine; EvSend p'; EvRecv p' response] ++
     (if InBandInterrupt response then [EvBlockCounterInc source engine] else []) ++
     answer_events response).
Proof.
  intros Hp. unfold dispatch, answer_events. destruct w as [[c url ac] rc bc].
  unfold_go. rewrite Hp. unfold_go. unfold set_AppsecEngine; simpl.
  destruct (InBandInterrupt _); unfold_go;
    destruct (GenerateResponse _) as [statusCode body]; unfold_go;
    destruct (json_Marshal body); list_norm.
Qed.

Lemma answer_events_counts response :
  IsAuth_calls (answer_events response) = 0%nat /\
  count_events is_Send (answer_events response) = 0%nat /\
  count_events is_ReqInc (answer_events response) = 0%nat /\
  count_events is_BlockInc (answer_events response) = 0%nat /\
  count_events is_Parse (answer_events response) = 0%nat /\
  count_events is_cache_access (answer_events response) = 0%nat.
Proof.
  unfold answer_events. destruct (GenerateResponse response) as [st body].
  destruct (json_Marshal body); repeat split; reflexivity.
Qed.

(** *** The handler from its two phases *)

Lemma appsecHandler_phases r o w :
  appsecHandler r o w =
    let hello := EvLog DebugLevel
      ("Received request from '" +:+ RemoteAddr r +:+ "' on " +:+ URL_Path r) in
    match authenticate r o w with
    | (Done true, w1, t1) =>
        let '(res, w2, t2) := dispatch r o w1 in (res, w2, hello :: t1 ++ t2)
    | (Done false, w1, t1) => (Done tt, w1, hello :: t1 ++ [])
    | (Panicked msg, w1, t1) => (Panicked msg, w1, hello :: t1)
    end.
Proof.
  unfold appsecHandler. unfold_go.
  destruct (authenticate r o w) as [[[[|] | msg] w1] t1]; unfold_go;
    try destruct (dispatch r o w1) as [[res w2] t2]; list_norm.
Qed.


Lemma stale_lookup_counts w o k :
  IsAuth_calls (stale_lookup w o k) = 0%nat /\
  count_events is_Send (stale_lookup w o k) = 0%nat /\
  count_events is_ReqInc (stale_lookup w o k) = 0%nat /\
  count_events is_BlockInc (stale_lookup w o k) = 0%nat /\
  count_events is_Parse (stale_lookup w o k) = 0%nat /\
  count_events is_WriteHeader (stale_lookup w o k) = 0%nat.
Proof.
  unfold stale_lookup. destruct (APIKeys _ !! k); repeat split; reflexivity.
Qed.

Lemma count_events_zero_In p (t : list Event) e :
  count_events p t = 0%nat -> In e t -> p e = false.
Proof.
  unfold count_events. induction t as [| a t IH]; simpl; [tauto |].
  destruct (p a) eqn:Ea; simpl; [discriminate |].
  intros Hz [-> | Hin]; auto.
Qed.

(** What the authentication phase does to the world and which calls it
    makes, in all cases. *)
Lemma authenticate_frame r o w :
  let k := apiKey_of r in
  let '(res, w1, t1) := authenticate r o w in
  config (self w1) = config (self w) /\
  lapiURL (self w1) = lapiURL (self w) /\
  AppsecReqCounter w1 = AppsecReqCounter w /\
  AppsecBlockCounter w1 = AppsecBlockCounter w /\
  authCache (self w1) =
    (if probes w o r && probe_answer w o k then
       match AuthCacheDuration (config (self w)) with
       | Some d => AuthCache_Set k (now_set o + d) (authCache (self w))
       | None => authCache (self w)
       end
     else authCache (self w)) /\
  res =
    (if passes_auth w o r then
       if cache_fresh w o k then Done true
       else match AuthCacheDuration (config (self w)) with
            | Some _ => Done true
            | None => Panicked "invalid memory address or nil pointer dereference"
            end
     else Done false) /\
  IsAuth_calls t1 = (if probes w o r then 1 else 0)%nat /\
  count_events is_Send t1 = 0%nat /\
  count_events is_ReqInc t1 = 0%nat /\
  count_events is_BlockInc t1 = 0%nat /\
  count_events is_Parse t1 = 0%nat.
Proof.
  intros k. unfold passes_auth, probes. fold k.
  destruct (String.eqb k "") eqn:Ek.
  { apply String.eqb_eq in Ek. rewrite (authenticate_missing_key r o w Ek).
    destruct w as [[c url ac] rc bc]. simpl. repeat split; reflexivity. }
  apply String.eqb_neq in Ek.
  destruct (cache_fresh w o k) eqn:Ef.
  { rewrite (authenticate_cached r o w Ek Ef).
    destruct w as [[c url ac] rc bc]. simpl. repeat split; reflexivity. }
  rewrite (authenticate_stale r o w Ek Ef). cbv zeta. fold k.
  destruct (probe_events_counts k o w) as (P1 & P2 & P3 & P4 & P5 & _).
  destruct (stale_lookup_counts w o k) as (S1 & S2 & S3 & S4 & S5 & _).
  unfold IsAuth_calls in *.
  destruct (probe_answer w o k); [destruct (AuthCacheDuration (config (self w))) |];
    destruct w as [[c url ac] rc bc]; simpl negb; simpl andb; simpl orb; cbv iota;
    simpl self; simpl config; simpl lapiURL; simpl authCache;
    rewrite !count_events_app, ?P1, ?P2, ?P3, ?P4, ?P5, ?S1, ?S2, ?S3, ?S4, ?S5;
    repeat split; reflexivity.
Qed.

(** The second phase leaves the receiver alone and never calls the probe. *)
Lemma dispatch_frame r o w :
  exists w2 t2,
    dispatch r o w = (Done tt, w2, EvParse r :: t2) /\
    self w2 = self w /\
    IsAuth_calls t2 = 0%nat /\
    count_events is_Parse t2 = 0%nat /\
    (forall p, In (EvSend p) t2 -> AppsecEngine p = Name (config (self w))).
Proof.
  destruct (parse o r) as [err | p] eqn:Hp.
  - rewrite (dispatch_parse_error r o w err Hp). do 2 eexists.
    split; [reflexivity |]. repeat split; try reflexivity.
    intros p Hin. simpl in Hin. intuition congruence.
  - rewrite (dispatch_parsed r o w p Hp). cbv zeta.
    set (p' := set_AppsecEngine (Name (config (self w))) p).
    set (response := reply o p').
    destruct (answer_events_counts response) as (A1 & A2 & A3 & A4 & A5 & _).
    unfold IsAuth_calls in *.
    eexists.
    exists ([EvReqCounterInc (RemoteAddrNormalized p) (Name (config (self w)));
             EvSend p'; EvRecv p' response] ++
            (if InBandInterrupt response
             then [EvBlockCounterInc (RemoteAddrNormalized p) (Name (config (self w)))]
             else []) ++ answer_events response).
    split; [reflexivity |]. split; [reflexivity |]. split; [| split].
    + rewrite !count_events_app, A1. by destruct (InBandInterrupt response).
    + rewrite !count_events_app, A5. by destruct (InBandInterrupt response).
    + intros q Hin. apply in_app_or in Hin as [Hin | Hin].
      * simpl in Hin. destruct Hin as [Hq | [Hq | [Hq | []]]]; try discriminate.
        injection Hq as <-. reflexivity.
      * apply in_app_or in Hin as [Hin | Hin].
        -- destruct (InBandInterrupt response); simpl in Hin; intuition congruence.
        -- apply (count_events_zero_In _ _ _ A2) in Hin. discriminate.
Qed.


(** *** The handler as a whole *)

(** What an invocation does to the receiver, and its calls of the probe. *)
Lemma appsecHandler_frame r o w :
  let k := apiKey_of r in
  let '(_, w', evs) := appsecHandler r o w in
  config (self w') = config (self w) /\
  lapiURL (self w') = lapiURL (self w) /\
  authCache (self w') =
    (if probes w o r && probe_answer w o k then
       match AuthCacheDuration (config (self w)) with
       | Some d => AuthCache_Set k (now_set o + d) (authCache (self w))
       | None => authCache (self w)
       end
     else authCache (self w)) /\
  IsAuth_calls evs = (if probes w o r then 1 else 0)%nat /\
  (forall p, In (EvSend p) evs -> AppsecEngine p = Name (config (self w))).
Proof.
  intros k. rewrite appsecHandler_phases. cbv zeta.
  pose proof (authenticate_frame r o w) as Hframe. cbv zeta in Hframe. fold k in Hframe.
  destruct (authenticate r o w) as [[res1 w1] t1].
  destruct Hframe as (Hc & Hu & _ & _ & Hac & _ & Hcalls & Hsend & _).
  unfold IsAuth_calls in *.
  destruct res1 as [[|] | msg].
  - destruct (dispatch_frame r o w1) as (w2 & t2 & Hd & Hs & Hcalls2 & _ & Hengine).
    rewrite Hd, Hs. repeat split; try assumption.
    + unfold IsAuth_calls in Hcalls2.
      rewrite count_events_cons, count_events_app, count_events_cons, Hcalls, Hcalls2.
      simpl. lia.
    + intros p [Hp | Hin]; [discriminate |].
      apply in_app_or in Hin as [Hin | [Hp | Hin]]; [| discriminate |].
      * apply (count_events_zero_In _ _ _ Hsend) in Hin. discriminate.
      * rewrite <- Hc. by apply Hengine.
  - rewrite app_nil_r. repeat split; try assumption.
    intros p [Hp | Hin]; [discriminate |].
    apply (count_events_zero_In _ _ _ Hsend) in Hin. discriminate.
  - repeat split; try assumption.
    intros p [Hp | Hin]; [discriminate |].
    apply (count_events_zero_In _ _ _ Hsend) in Hin. discriminate.
Qed.

(** A fresh entry: the request goes on to be parsed. *)
Lemma appsecHandler_cached r o w :
  apiKey_of r <> "" ->
  cache_fresh w o (apiKey_of r) = true ->
  exists res w' t2,
    appsecHandler r o w =
      (res, w',
       EvLog DebugLevel
         ("Received request from '" +:+ RemoteAddr r +:+ "' on " +:+ URL_Path r)
       :: [EvCacheGet (apiKey_of r); EvNow (now_check o)] ++ EvParse r :: t2) /\
    self w' = self w.
Proof.
  intros Hk Hf. rewrite appsecHandler_phases, (authenticate_cached r o w Hk Hf).
  destruct (dispatch_frame r o w) as (w2 & t2 & Hd & Hs & _).
  cbv zeta. rewrite Hd. by exists (Done tt), w2, t2.
Qed.

Lemma cache_fresh_lookup w o K E :
  APIKeys (authCache (self w)) !! K = Some E ->
  now_check o <= E ->
  cache_fresh w o K = true.
Proof. unfold cache_fresh. intros -> Hle. by apply Z.leb_le. Qed.

(** A fresh entry for [K] outlives every run whose requests with [K]
    arrive within its time to live, and serves them all. *)
Lemma serve_within_ttl K E : K <> "" ->
  forall reqs w,
    APIKeys (authCache (self w)) !! K = Some E ->
    within_ttl K E reqs ->
    APIKeys (authCache (self (serve reqs w).1)) !! K = Some E /\
    served_from_cache K reqs (serve reqs w).2.
Proof.
  intros HK. unfold within_ttl, served_from_cache.
  induction reqs as [| [r o] reqs IH]; intros w Hlook Hall; simpl.
  { split; [exact Hlook | constructor]. }
  inversion Hall as [| ? ? Hhead Htail]; subst. simpl in Hhead.
  pose proof (appsecHandler_frame r o w) as Hframe. cbv zeta in Hframe.
  destruct (appsecHandler r o w) as [[res w1] evs] eqn:Hrun.
  destruct Hframe as (_ & _ & Hac & Hcalls & _).
  assert (Hlook1 : APIKeys (authCache (self w1)) !! K = Some E).
  { rewrite Hac. unfold probes.
    destruct (String.eqb_spec (apiKey_of r) K) as [Heq | Hne].
    - rewrite (cache_fresh_lookup w o _ E) by (rewrite ?Heq; auto).
      by rewrite andb_false_r.
    - destruct (_ && _); [| exact Hlook].
      destruct (AuthCacheDuration _); [| exact Hlook].
      simpl. by rewrite lookup_insert_ne. }
  destruct (IH w1 Hlook1 Htail) as [Hfinal Hserved].
  destruct (serve reqs w1) as [w2 evss]. simpl in *.
  split; [exact Hfinal |]. constructor; [| exact Hserved].
  simpl. intros Heq.
  assert (Hfresh : cache_fresh w o (apiKey_of r) = true)
    by (apply (cache_fresh_lookup w o _ E); rewrite ?Heq; auto).
  split.
  - rewrite Hcalls. unfold probes. rewrite Hfresh. by rewrite andb_false_r.
  - destruct (appsecHandler_cached r o w) as (res' & w' & t2 & Hrun' & _);
      [by rewrite Heq | exact Hfresh |].
    rewrite Hrun in Hrun'. injection Hrun' as _ _ ->.
    simpl. auto.
Qed.

(** C1. Let [K] be a key. (1) While the cache holds [K] with expiration
    [E], every request carrying [K] that arrives with [now() <= E] is
    authenticated without a call of [IsAuth] and goes on to be parsed, and
    the entry stays. (2) A request with [K] that finds no fresh entry and
    whose probe succeeds calls [IsAuth] once and stores [K] with
    [now() + auth_cache_duration]; the requests with [K] that follow
    within that time do not call the probe. *)
Theorem cached_key_skips_probe :
  forall K : string, K <> "" ->
    (forall E reqs w,
       APIKeys (authCache (self w)) !! K = Some E ->
       within_ttl K E reqs ->
       APIKeys (authCache (self (serve reqs w).1)) !! K = Some E /\
       served_from_cache K reqs (serve reqs w).2)
    /\
    (forall r o w d reqs,
       apiKey_of r = K ->
       cache_fresh w o K = false ->
       probe_answer w o K = true ->
       AuthCacheDuration (config (self w)) = Some d ->
       within_ttl K (now_set o + d) reqs ->
       let '(_, w', evs) := appsecHandler r o w in
       IsAuth_calls evs = 1%nat /\
       authCache (self w') = AuthCache_Set K (now_set o + d) (authCache (self w)) /\
       AuthCache_Get K (authCache (self w')) = (now_set o + d, true) /\
       served_from_cache K reqs (serve reqs w').2).
Proof.
  intros K HK. split.
  - intros E reqs w. by apply serve_within_ttl.
  - intros r o w d reqs Hr Hstale Hyes Hd Hreqs.
    pose proof (appsecHandler_frame r o w) as Hframe. cbv zeta in Hframe.
    destruct (appsecHandler r o w) as [[res w'] evs].
    destruct Hframe as (_ & _ & Hac & Hcalls & _).
    unfold probes in *. rewrite Hr in *.
    apply String.eqb_neq in HK. rewrite HK, Hstale, Hyes, Hd in *. simpl in *.
    split; [exact Hcalls |]. split; [exact Hac |].
    split; [rewrite Hac; apply AuthCache_Get_Set_same |].
    apply (serve_within_ttl K (now_set o + d)); [by apply String.eqb_neq | | exact Hreqs].
    rewrite Hac. simpl. apply lookup_insert_eq.
Qed.

End HandlerProperties.

Section HandlerClaims.
Context `{Externals}.

(** C3. A request without an API key is answered 401 and nothing else
    happens: the world is unchanged, [IsAuth] is not called, the cache is
    neither read nor written, and nothing is sent to the runners. *)
Theorem missing_key_unauthorized :
  forall r o w,
    apiKey_of r = "" ->
    let evs :=
      [EvLog DebugLevel
         ("Received request from '" +:+ RemoteAddr r +:+ "' on " +:+ URL_Path r);
       EvLog ErrorLevel (unauthorized_msg (RemoteAddr r) (Header_Get r IPHeaderName));
       EvWriteHeader StatusUnauthorized] in
    appsecHandler r o w = (Done tt, w, evs) /\
    IsAuth_calls evs = 0%nat /\
    count_events is_Do evs = 0%nat /\
    count_events is_cache_access evs = 0%nat /\
    count_events is_Send evs = 0%nat.
Proof.
  intros r o w Hk evs. split; [| repeat split; reflexivity].
  rewrite appsecHandler_phases, (authenticate_missing_key r o w Hk). reflexivity.
Qed.

(** A stale or missing entry stays so as time goes on. *)
Lemma cache_fresh_later w o o' k :
  cache_fresh w o k = false ->
  now_check o <= now_check o' ->
  cache_fresh w o' k = false.
Proof.
  unfold cache_fresh. destruct (APIKeys _ !! k) as [e |]; [| reflexivity].
  intros Hs Hle. apply Z.leb_gt in Hs. apply Z.leb_gt. lia.
Qed.

(** C2. A request whose key has no fresh entry in the cache and whose
    probe fails is answered 401, once, after one call of [IsAuth]; the
    world, and so the cache, is left as it was, and nothing is sent to the
    runners. A later request with the same key calls the probe again. *)
Theorem rejected_key_not_cached :
  forall r o w,
    apiKey_of r <> "" ->
    cache_fresh w o (apiKey_of r) = false ->
    probe_answer w o (apiKey_of r) = false ->
    exists evs,
      appsecHandler r o w = (Done tt, w, evs) /\
      last evs = Some
        (EvLog ErrorLevel (unauthorized_msg (RemoteAddr r) (Header_Get r IPHeaderName))) /\
      In (EvWriteHeader StatusUnauthorized) evs /\
      count_events is_WriteHeader evs = 1%nat /\
      IsAuth_calls evs = 1%nat /\
      count_events is_Send evs = 0%nat /\
      (forall e, ~ In (EvCacheSet (apiKey_of r) e) evs) /\
      (forall r' o',
         apiKey_of r' = apiKey_of r ->
         now_check o <= now_check o' ->
         IsAuth_calls (appsecHandler r' o' w).2 = 1%nat).
Proof.
  intros r o w Hk Hstale Hno.
  rewrite appsecHandler_phases, (authenticate_stale r o w Hk Hstale). cbv zeta.
  rewrite Hno. eexists. split; [reflexivity |].
  destruct (probe_events_counts (apiKey_of r) o w) as (P1 & P2 & _ & _ & _ & P6 & P7).
  destruct (stale_lookup_counts w o (apiKey_of r)) as (S1 & S2 & _ & _ & _ & S6).
  unfold IsAuth_calls in *. rewrite app_nil_r.
  set (lookup := stale_lookup w o (apiKey_of r) ++ probe_events w o (apiKey_of r)).
  set (hello := EvLog DebugLevel _).
  set (bye := EvLog ErrorLevel _).
  repeat split.
  - change (hello :: lookup ++ [EvWriteHeader StatusUnauthorized; bye])
      with ((hello :: lookup) ++ [EvWriteHeader StatusUnauthorized] ++ [bye]).
    rewrite app_assoc. apply last_snoc.
  - right. apply in_or_app. right. by left.
  - subst lookup. rewrite count_events_cons, !count_events_app, S6, P7. reflexivity.
  - subst lookup. rewrite count_events_cons, !count_events_app, S1, P1. reflexivity.
  - subst lookup. rewrite count_events_cons, !count_events_app, S2, P2. reflexivity.
  - subst lookup hello bye. intros e [He | Hin]; [discriminate |].
    apply in_app_or in Hin as [Hin | Hin].
    + apply in_app_or in Hin as [Hin | Hin].
      * unfold stale_lookup in Hin.
        destruct (APIKeys _ !! _); simpl in Hin; intuition congruence.
      * apply (count_events_zero_In _ _ _ P6) in Hin. discriminate.
    + simpl in Hin. intuition congruence.
  - intros r' o' Hsame Hlater.
    pose proof (appsecHandler_frame r' o' w) as Hframe. cbv zeta in Hframe.
    destruct (appsecHandler r' o' w) as [[res w'] evs']. simpl.
    destruct Hframe as (_ & _ & _ & Hcalls & _).
    unfold IsAuth_calls in Hcalls. rewrite Hcalls.
    unfold probes. rewrite Hsame.
    rewrite (cache_fresh_later w o o' _ Hstale Hlater).
    apply String.eqb_neq in Hk. by rewrite Hk.
Qed.

(** C4. [IsAuth] returns a boolean, never an error and never a panic, and
    leaves the world alone. It is [true] exactly when the HEAD request to
    [w.lapiURL] with the key in [X-Api-Key] can be built and completes
    with status 200: a request that cannot be built, a transport error or
    a timeout, and any other status give [false]. The only request it
    sends is that one, and after [UnmarshalConfig] the URL is the
    credentials' URL followed by [v1/decisions/stream]. *)
Theorem IsAuth_true_iff_status_200 :
  forall apiKey o w,
    let req := mkHttpRequest "HEAD" (lapiURL (self w)) [("X-Api-Key", apiKey)] in
    (exists b evs,
       IsAuth apiKey o w = (Done b, w, evs) /\
       (b = true <-> url_ok (lapiURL (self w)) = true /\ client_Do o req = inr 200) /\
       (url_ok (lapiURL (self w)) = false -> b = false) /\
       (forall err, client_Do o req = inl err -> b = false) /\
       (forall status, client_Do o req = inr status -> status <> 200 -> b = false) /\
       (forall req', In (EvDo req') evs -> req' = req)) /\
    (forall yamlConfig w0 w1,
       UnmarshalConfig yamlConfig w0 = Done (None, w1) ->
       lapiURL w1 = Credentials_URL +:+ "v1/decisions/stream").
Proof.
  intros apiKey o w req. split.
  - exists (probe_answer w o apiKey), (probe_events w o apiKey).
    split; [apply IsAuth_run |].
    unfold probe_answer, probe_request. fold req. change MethodHead with "HEAD". fold req.
    change StatusOK with 200.
    split; [| split; [| split; [| split]]].
    + destruct (url_ok _); simpl; [| intuition congruence].
      destruct (client_Do o req) as [err | st]; [intuition congruence |].
      destruct (Z.eqb_spec st 200); [subst |]; intuition congruence.
    + by intros ->.
    + intros err ->. by rewrite andb_false_r.
    + intros st -> Hne. apply Z.eqb_neq in Hne. rewrite Hne. by rewrite andb_false_r.
    + intros req'. apply probe_events_Do.
  - intros yamlConfig w0 w1 Hok. by apply UnmarshalConfig_success in Hok as (_ & _ & Hurl & _).
Qed.

Lemma passes_auth_dispatch r o w d :
  AuthCacheDuration (config (self w)) = Some d ->
  exists w1 t1,
    authenticate r o w = (Done (passes_auth w o r), w1, t1) /\
    config (self w1) = config (self w) /\
    AppsecReqCounter w1 = AppsecReqCounter w /\
    AppsecBlockCounter w1 = AppsecBlockCounter w /\
    count_events is_Send t1 = 0%nat /\
    count_events is_ReqInc t1 = 0%nat /\
    count_events is_BlockInc t1 = 0%nat.
Proof.
  intros Hd. pose proof (authenticate_frame r o w) as Hframe. cbv zeta in Hframe.
  destruct (authenticate r o w) as [[res w1] t1].
  destruct Hframe as (Hc & _ & Hrc & Hbc & _ & Hres & _ & Hs & Hri & Hbi & _).
  exists w1, t1. rewrite Hd in Hres.
  assert (res = Done (passes_auth w o r)) as ->.
  { rewrite Hres. destruct (passes_auth w o r); [| reflexivity].
    by destruct (cache_fresh _ _ _). }
  auto 10.
Qed.

(** C8. With the cache duration set, as [Configure] leaves it, every
    invocation keeps the [metrics_discipline]: the request counter of a
    request that passes the authentication and parses is one more under
    its labels, right before the send, the block counter is one more
    exactly when the verdict has [InBandInterrupt], and no other value
    of either counter moves. *)
Theorem handler_metrics :
  forall r o w d,
    AuthCacheDuration (config (self w)) = Some d ->
    metrics_discipline r o w.
Proof.
  intros r o w d Hd. unfold metrics_discipline, counters_untouched.
  rewrite appsecHandler_phases. cbv zeta.
  destruct (passes_auth_dispatch r o w d Hd)
    as (w1 & t1 & Hauth & Hc & Hrc & Hbc & Hs & Hri & Hbi).
  rewrite Hauth.
  destruct (passes_auth w o r).
  - destruct (parse o r) as [err | p] eqn:Hp.
    + rewrite (dispatch_parse_error r o w1 err Hp). simpl.
      rewrite !count_events_cons, !count_events_app, Hs, Hri, Hbi. auto.
    + rewrite (dispatch_parsed r o w1 p Hp). cbv zeta. rewrite Hc, Hrc, Hbc.
      set (engine := Name (config (self w))).
      set (p' := set_AppsecEngine engine p).
      set (response := reply o p').
      destruct (answer_events_counts response) as (_ & A2 & A3 & A4 & _).
      simpl AppsecReqCounter. simpl AppsecBlockCounter.
      split; [reflexivity |].
      split; [apply one_more_Inc |].
      split.
      { rewrite !count_events_cons, !count_events_app, Hri, A3.
        by destruct (InBandInterrupt response). }
      split.
      { rewrite !count_events_cons, !count_events_app, Hs, A2.
        by destruct (InBandInterrupt response). }
      split.
      { eexists (_ :: t1 ++ [EvParse r]), _.
        simpl. rewrite <- !app_assoc. simpl. reflexivity. }
      split.
      { right. apply in_or_app. right. simpl. auto. }
      split; [reflexivity |].
      split.
      { destruct (InBandInterrupt response); simpl AppsecBlockCounter;
          [apply one_more_Inc | reflexivity]. }
      rewrite !count_events_cons, !count_events_app, Hbi, A4.
      by destruct (InBandInterrupt response).
  - rewrite app_nil_r.
    assert (Huntouched : AppsecReqCounter w1 = AppsecReqCounter w /\
      AppsecBlockCounter w1 = AppsecBlockCounter w /\
      count_events is_ReqInc
        (EvLog DebugLevel
           ("Received request from '" +:+ RemoteAddr r +:+ "' on " +:+ URL_Path r)
         :: t1) = 0%nat /\
      count_events is_BlockInc
        (EvLog DebugLevel
           ("Received request from '" +:+ RemoteAddr r +:+ "' on " +:+ URL_Path r)
         :: t1) = 0%nat /\
      count_events is_Send
        (EvLog DebugLevel
           ("Received request from '" +:+ RemoteAddr r +:+ "' on " +:+ URL_Path r)
         :: t1) = 0%nat).
    { rewrite !count_events_cons, Hs, Hri, Hbi. auto. }
    by destruct (parse o r).
Qed.

(** C9. With [listen_socket] and [listen_addr] both set and no [name],
    [UnmarshalConfig] returns with an empty [Name], and a handler on a
    source with an empty [Name] stamps every [ParsedRequest] it sends
    with the empty engine name. *)
Theorem socket_and_addr_leave_name_empty :
  forall yamlConfig w c0,
    yaml_UnmarshalStrict yamlConfig (config w) = (None, c0) ->
    ListenSocket c0 <> "" ->
    ListenAddr c0 <> "" ->
    Name c0 = "" ->
    (exists err w',
       UnmarshalConfig yamlConfig w = Done (err, w') /\ Name (config w') = "") /\
    (forall r o wld p,
       Name (config (self wld)) = "" ->
       In (EvSend p) (appsecHandler r o wld).2 ->
       AppsecEngine p = "").
Proof.
  intros yamlConfig w c0 Hyaml Hs Ha Hn. split.
  - rewrite UnmarshalConfig_cases, Hyaml.
    assert (Hs' : String.eqb (ListenAddr c0) "" && String.eqb (ListenSocket c0) "" = false).
    { apply String.eqb_neq in Ha. by rewrite Ha. }
    destruct (String.eqb (AppsecConfig c0) "" && String.eqb (AppsecConfigPath c0) "").
    + do 2 eexists. split; [reflexivity |]. exact Hn.
    + do 2 eexists. split; [reflexivity |].
      apply default_Name_socket_and_addr; simpl; try assumption.
      by rewrite Hs'.
  - intros r o wld p Hname Hin.
    pose proof (appsecHandler_frame r o wld) as Hframe. cbv zeta in Hframe.
    destruct (appsecHandler r o wld) as [[res w'] evs]. simpl in Hin.
    destruct Hframe as (_ & _ & _ & _ & Hengine).
    rewrite <- Hname. by apply Hengine.
Qed.

End HandlerClaims.

(** ** Bulk deletion *)

Module database_properties.
Import database.

Lemma chunks_loop_bounded {A} (size : nat) : (0 < size)%nat ->
  forall (n : nat) (items : list A),
    (length items <= n)%nat ->
    Forall (fun chunk => (length chunk <= size)%nat) (chunks_loop n items size).
Proof.
  intros Hpos. induction n as [| n IH]; intros items Hlen; simpl.
  - repeat constructor. lia.
  - destruct (Nat.ltb_spec size (length items)) as [Hlt | Hge].
    + constructor; [rewrite length_take; lia |].
      apply IH. rewrite length_drop. lia.
    + repeat constructor. lia.
Qed.

(** The chunks are a partition of the items. *)
Lemma chunks_loop_concat {A} (size n : nat) : forall items : list A,
  concat (chunks_loop n items size) = items.
Proof.
  induction n as [| n IH]; intros items; simpl; [apply app_nil_r |].
  destruct (size <? length items)%nat; simpl; [| apply app_nil_r].
  rewrite IH. apply take_drop.
Qed.

(** A batch of exactly [chunkSize] items is its own, single chunk. *)
Lemma Chunks_exact {A} (items : list A) (size : nat) :
  length items = size -> Chunks items size = [items].
Proof.
  intros Hlen. unfold Chunks. destruct (Nat.eqb_spec size 0); [reflexivity |].
  destruct (length items) as [| m] eqn:Hm; [lia |]. simpl.
  rewrite Hm. destruct (Nat.ltb_spec size (S m)); [lia | reflexivity].
Qed.

(** The first chunk of a batch of at least [chunkSize] items has exactly
    [chunkSize] items. *)
Lemma Chunks_first {A} (items : list A) (size : nat) :
  (0 < size <= length items)%nat ->
  exists chunk rest, Chunks items size = chunk :: rest /\ length chunk = size.
Proof.
  intros [Hpos Hlen]. unfold Chunks. destruct (Nat.eqb_spec size 0); [lia |].
  destruct (length items) as [| m] eqn:Hm; [lia |]. simpl. rewrite Hm.
  destruct (Nat.ltb_spec size (S m)).
  - do 2 eexists. split; [reflexivity |]. rewrite length_take. lia.
  - do 2 eexists. split; [reflexivity |]. lia.
Qed.

(** On a batch of exactly [decisionDeleteBulkSize] decisions the test
    [len(decisions) < decisionDeleteBulkSize] fails, the batch is its own
    chunk, and the function calls itself on it: no depth suffices. *)
Lemma DeleteDecisions_full_chunk_diverges :
  forall fuel decisions c,
    length decisions = decisionDeleteBulkSize ->
    DeleteDecisions fuel decisions c = None.
Proof.
  induction fuel as [| fuel IH]; intros decisions c Hlen; simpl; [reflexivity |].
  rewrite Hlen, Nat.ltb_irrefl, (Chunks_exact _ _ Hlen). simpl.
  by rewrite IH.
Qed.

(** So does every batch of [decisionDeleteBulkSize] decisions or more: its
    first chunk is such a batch. *)
Lemma DeleteDecisions_large_batch_diverges :
  forall fuel decisions c,
    (decisionDeleteBulkSize <= length decisions)%nat ->
    DeleteDecisions fuel decisions c = None.
Proof.
  intros [| fuel] decisions c Hlen; simpl; [reflexivity |].
  destruct (Nat.ltb_spec (length decisions) decisionDeleteBulkSize); [lia |].
  destruct (Chunks_first decisions decisionDeleteBulkSize) as (chunk & rest & -> & Hc).
  { unfold decisionDeleteBulkSize in *. lia. }
  simpl. by rewrite DeleteDecisions_full_chunk_diverges.
Qed.

(** A batch below the bulk size is deleted by one statement, and the
    count is the number of rows that left the table. *)
Lemma DeleteDecisions_small_batch :
  forall fuel decisions c,
    (length decisions < decisionDeleteBulkSize)%nat ->
    db_error c = None ->
    exists c',
      DeleteDecisions (S fuel) decisions c =
        Some (Z.of_nat (size (Decisions c)) - Z.of_nat (size (Decisions c')), None, c') /\
      (forall id, Decisions c' !! id =
                  if decide (id ∈ decisionIDs decisions) then None else Decisions c !! id).
Proof.
  intros fuel decisions c Hlen Herr. simpl.
  destruct (Nat.ltb_spec (length decisions) decisionDeleteBulkSize); [| lia].
  unfold Delete_IDIn_Exec. rewrite Herr.
  exists (mkClient (filter (fun kv => kv.1 ∉ decisionIDs decisions) (Decisions c)) None).
  split; [reflexivity |].
  intros id. simpl. rewrite map_lookup_filter.
  destruct (Decisions c !! id) as [u |] eqn:Hid; simpl.
  - destruct (decide (id ∈ decisionIDs decisions)) as [Hin | Hout].
    + rewrite option_guard_False; [reflexivity | simpl; tauto].
    + by rewrite option_guard_True.
  - by destruct (decide _).
Qed.

Lemma for_chunks_returns rec chunks : forall total c,
  Forall (fun chunk => forall c0, exists res, rec chunk c0 = Some res) chunks ->
  exists res, for_chunks rec chunks total c = Some res.
Proof.
  induction chunks as [| chunk chunks IH]; intros total c Hall; simpl; [by eexists |].
  inversion Hall as [| ? ? Hhead Htail]; subst.
  destruct (Hhead c) as ([[rows [err |]] c1] & ->); [by eexists |].
  by apply IH.
Qed.

(** The sibling [ExpireDecisions] tests [len(decisions) <=
    decisionDeleteBulkSize]: every chunk is a base case, and the recursion
    is never deeper than two calls. *)
Lemma ExpireDecisions_returns :
  forall now decisions c, exists res, ExpireDecisions 2 now decisions c = Some res.
Proof.
  intros now decisions c. simpl.
  destruct (Nat.leb_spec (length decisions) decisionDeleteBulkSize) as [Hle | Hgt].
  - destruct (Update_IDIn_SetUntil_Save _ now c) as [[err | rows] c1]; by eexists.
  - apply for_chunks_returns. unfold Chunks. simpl Nat.eqb. cbv iota.
    eapply Forall_impl;
      [apply (chunks_loop_bounded decisionDeleteBulkSize);
         [unfold decisionDeleteBulkSize; lia | reflexivity] |].
    intros chunk Hc c0. simpl in Hc.
    destruct (Nat.leb_spec (length chunk) decisionDeleteBulkSize); [| lia].
    destruct (Update_IDIn_SetUntil_Save _ now c0) as [[err | rows] c1]; by eexists.
Qed.

(** C10. On the batch of 256 decisions with the ids 1 to 256,
    [DeleteDecisions] does not return, whatever depth of recursion is
    allowed and whatever the database holds. *)
Theorem DeleteDecisions_batch_256_never_returns :
  forall fuel c, DeleteDecisions fuel (batch 256) c = None.
Proof.
  intros fuel c. apply DeleteDecisions_full_chunk_diverges.
  unfold batch. by rewrite length_map, length_seq.
Qed.

End database_properties.

(** ** The theorems on concrete runs *)

Module Runs.
Import Samples.
#[local] Existing Instance externals.

(** A request without the API-key header. *)
Lemma missing_key_unauthorized_witness :
  apiKey_of (request_with_key "") = "" /\
  appsecHandler (request_with_key "") (oracle 5 6 (Some 200) false) w0 =
    (Done tt, w0,
     [EvLog DebugLevel "Received request from '10.0.0.1:51234' on /";
      EvLog ErrorLevel "Unauthorized request from '10.0.0.1:51234' (real IP = 192.0.2.7)";
      EvWriteHeader 401]).
Proof.
  split; [reflexivity |].
  destruct (@missing_key_unauthorized externals (request_with_key "")
              (oracle 5 6 (Some 200) false) w0 eq_refl) as [Hrun _].
  exact Hrun.
Defined.

(** The LAPI answers 403 to the probe, twice. *)
Lemma rejected_key_not_cached_witness :
  exists evs,
    appsecHandler r1 (oracle 5 6 (Some 403) false) w0 = (Done tt, w0, evs) /\
    IsAuth_calls evs = 1%nat /\
    IsAuth_calls (appsecHandler r1 (oracle 7 8 (Some 403) false) w0).2 = 1%nat.
Proof.
  destruct (@rejected_key_not_cached externals r1 (oracle 5 6 (Some 403) false) w0)
    as (evs & Hrun & _ & _ & _ & Hcalls & _ & _ & Hagain).
  - vm_compute. discriminate.
  - reflexivity.
  - reflexivity.
  - exists evs. split; [exact Hrun |]. split; [exact Hcalls |].
    apply Hagain; [reflexivity | vm_compute; discriminate].
Defined.

(** A first request at time 0 is probed and stored for one minute; the
    five that follow are served from the cache. The second part is the
    boundary: an entry that expires at 50 ms still serves the request that
    arrives at 50 ms. *)
Lemma cached_key_skips_probe_witness :
  "k1" <> "" /\
  (let '(_, w', evs) := appsecHandler r1 (oracle 0 0 (Some 200) false) w0 in
   IsAuth_calls evs = 1%nat /\
   AuthCache_Get "k1" (authCache (self w')) = (DefaultAuthCacheDuration, true) /\
   served_from_cache "k1" follow_ups (serve follow_ups w').2) /\
  served_from_cache "k1" follow_ups (serve follow_ups (with_cache "k1" 50000000 w0)).2.
Proof.
  assert (Hk : "k1" <> "") by discriminate.
  split; [exact Hk |].
  destruct (@cached_key_skips_probe externals "k1" Hk) as [Hcached Hprobe].
  split.
  - specialize (Hprobe r1 (oracle 0 0 (Some 200) false) w0 DefaultAuthCacheDuration
                  follow_ups eq_refl eq_refl eq_refl eq_refl).
    destruct (appsecHandler r1 (oracle 0 0 (Some 200) false) w0) as [[res w'] evs].
    destruct Hprobe as (Hcalls & _ & Hget & Hserved).
    + unfold within_ttl, follow_ups. simpl map.
      repeat constructor; intros _; vm_compute; discriminate.
    + auto.
  - apply (Hcached 50000000 follow_ups (with_cache "k1" 50000000 w0)).
    + reflexivity.
    + unfold within_ttl, follow_ups. simpl map.
      repeat constructor; intros _; vm_compute; discriminate.
Defined.

(** A request that is probed, parsed and blocked in band: both counters
    go from 0 to 1 under the labels of the request. *)
Lemma handler_metrics_witness :
  AuthCacheDuration (config (self w0)) = Some DefaultAuthCacheDuration /\
  metrics_discipline r1 (oracle 0 0 (Some 200) true) w0 /\
  (let '(_, w', _) := appsecHandler r1 (oracle 0 0 (Some 200) true) w0 in
   value_of ("10.0.0.1", "127.0.0.1:7422/") (AppsecReqCounter w0) = 0%nat /\
   value_of ("10.0.0.1", "127.0.0.1:7422/") (AppsecReqCounter w') = 1%nat /\
   value_of ("10.0.0.1", "127.0.0.1:7422/") (AppsecBlockCounter w') = 1%nat).
Proof.
  split; [reflexivity |].
  pose proof (@handler_metrics externals r1 (oracle 0 0 (Some 200) true) w0
                DefaultAuthCacheDuration eq_refl) as Hm.
  split; [exact Hm |].
  unfold metrics_discipline in Hm.
  destruct (appsecHandler r1 (oracle 0 0 (Some 200) true) w0) as [[res w'] evs].
  cbn in Hm. destruct Hm as (_ & [Hreq _] & _ & _ & _ & _ & _ & [Hblock _] & _).
  split; [reflexivity |]. split; [exact Hreq | exact Hblock].
Defined.

(** A document with both [listen_addr] and [listen_socket]. *)
Lemma socket_and_addr_leave_name_empty_witness :
  exists err w',
    UnmarshalConfig doc_socket_and_addr fresh_source = Done (err, w') /\
    Name (config w') = "".
Proof.
  destruct (@socket_and_addr_leave_name_empty externals doc_socket_and_addr fresh_source
              (mkConfig "127.0.0.1:7422" "/run/crowdsec/appsec.sock" "" "" "" 0
                 "crowdsecurity/appsec-default" "" None "" "" ""))
    as [Hname _].
  - vm_compute. reflexivity.
  - discriminate.
  - discriminate.
  - reflexivity.
  - exact Hname.
Defined.

(** [IsAuth] on the three kinds of answer: 200, another status, none. *)
Example IsAuth_on_answers :
  (IsAuth "k1" (oracle 0 0 (Some 200) false) w0).1 = (Done true, w0) /\
  (IsAuth "k1" (oracle 0 0 (Some 403) false) w0).1 = (Done false, w0) /\
  (IsAuth "k1" (oracle 0 0 None false) w0).1 = (Done false, w0) /\
  (IsAuth "k1" (oracle 0 0 (Some 200) false) w0).2 =
    [EvNewRequest "HEAD" "http://127.0.0.1:8080/v1/decisions/stream";
     EvDo (mkHttpRequest "HEAD" "http://127.0.0.1:8080/v1/decisions/stream"
             [("X-Api-Key", "k1")]);
     EvCloseBody].
Proof. repeat split; reflexivity. Qed.

End Runs.

(* ===================================================================== *)
(** * Further properties of appsec.go *)
(* ===================================================================== *)

Section MoreConfigProperties.
Context `{Externals}.

(** X1. The engine name after a successful [UnmarshalConfig]: a
    configured [name] is kept; without one, a source with no socket is
    named by its address followed by its path, both after defaulting, and
    a source with a socket and no address by the socket. *)
Theorem UnmarshalConfig_engine_name :
  forall (yamlConfig : string) (w w' : AppsecSource),
    UnmarshalConfig yamlConfig w = Done (None, w') ->
    let c0 := (yaml_UnmarshalStrict yamlConfig (config w)).2 in
    (Name c0 <> "" -> Name (config w') = Name c0) /\
    (Name c0 = "" -> ListenSocket c0 = "" ->
       Name (config w') = ListenAddr (config w') +:+ Path (config w')) /\
    (Name c0 = "" -> ListenSocket c0 <> "" -> ListenAddr c0 = "" ->
       Name (config w') = ListenSocket c0 /\ ListenAddr (config w') = "").
Proof.
  intros yamlConfig w w' Hok c0.
  apply UnmarshalConfig_success in Hok as (_ & Hc & _). fold c0 in Hc. rewrite Hc.
  clear Hc. destruct c0 as [la ls cf kf p r ac acp d m n u].
  unfold default_Name, defaulted; simpl. split; [| split].
  - intros Hn. apply String.eqb_neq in Hn. by rewrite Hn.
  - intros -> ->. simpl. rewrite andb_true_r.
    destruct (String.eqb la ""); reflexivity.
  - intros -> Hs ->. apply String.eqb_neq in Hs. simpl. rewrite Hs. simpl.
    by rewrite Hs.
Qed.

(** X2. [UnmarshalConfig] always returns. When it succeeds the source
    starts with a new, empty cache, whatever it held; when it fails the
    URL of the LAPI and the cache are the ones it had. *)
Theorem UnmarshalConfig_resets_cache :
  forall (yamlConfig : string) (w : AppsecSource),
    exists err w',
      UnmarshalConfig yamlConfig w = Done (err, w') /\
      match err with
      | None => forall k, AuthCache_Get k (authCache w') = (0, false)
      | Some _ => lapiURL w' = lapiURL w /\ authCache w' = authCache w
      end.
Proof.
  intros yamlConfig w. rewrite UnmarshalConfig_cases.
  destruct (yaml_UnmarshalStrict yamlConfig (config w)) as [[e |] c0].
  - do 2 eexists. split; [reflexivity |]. simpl. auto.
  - destruct (String.eqb (AppsecConfig c0) "" && String.eqb (AppsecConfigPath c0) "").
    + do 2 eexists. split; [reflexivity |]. simpl. auto.
    + do 2 eexists. split; [reflexivity |]. intros k. reflexivity.
Qed.

End MoreConfigProperties.

Section MoreHandlerProperties.
Context `{Externals}.

Ltac run_go :=
  cbv beta iota delta
    [bind ret emit ask gets modify panic logger_Debugf logger_Errorf rw_WriteHeader
     rw_Write time_Now_check time_Now_set http_NewRequest w_AuthCache_Get
     w_AuthCache_Set AppsecReqCounter_Inc AppsecBlockCounter_Inc set_self
     self AppsecReqCounter AppsecBlockCounter config lapiURL authCache
     fst snd negb].

Lemma written_app t1 t2 : written (t1 ++ t2) = written t1 ++ written t2.
Proof.
  induction t1 as [| e t1 IH]; [reflexivity |].
  destruct e; simpl; by rewrite ?IH.
Qed.

(** The probe and the cache lookup make no call on [rw]. *)
Lemma probe_events_silent apiKey o w : written (probe_events w o apiKey) = [].
Proof.
  unfold probe_events, IsAuth. destruct w as [[c url ac] rc bc].
  run_go. unfold Header_Add; simpl.
  destruct (url_ok url); simpl; [| reflexivity].
  destruct (client_Do o _) as [err | status]; reflexivity.
Qed.

Lemma stale_lookup_silent w o k : written (stale_lookup w o k) = [].
Proof. unfold stale_lookup. destruct (APIKeys _ !! k); reflexivity. Qed.



(** X3. A request whose key is in the cache with an expiration that has
    passed calls the probe once. If the probe approves the key the entry
    is replaced by [now() + auth_cache_duration]; if not, the stale entry
    stays as it is. *)
Theorem expired_entry_is_probed_again :
  forall r o w E d,
    apiKey_of r <> "" ->
    APIKeys (authCache (self w)) !! apiKey_of r = Some E ->
    E < now_check o ->
    AuthCacheDuration (config (self w)) = Some d ->
    let '(_, w', evs) := appsecHandler r o w in
    IsAuth_calls evs = 1%nat /\
    AuthCache_Get (apiKey_of r) (authCache (self w')) =
      (if probe_answer w o (apiKey_of r) then now_set o + d else E, true).
Proof.
  intros r o w E d Hk Hlook Hlate Hd.
  pose proof (appsecHandler_frame r o w) as Hframe. cbv zeta in Hframe.
  destruct (appsecHandler r o w) as [[res w'] evs].
  destruct Hframe as (_ & _ & Hac & Hcalls & _).
  assert (Hstale : cache_fresh w o (apiKey_of r) = false).
  { unfold cache_fresh. rewrite Hlook. apply Z.leb_gt. lia. }
  unfold probes in *. apply String.eqb_neq in Hk. rewrite Hk, Hstale, Hd in *.
  simpl in *. split; [exact Hcalls |]. rewrite Hac.
  destruct (probe_answer w o (apiKey_of r)).
  - apply AuthCache_Get_Set_same.
  - unfold AuthCache_Get. by rewrite Hlook.
Qed.

Lemma probe_request_lapiURL w w1 k :
  lapiURL (self w1) = lapiURL (self w) -> probe_request w1 k = probe_request w k.
Proof. unfold probe_request. by intros ->. Qed.

(** X4. Over any run the cache only grows: an entry is never removed, and
    a key enters it only as the non-empty key of a request of the run
    whose probe was answered with status 200. *)
Theorem cache_only_grows :
  forall reqs w k,
    (is_Some (APIKeys (authCache (self w)) !! k) ->
     is_Some (APIKeys (authCache (self (serve reqs w).1)) !! k)) /\
    (APIKeys (authCache (self w)) !! k = None ->
     is_Some (APIKeys (authCache (self (serve reqs w).1)) !! k) ->
     k <> "" /\
     exists r o, In (r, o) reqs /\ apiKey_of r = k /\
                 url_ok (lapiURL (self w)) = true /\
                 client_Do o (probe_request w k) = inr 200).
Proof.
  induction reqs as [| [r o] reqs IH]; intros w k; simpl.
  { split; [auto |]. intros -> [? ?]. discriminate. }
  pose proof (appsecHandler_frame r o w) as Hframe. cbv zeta in Hframe.
  destruct (appsecHandler r o w) as [[res w1] evs].
  destruct Hframe as (_ & Hurl & Hac & _ & _).
  destruct (IH w1 k) as [IH1 IH2].
  destruct (serve reqs w1) as [w2 evss]. simpl in *.
  assert (Hstep : APIKeys (authCache (self w1)) !! k = APIKeys (authCache (self w)) !! k \/
                  (k = apiKey_of r /\ is_Some (APIKeys (authCache (self w1)) !! k) /\
                   probes w o r = true /\ probe_answer w o (apiKey_of r) = true)).
  { rewrite Hac. destruct (probes w o r) eqn:Hp; [| by left].
    destruct (probe_answer w o (apiKey_of r)) eqn:Ha; [| by left]. simpl.
    destruct (AuthCacheDuration _); [| by left]. simpl.
    destruct (decide (k = apiKey_of r)) as [-> | Hne].
    - right. rewrite lookup_insert_eq. eauto.
    - left. by rewrite lookup_insert_ne. }
  split.
  - intros Hin. apply IH1. destruct Hstep as [-> | (_ & Hs & _)]; assumption.
  - intros Hnone Hfinal.
    destruct Hstep as [Hsame | (-> & _ & Hp & Ha)].
    + rewrite Hnone in Hsame. destruct (IH2 Hsame Hfinal) as (Hk & r' & o' & Hin & Hr & Hu & Hdo).
      split; [exact Hk |]. exists r', o'. rewrite Hurl in Hu.
      rewrite (probe_request_lapiURL w w1 _ Hurl) in Hdo. auto.
    + unfold probes in Hp. apply andb_prop in Hp as [Hk _].
      apply negb_true_iff, String.eqb_neq in Hk. split; [exact Hk |].
      exists r, o. split; [by left |]. split; [reflexivity |].
      unfold probe_answer in Ha. apply andb_prop in Ha as [Hu Hdo].
      split; [exact Hu |].
      destruct (client_Do o _) as [err | st]; [discriminate |].
      apply Z.eqb_eq in Hdo. by rewrite Hdo.
Qed.

(** One invocation moves the counters in one of three ways. *)
Lemma appsecHandler_counters r o w :
  let '(_, w', _) := appsecHandler r o w in
  (AppsecReqCounter w' = AppsecReqCounter w /\
   AppsecBlockCounter w' = AppsecBlockCounter w) \/
  exists labels,
    AppsecReqCounter w' = Inc labels (AppsecReqCounter w) /\
    (AppsecBlockCounter w' = AppsecBlockCounter w \/
     AppsecBlockCounter w' = Inc labels (AppsecBlockCounter w)).
Proof.
  rewrite appsecHandler_phases. cbv zeta.
  pose proof (authenticate_frame r o w) as Hframe. cbv zeta in Hframe.
  destruct (authenticate r o w) as [[res1 w1] t1].
  destruct Hframe as (_ & _ & Hrc & Hbc & _).
  destruct res1 as [[|] | msg]; try (left; by split).
  destruct (parse o r) as [err | p] eqn:Hp.
  - rewrite (dispatch_parse_error r o w1 err Hp). left. by split.
  - rewrite (dispatch_parsed r o w1 p Hp). cbv zeta. right. eexists.
    simpl. rewrite Hrc, Hbc. split; [reflexivity |].
    destruct (InBandInterrupt _); auto.
Qed.

(** X5. Under every label set, over any run: neither counter decreases,
    and if the block counter did not exceed the request counter before,
    it does not after. *)
Theorem blocks_never_exceed_requests :
  forall reqs w labels,
    let w' := (serve reqs w).1 in
    (value_of labels (AppsecReqCounter w) <= value_of labels (AppsecReqCounter w'))%nat /\
    (value_of labels (AppsecBlockCounter w) <= value_of labels (AppsecBlockCounter w'))%nat /\
    ((value_of labels (AppsecBlockCounter w) <= value_of labels (AppsecReqCounter w))%nat ->
     (value_of labels (AppsecBlockCounter w') <= value_of labels (AppsecReqCounter w'))%nat).
Proof.
  induction reqs as [| [r o] reqs IH]; intros w labels; simpl; [lia |].
  pose proof (appsecHandler_counters r o w) as Hstep.
  destruct (appsecHandler r o w) as [[res w1] evs].
  specialize (IH w1 labels). destruct (serve reqs w1) as [w2 evss]. simpl in *.
  destruct Hstep as [[Hrc Hbc] | (l & Hrc & [Hbc | Hbc])];
    rewrite Hrc, Hbc in IH; rewrite ?value_of_Inc in IH;
    [lia | |]; destruct (decide (l = labels)); subst; lia.
Qed.


Lemma probe_events_with_duration d w o k :
  probe_events (with_duration d w) o k = probe_events w o k.
Proof.
  unfold probe_events, IsAuth, with_duration. destruct w as [[c url ac] rc bc].
  run_go. unfold Header_Add; simpl.
  destruct (url_ok url); simpl; [| reflexivity].
  destruct (client_Do o _) as [err | status]; reflexivity.
Qed.

(** X7. The handler reads the cache duration at one place only, when
    it stores a key the probe has just approved. On a source that has
    everything the handler uses except the duration, a state [Configure]
    never leaves and that only a source put together by hand has, the
    handler panics exactly there: the probe was called once, nothing is
    stored and no call on [rw] was made. On every other request the
    missing duration is not seen: result and events are those of the
    same source with a duration, whatever it is, and so is the source
    afterwards. *)
Theorem nil_duration_panics_after_probe :
  forall r o w d,
    AuthCacheDuration (config (self w)) = None ->
    let '(res, w', evs) := appsecHandler r o w in
    if probes w o r && probe_answer w o (apiKey_of r) then
      (exists msg, res = Panicked msg) /\
      w' = w /\ IsAuth_calls evs = 1%nat /\ written evs = []
    else
      appsecHandler r o (with_duration d w) = (res, with_duration d w', evs).
Proof.
  intros r o w d Hd. rewrite !appsecHandler_phases. cbv zeta. unfold probes.
  assert (Hkey : forall v, cache_fresh (with_duration d w) o v = cache_fresh w o v)
    by reflexivity.
  assert (Hans : forall v, probe_answer (with_duration d w) o v = probe_answer w o v)
    by reflexivity.
  assert (Hdisp : forall w1 res w2 t2,
            dispatch r o w1 = (res, w2, t2) ->
            dispatch r o (with_duration d w1) = (res, with_duration d w2, t2)).
  { intros w1 res w2 t2. destruct (parse o r) as [err | p] eqn:Hp.
    - rewrite !(dispatch_parse_error r o _ err Hp). by intros [= <- <- <-].
    - rewrite !(dispatch_parsed r o _ p Hp). cbv zeta. by intros [= <- <- <-]. }
  destruct (String.eqb (apiKey_of r) "") eqn:Ek.
  { apply String.eqb_eq in Ek. rewrite !(authenticate_missing_key r o _ Ek). reflexivity. }
  apply String.eqb_neq in Ek.
  destruct (cache_fresh w o (apiKey_of r)) eqn:Ef.
  { rewrite (authenticate_cached r o w Ek Ef).
    rewrite (authenticate_cached r o (with_duration d w) Ek); [| by rewrite Hkey].
    destruct (dispatch r o w) as [[res w2] t2] eqn:Hrun.
    rewrite (Hdisp _ _ _ _ Hrun). reflexivity. }
  rewrite (authenticate_stale r o w Ek Ef).
  rewrite (authenticate_stale r o (with_duration d w) Ek); [| by rewrite Hkey].
  cbv zeta. rewrite Hd, Hans, probe_events_with_duration.
  change (stale_lookup (with_duration d w) o (apiKey_of r))
    with (stale_lookup w o (apiKey_of r)).
  destruct (probe_answer w o (apiKey_of r)); simpl; [| reflexivity].
  pose proof (probe_events_silent (apiKey_of r) o w) as P1.
  pose proof (stale_lookup_silent w o (apiKey_of r)) as S1.
  destruct (probe_events_counts (apiKey_of r) o w) as (C1 & _).
  destruct (stale_lookup_counts w o (apiKey_of r)) as (C2 & _).
  unfold IsAuth_calls in *.
  split; [by eexists |]. split; [reflexivity |]. split.
  - rewrite count_events_cons, !count_events_app, C1, C2. reflexivity.
  - cbn [written]. rewrite !written_app, P1, S1. reflexivity.
Qed.

End MoreHandlerProperties.

Section ConfigureProperties.
Context `{Externals} `{Loader}.

Lemma default_Name_keeps_duration c :
  AuthCacheDuration (default_Name c) = AuthCacheDuration c /\
  AppsecConfig (default_Name c) = AppsecConfig c /\
  AppsecConfigPath (default_Name c) = AppsecConfigPath c /\
  Mode (default_Name c) = Mode c.
Proof.
  destruct c as [la ls cf kf p r ac acp d m n u]. unfold default_Name; simpl.
  destruct (String.eqb n ""); [| auto].
  destruct (String.eqb ls ""), (String.eqb la ""); simpl;
    try destruct (String.eqb ls ""); auto.
Qed.


Lemma init_runners_error rs : forall count i e,
  (init_runners rs i count).1 = Some e ->
  exists err, e = "unable to initialize runner: " +:+ err.
Proof.
  induction count as [| count IH]; intros i e; simpl; [discriminate |].
  destruct (runner_Init rs i) as [err |]; simpl.
  - intros [= <-]. by eexists.
  - specialize (IH (S i) e). destruct (init_runners rs (S i) count). exact IH.
Qed.

(** The fields [Configure] reads, after [UnmarshalConfig] and the default
    of the cache duration. *)
Lemma Configure_fields c0 (url : string) (ac : AuthCache) :
  let c1 := config (mkSource (default_Name (defaulted c0)) url ac) in
  let c := match AuthCacheDuration c1 with
           | None => set_AuthCacheDuration (Some DefaultAuthCacheDuration) c1
           | Some _ => c1
           end in
  AppsecConfig c = AppsecConfig c0 /\
  AppsecConfigPath c = AppsecConfigPath c0 /\
  Routines c = (if Routines c0 =? 0 then 1 else Routines c0) /\
  AuthCacheDuration c = Some (default DefaultAuthCacheDuration (AuthCacheDuration c0)).
Proof.
  intros c1 c.
  assert (Hc1 : AppsecConfig c1 = AppsecConfig c0 /\
                AppsecConfigPath c1 = AppsecConfigPath c0 /\
                Routines c1 = (if Routines c0 =? 0 then 1 else Routines c0) /\
                AuthCacheDuration c1 = AuthCacheDuration c0).
  { subst c1. simpl.
    destruct (default_Name_keeps_duration (defaulted c0)) as (-> & -> & -> & _).
    destruct (default_Name_other_fields (defaulted c0)) as (_ & _ & _ & ->).
    simpl. auto. }
  destruct Hc1 as (Ha & Hp & Hr & Hd).
  subst c. clearbody c1. rewrite <- Hd.
  destruct (AuthCacheDuration c1) as [z |] eqn:E; simpl; rewrite ?E; auto.
Qed.


(** X9. [Configure] loads the rule set by path whenever
    [appsec_config_path] is set, whatever [appsec_config] is, and by name
    only when there is no path. Whenever it returns, either it holds the
    rule set it was to load, and that load succeeded; or it holds none,
    and then its error is the one of [UnmarshalConfig] or the one of
    that load, which failed. In particular a [Configure] that returns
    no error has loaded the rule set. Its last alternative is dead: it
    never returns ["no appsec_config provided"], since [UnmarshalConfig]
    has rejected a configuration without either field. *)
Theorem Configure_rule_source :
  forall (yamlConfig : string) (w : AppsecSource) (err : option string) (k : Configured),
    Configure yamlConfig w = Done (err, k) ->
    err <> Some "no appsec_config provided" /\
    let c := config (source k) in
    match ruleset k with
    | Some rs =>
        if String.eqb (AppsecConfigPath c) ""
        then rs = ByName (AppsecConfig c) /\ AppsecConfig c <> "" /\
             appsecCfg_Load (AppsecConfig c) = None
        else rs = ByPath (AppsecConfigPath c) /\
             appsecCfg_LoadByPath (AppsecConfigPath c) = None
    | None =>
        exists e,
          err = Some ("unable to parse appsec configuration: " +:+ e) \/
          (err = Some ("unable to load appsec_config: " +:+ e) /\
           if String.eqb (AppsecConfigPath c) ""
           then appsecCfg_Load (AppsecConfig c) = Some e
           else appsecCfg_LoadByPath (AppsecConfigPath c) = Some e)
    end.
Proof.
  intros yamlConfig w err k. unfold Configure.
  rewrite UnmarshalConfig_cases.
  destruct (yaml_UnmarshalStrict yamlConfig (config w)) as [[e |] c0].
  { intros [= <- <-]. split; [discriminate |]. cbn. eexists. left. reflexivity. }
  destruct (String.eqb (AppsecConfig c0) "" && String.eqb (AppsecConfigPath c0) "") eqn:Erule.
  { intros [= <- <-]. split; [discriminate |]. cbn. eexists. left. reflexivity. }
  cbv zeta. cbv beta iota.
  pose proof (Configure_fields c0 (Credentials_URL +:+ "v1/decisions/stream") NewAuthCache)
    as Hfields.
  cbv zeta in Hfields.
  set (c1 := config (mkSource (default_Name (defaulted c0)) _ _)) in *.
  set (c := match AuthCacheDuration c1 with
            | None => set_AuthCacheDuration (Some DefaultAuthCacheDuration) c1
            | Some _ => c1
            end) in *.
  destruct Hfields as (Hac & Hacp & _ & _).
  set (loaded := if negb (String.eqb (AppsecConfigPath c) "") then _ else _).
  assert (Hloaded :
    match loaded with
    | inl e0 =>
        exists e, e0 = "unable to load appsec_config: " +:+ e /\
                  if String.eqb (AppsecConfigPath c) ""
                  then appsecCfg_Load (AppsecConfig c) = Some e
                  else appsecCfg_LoadByPath (AppsecConfigPath c) = Some e
    | inr rs => if String.eqb (AppsecConfigPath c) ""
                then rs = ByName (AppsecConfig c) /\ AppsecConfig c <> "" /\
                     appsecCfg_Load (AppsecConfig c) = None
                else rs = ByPath (AppsecConfigPath c) /\
                     appsecCfg_LoadByPath (AppsecConfigPath c) = None
    end).
  { subst loaded. rewrite Hac, Hacp.
    destruct (String.eqb (AppsecConfigPath c0) "") eqn:Ep; simpl negb; cbv iota.
    - rewrite andb_true_r in Erule. rewrite Erule. simpl negb. cbv iota.
      destruct (appsecCfg_Load (AppsecConfig c0)) eqn:Hl; [by eexists |].
      split; [reflexivity |]. split; [by apply String.eqb_neq | reflexivity].
    - destruct (appsecCfg_LoadByPath (AppsecConfigPath c0)) eqn:Hl; [by eexists |].
      split; reflexivity. }
  destruct loaded as [e0 | rs].
  { intros [= <- <-]. destruct Hloaded as (e & -> & Hfail).
    split; [discriminate |]. cbn. exists e. right. split; [reflexivity | exact Hfail]. }
  destruct (appsecCfg_Build rs).
  { intros [= <- <-]. split; [discriminate | exact Hloaded]. }
  destruct (ProcessOnLoadRules rs).
  { intros [= <- <-]. split; [discriminate | exact Hloaded]. }
  destruct (Routines c <? 0); [discriminate |].
  pose proof (init_runners_error rs (Z.to_nat (Routines c)) 0%nat) as Herr.
  destruct (init_runners rs 0 (Z.to_nat (Routines c))) as [[e |] runners].
  { intros [= <- <-]. split; [| exact Hloaded].
    destruct (Herr e eq_refl) as [x ->]. discriminate. }
  destruct (mux_pattern_ok (Path c)); [| discriminate].
  intros [= <- <-]. split; [discriminate | exact Hloaded].
Qed.

(** X10. [UnmarshalConfig] defaults [routines] only when it is 0: a
    negative number passes it unchanged. [Configure] then panics in
    [make([]AppsecRunner, w.config.Routines)], whether the rule set is
    named by path or by name, once it is loaded, built and its on-load
    rules are processed. *)
Theorem Configure_negative_routines :
  forall (yamlConfig : string) (w : AppsecSource) (c0 : AppsecSourceConfig)
         (rs : RuleSource),
    yaml_UnmarshalStrict yamlConfig (config w) = (None, c0) ->
    Routines c0 < 0 ->
    (AppsecConfigPath c0 <> "" /\ rs = ByPath (AppsecConfigPath c0) /\
     appsecCfg_LoadByPath (AppsecConfigPath c0) = None) \/
    (AppsecConfigPath c0 = "" /\ AppsecConfig c0 <> "" /\ rs = ByName (AppsecConfig c0) /\
     appsecCfg_Load (AppsecConfig c0) = None) ->
    appsecCfg_Build rs = None ->
    ProcessOnLoadRules rs = None ->
    (exists w1, UnmarshalConfig yamlConfig w = Done (None, w1) /\
                Routines (config w1) = Routines c0) /\
    Configure yamlConfig w = Panicked "runtime error: makeslice: len out of range".
Proof.
  intros yamlConfig w c0 rs Hy Hneg Hsource Hbuild Hrules.
  assert (Hnamed : (String.eqb (AppsecConfig c0) "" && String.eqb (AppsecConfigPath c0) "")
                   = false).
  { destruct Hsource as [(Hp & _) | (_ & Hn & _)].
    - apply String.eqb_neq in Hp. rewrite Hp. apply andb_false_r.
    - apply String.eqb_neq in Hn. by rewrite Hn. }
  split.
  { rewrite UnmarshalConfig_cases, Hy, Hnamed. eexists. split; [reflexivity |].
    cbn [config]. destruct (default_Name_other_fields (defaulted c0)) as (_ & _ & _ & ->).
    simpl. destruct (Z.eqb_spec (Routines c0) 0); [lia | reflexivity]. }
  unfold Configure. rewrite UnmarshalConfig_cases, Hy, Hnamed.
  cbv zeta. cbv beta iota.
  pose proof (Configure_fields c0 (Credentials_URL +:+ "v1/decisions/stream") NewAuthCache)
    as Hfields.
  cbv zeta in Hfields.
  set (c1 := config (mkSource (default_Name (defaulted c0)) _ _)) in *.
  set (c := match AuthCacheDuration c1 with
            | None => set_AuthCacheDuration (Some DefaultAuthCacheDuration) c1
            | Some _ => c1
            end) in *.
  destruct Hfields as (-> & -> & Hr & _).
  assert (Hr' : (Routines c <? 0) = true).
  { rewrite Hr. destruct (Z.eqb_spec (Routines c0) 0); [lia |]. by apply Z.ltb_lt. }
  destruct Hsource as [(Hp & -> & Hload) | (Hp & Hn & -> & Hload)].
  - apply String.eqb_neq in Hp. rewrite Hp. simpl negb. cbv iota.
    rewrite Hload, Hbuild, Hrules, Hr'. reflexivity.
  - apply String.eqb_neq in Hn. rewrite Hp, Hn. simpl negb. cbv iota.
    rewrite Hload, Hbuild, Hrules, Hr'. reflexivity.
Qed.

End ConfigureProperties.

(* ===================================================================== *)
(** * Further properties of the decisions file *)
(* ===================================================================== *)

Module more_database_properties.
Import database decisions.



(** The statement behind [ExpireDecisions], on a database that answers. *)
Lemma Update_IDIn_SetUntil_Save_spec ids now c :
  db_error c = None ->
  exists c1,
    Update_IDIn_SetUntil_Save ids now c =
      (inr (Z.of_nat (size (rows_in ids (Decisions c)))), c1) /\
    db_error c1 = None /\
    (forall id, Decisions c1 !! id =
                if decide (id ∈ ids) then (fun _ => now) <$> Decisions c !! id
                else Decisions c !! id).
Proof.
  intros Herr. unfold Update_IDIn_SetUntil_Save. rewrite Herr.
  eexists. split; [reflexivity |]. split; [reflexivity |].
  intros id. simpl. rewrite lookup_union, lookup_fmap, map_lookup_filter. simpl.
  destruct (Decisions c !! id) as [u |] eqn:Hid; simpl.
  - destruct (decide (id ∈ ids)).
    + by rewrite option_guard_True.
    + by rewrite option_guard_False.
  - by destruct (decide (id ∈ ids)).
Qed.

(** A batch that fits in one statement. *)
Lemma ExpireDecisions_base fuel now decisions c :
  (length decisions <= decisionDeleteBulkSize)%nat ->
  ExpireDecisions (S fuel) now decisions c =
    match Update_IDIn_SetUntil_Save (decisionIDs decisions) now c with
    | (inl err, c1) =>
        Some (0, Some ("expire decisions with provided filter: " +:+ err), c1)
    | (inr rows, c1) => Some (rows, None, c1)
    end.
Proof.
  intros Hle. simpl.
  by destruct (Nat.leb_spec (length decisions) decisionDeleteBulkSize); [| lia].
Qed.

(** A batch that does not. *)
Lemma ExpireDecisions_split fuel now decisions c :
  (decisionDeleteBulkSize < length decisions)%nat ->
  ExpireDecisions (S fuel) now decisions c =
    for_chunks (ExpireDecisions fuel now) (Chunks decisions decisionDeleteBulkSize) 0 c.
Proof.
  intros Hgt. simpl.
  by destruct (Nat.leb_spec (length decisions) decisionDeleteBulkSize); [lia |].
Qed.

Lemma decisionIDs_app l1 l2 :
  decisionIDs (l1 ++ l2) = decisionIDs l1 ++ decisionIDs l2.
Proof. apply map_app. Qed.



(** The rows after the chunks, whether or not ids repeat. *)
Lemma expire_chunks_rows now fuel : forall chunks total c,
  db_error c = None ->
  Forall (fun chunk => (length chunk <= decisionDeleteBulkSize)%nat) chunks ->
  exists n c',
    for_chunks (ExpireDecisions (S fuel) now) chunks total c = Some (n, None, c') /\
    db_error c' = None /\
    (forall id, Decisions c' !! id =
                if decide (id ∈ decisionIDs (concat chunks))
                then (fun _ => now) <$> Decisions c !! id
                else Decisions c !! id).
Proof.
  induction chunks as [| chunk chunks IH]; intros total c Herr Hlen.
  - exists total, c. simpl. split; [reflexivity |]. split; [exact Herr |].
    intros id. reflexivity.
  - inversion Hlen as [| ? ? Hhead Htail]; subst.
    simpl concat in *. rewrite decisionIDs_app in *.
    cbn [for_chunks]. rewrite (ExpireDecisions_base _ _ _ _ Hhead).
    destruct (Update_IDIn_SetUntil_Save_spec (decisionIDs chunk) now c Herr)
      as (c1 & -> & Herr1 & Hlook1).
    destruct (IH (total + Z.of_nat (size (rows_in (decisionIDs chunk) (Decisions c)))) c1
                Herr1 Htail) as (n & c' & -> & Herr' & Hlook').
    exists n, c'. split; [reflexivity |]. split; [exact Herr' |].
    intros id. rewrite Hlook', Hlook1.
    repeat case_decide; rewrite ?elem_of_app in *; try tauto;
      by destruct (Decisions c !! id).
Qed.

Lemma ExpireDecisions_rows fuel now decisions c :
  db_error c = None ->
  exists n c',
    ExpireDecisions (S (S fuel)) now decisions c = Some (n, None, c') /\
    (forall id, Decisions c' !! id =
                if decide (id ∈ decisionIDs decisions)
                then (fun _ => now) <$> Decisions c !! id
                else Decisions c !! id).
Proof.
  intros Herr.
  destruct (Nat.leb_spec (length decisions) decisionDeleteBulkSize) as [Hle | Hgt].
  - rewrite (ExpireDecisions_base _ _ _ _ Hle).
    destruct (Update_IDIn_SetUntil_Save_spec (decisionIDs decisions) now c Herr)
      as (c1 & -> & _ & Hlook). by eexists _, c1.
  - rewrite (ExpireDecisions_split _ _ _ _ Hgt).
    unfold Chunks. simpl Nat.eqb. cbv iota.
    pose proof (database_properties.chunks_loop_concat decisionDeleteBulkSize
                  (length decisions) decisions) as Hconcat.
    destruct (expire_chunks_rows now fuel
                (chunks_loop (length decisions) decisions decisionDeleteBulkSize) 0 c Herr)
      as (n & c' & Hrun & _ & Hlook).
    + apply database_properties.chunks_loop_bounded;
        [unfold decisionDeleteBulkSize; lia | reflexivity].
    + rewrite Hconcat in Hlook. by exists n, c'.
Qed.

Lemma ExpireDecisions_fails fuel now decisions c e :
  db_error c = Some e ->
  ExpireDecisions (S (S fuel)) now decisions c =
    Some (0, Some ("expire decisions with provided filter: " +:+ e), c).
Proof.
  intros Herr.
  assert (Hbase : forall f ds, (length ds <= decisionDeleteBulkSize)%nat ->
            ExpireDecisions (S f) now ds c =
              Some (0, Some ("expire decisions with provided filter: " +:+ e), c)).
  { intros f ds Hle. rewrite (ExpireDecisions_base _ _ _ _ Hle).
    unfold Update_IDIn_SetUntil_Save. by rewrite Herr. }
  destruct (Nat.leb_spec (length decisions) decisionDeleteBulkSize) as [Hle | Hgt].
  - by apply Hbase.
  - rewrite (ExpireDecisions_split _ _ _ _ Hgt).
    destruct (database_properties.Chunks_first decisions decisionDeleteBulkSize)
      as (chunk & rest & -> & Hc); [unfold decisionDeleteBulkSize in *; lia |].
    cbn [for_chunks]. rewrite Hbase by lia. reflexivity.
Qed.

(** X12. When the database fails, [ExpireDecisions] returns zero and the
    error of the first statement, wrapped once, and the table is as it
    was, also when the batch is split in chunks. *)
Theorem ExpireDecisions_database_error :
  forall fuel now decisions c e,
    db_error c = Some e ->
    ExpireDecisions (S (S fuel)) now decisions c =
      Some (0, Some ("expire decisions with provided filter: " +:+ e), c).
Proof. intros fuel now decisions c e. apply ExpireDecisions_fails. Qed.

(** X13. [DeleteDecisions] returns exactly on the batches of fewer than
    [decisionDeleteBulkSize] decisions: whatever the database answers and
    whatever depth is allowed, a batch of 256 decisions or more never
    gets its result. *)
Theorem DeleteDecisions_returns_iff_small :
  forall fuel decisions c,
    is_Some (DeleteDecisions (S fuel) decisions c) <->
    (length decisions < decisionDeleteBulkSize)%nat.
Proof.
  intros fuel decisions c. split.
  - intros [res Hres].
    destruct (Nat.ltb_spec (length decisions) decisionDeleteBulkSize) as [Hlt | Hge];
      [exact Hlt |].
    rewrite database_properties.DeleteDecisions_large_batch_diverges in Hres by exact Hge.
    discriminate.
  - intros Hlt. simpl.
    destruct (Nat.ltb_spec (length decisions) decisionDeleteBulkSize); [| lia].
    destruct (Delete_IDIn_Exec _ c) as [[err | rows] c1]; by eexists.
Qed.

(** X14. A batch of fewer than [decisionDeleteBulkSize] decisions is
    deleted by one statement. On a database that answers, the count is
    the number of rows of the table whose id is in the batch, these rows
    are gone and the others are as they were; on one that fails, the
    call returns zero and the wrapped error and the table is as it
    was. *)
Theorem DeleteDecisions_deletes_batch :
  forall fuel decisions c,
    (length decisions < decisionDeleteBulkSize)%nat ->
    match db_error c with
    | None =>
        exists c',
          DeleteDecisions (S fuel) decisions c =
            Some (Z.of_nat (size (rows_in (decisionIDs decisions) (Decisions c))), None, c') /\
          (forall id, Decisions c' !! id =
                      if decide (id ∈ decisionIDs decisions) then None
                      else Decisions c !! id)
    | Some e =>
        DeleteDecisions (S fuel) decisions c =
          Some (0, Some ("hard delete decisions with provided filter: " +:+ e), c)
    end.
Proof.
  intros fuel decisions c Hlen.
  destruct (db_error c) as [e |] eqn:Herr.
  - simpl. destruct (Nat.ltb_spec (length decisions) decisionDeleteBulkSize); [| lia].
    unfold Delete_IDIn_Exec. by rewrite Herr.
  - destruct (database_properties.DeleteDecisions_small_batch fuel decisions c Hlen Herr)
      as (c' & Hrun & Hlook).
    exists c'. split; [| exact Hlook]. rewrite Hrun.
    assert (Hsize : size (Decisions c) =
              (size (rows_in (decisionIDs decisions) (Decisions c)) + size (Decisions c'))%nat).
    { rewrite <- map_size_disj_union.
      - f_equal. apply map_eq. intros id.
        rewrite lookup_union. unfold rows_in. rewrite map_lookup_filter, Hlook. simpl.
        destruct (Decisions c !! id) as [u |]; simpl; case_decide.
        + by rewrite option_guard_True.
        + by rewrite option_guard_False.
        + reflexivity.
        + reflexivity.
      - apply map_disjoint_spec. intros id x y Hx Hy. unfold rows_in in Hx.
        apply map_lookup_filter_Some in Hx as [_ Hx]. simpl in Hx.
        rewrite Hlook in Hy. case_decide; [discriminate | tauto]. }
    do 3 f_equal. lia.
Qed.

End more_database_properties.

(* ===================================================================== *)
(** * Properties of the requests on decisions *)
(* ===================================================================== *)

Module decisions_properties.
Import database decisions.

Lemma rows_in_singleton (id u : Z) (tbl : gmap Z Z) :
  tbl !! id = Some u -> rows_in [id] tbl = {[ id := u ]}.
Proof.
  intros Hid. apply map_eq. intros k. unfold rows_in.
  rewrite map_lookup_filter. simpl.
  destruct (decide (k = id)) as [-> | Hne].
  - rewrite Hid, lookup_singleton_eq. simpl.
    rewrite option_guard_True; [reflexivity | apply list_elem_of_singleton; reflexivity].
  - rewrite lookup_singleton_ne by congruence.
    destruct (tbl !! k); simpl; [| reflexivity].
    rewrite option_guard_False; [reflexivity |].
    rewrite list_elem_of_singleton. exact Hne.
Qed.

(** X15. [ExpireDecisionByID] has three outcomes. When the query
    fails or finds no row it returns zero, no decision and [DeleteFail]
    with the message that the id does not exist, and it sends no update:
    the later return of [ItemNotFound] is never reached. When the query
    finds the row and the update succeeds, that row and no other gets
    the expiration [now], and the call returns the count 1 and the
    decision as it was read. When the query finds the row and the update
    fails, it returns zero together with the decision it read and the
    error of [ExpireDecisions], which is not [DeleteFail]; the table is
    as it was. *)
Theorem ExpireDecisionByID_outcomes :
  forall fuel now select_error decisionID c,
    ExpireDecisionByID (S fuel) now select_error decisionID c =
      match select_error, Decisions c !! decisionID with
      | None, Some u =>
          match db_error c with
          | None =>
              Some (1, [mkDecision decisionID u], None,
                    mkClient (<[decisionID := now]> (Decisions c)) None)
          | Some e =>
              Some (0, [mkDecision decisionID u],
                    Some (Text ("expire decisions with provided filter: " +:+ e)), c)
          end
      | _, _ =>
          Some (0, [],
                Some (Wrapf DeleteFail
                        ("decision with id '" +:+ fmt_d decisionID +:+ "' doesn't exist")), c)
      end.
Proof.
  intros fuel now select_error decisionID c. unfold ExpireDecisionByID, Query_IDEQ_All.
  destruct select_error as [e |]; [reflexivity |].
  destruct (Decisions c !! decisionID) as [u |] eqn:Hid; [| reflexivity].
  cbn [not_nil length Nat.eqb orb].
  cbn [ExpireDecisions length decisionIDs map ID].
  change (1 <=? decisionDeleteBulkSize)%nat with true. cbv iota.
  unfold Update_IDIn_SetUntil_Save.
  destruct (db_error c) as [e |] eqn:Herr; [reflexivity |].
  change (filter (fun kv : Z * Z => kv.1 ∈ [decisionID]) (Decisions c))
    with (rows_in [decisionID] (Decisions c)).
  rewrite (rows_in_singleton _ _ _ Hid).
  rewrite map_size_singleton, map_fmap_singleton. cbn [option_map Z.of_nat Pos.of_succ_nat].
  do 3 f_equal.
  rewrite <- insert_union_singleton_l. reflexivity.
Qed.

Section AddressFilters.
Variable table : list Row.
Variable contains_fold : string -> string -> bool.

Lemma selects_Where p q d :
  selects table contains_fold (Where p q) d =
    selects table contains_fold q d && holds table contains_fold p d.
Proof.
  unfold selects, Where. cbn [predicates].
  rewrite forallb_app. cbn [forallb]. by rewrite andb_true_r.
Qed.

Lemma position_le a1 s1 a2 s2 :
  int64 s1 -> int64 s2 ->
  position a1 s1 <= position a2 s2 <-> a1 < a2 \/ (a1 = a2 /\ s1 <= s2).
Proof. unfold int64, position. lia. Qed.

(** X16. The filter for 16-byte addresses compares 128-bit addresses.
    With the two halves of an address read as one number, the row passes
    the filter with [contains] exactly when it has the size of the range
    and its range encloses the given one, and without [contains] exactly
    when it has the size of the range and lies inside the given one. *)
Theorem decisionIPv6Filter_compares_addresses :
  forall q contains rng d,
    int64 (StartSuffix d) -> int64 (EndSuffix d) ->
    int64 (Sfx (Start rng)) -> int64 (Sfx (End_ rng)) ->
    exists q',
      decisionIPv6Filter q contains rng = (Some q', None) /\
      (selects table contains_fold q' d = true <->
       selects table contains_fold q d = true /\
       IPSize d = Size rng /\
       if contains
       then position (StartIP d) (StartSuffix d)
              <= position (Addr (Start rng)) (Sfx (Start rng)) /\
            position (Addr (End_ rng)) (Sfx (End_ rng))
              <= position (EndIP d) (EndSuffix d)
       else position (Addr (Start rng)) (Sfx (Start rng))
              <= position (StartIP d) (StartSuffix d) /\
            position (EndIP d) (EndSuffix d)
              <= position (Addr (End_ rng)) (Sfx (End_ rng))).
Proof.
  intros q contains rng d Hs He Hrs Hre.
  unfold decisionIPv6Filter.
  destruct contains; eexists; (split; [reflexivity |]);
    rewrite selects_Where, andb_true_iff;
    rewrite !position_le by assumption;
    cbn [holds forallb existsb];
    rewrite ?andb_true_r, ?orb_false_r, !andb_true_iff, !orb_true_iff, !andb_true_iff;
    rewrite ?Z.eqb_eq, ?Z.ltb_lt, ?Z.leb_le; intuition lia.
Qed.

(** X17. The filter for 4-byte addresses reads the first halves only:
    the row passes with [contains] exactly when it has the size of the
    range and its first halves enclose those of the range, and without
    [contains] exactly when they lie inside; the suffixes of the row and
    of the range play no part. *)
Theorem decisionIPv4Filter_compares_first_halves :
  forall q contains rng d,
    exists q',
      decisionIPv4Filter q contains rng = (Some q', None) /\
      (selects table contains_fold q' d = true <->
       selects table contains_fold q d = true /\
       IPSize d = Size rng /\
       if contains
       then StartIP d <= Addr (Start rng) /\ Addr (End_ rng) <= EndIP d
       else Addr (Start rng) <= StartIP d /\ EndIP d <= Addr (End_ rng)).
Proof.
  intros q contains rng d. unfold decisionIPv4Filter.
  destruct contains; eexists; (split; [reflexivity |]);
    rewrite selects_Where, andb_true_iff;
    cbn [holds forallb];
    rewrite ?andb_true_r, !andb_true_iff;
    rewrite ?Z.eqb_eq, ?Z.leb_le; intuition lia.
Qed.

(** X18. [decisionIPFilter] fails exactly on a size other than 0, 4 and
    16, with [InvalidFilter] and no query. On the three sizes it returns
    a query with the limit, the offset and the order it was given; a
    range of size 0, the one of a request without address, adds no
    predicate and selects what the query selected; the other two sizes
    select only rows of that size. *)
Theorem decisionIPFilter_sizes :
  forall q contains rng,
    (Size rng <> 0 /\ Size rng <> 4 /\ Size rng <> 16 /\
     decisionIPFilter q contains rng =
       (None, Some (Wrapf InvalidFilter ("unknown ip size " +:+ fmt_d (Size rng))))) \/
    ((Size rng = 0 \/ Size rng = 4 \/ Size rng = 16) /\
     exists q',
       decisionIPFilter q contains rng = (Some q', None) /\
       limit q' = limit q /\ offset q' = offset q /\ order q' = order q /\
       (Size rng = 0 -> q' = q) /\
       (forall d, selects table contains_fold q' d = true ->
                  selects table contains_fold q d = true /\
                  (Size rng <> 0 -> IPSize d = Size rng))).
Proof.
  intros q contains rng. unfold decisionIPFilter.
  destruct (Z.eqb_spec (Size rng) 4) as [H4 | H4].
  { right. split; [tauto |].
    unfold decisionIPv4Filter.
    destruct contains; eexists; (split; [reflexivity |]);
      do 3 (split; [reflexivity |]); (split; [lia |]);
      intros d; rewrite selects_Where, andb_true_iff; cbn [holds forallb];
      rewrite !andb_true_iff, Z.eqb_eq; tauto. }
  destruct (Z.eqb_spec (Size rng) 16) as [H16 | H16].
  { right. split; [tauto |].
    unfold decisionIPv6Filter.
    destruct contains; eexists; (split; [reflexivity |]);
      do 3 (split; [reflexivity |]); (split; [lia |]);
      intros d; rewrite selects_Where, andb_true_iff; cbn [holds forallb];
      rewrite !andb_true_iff, Z.eqb_eq; tauto. }
  destruct (Z.eqb_spec (Size rng) 0) as [H0 | H0].
  { right. split; [tauto |]. exists q.
    split; [reflexivity |]. do 3 (split; [reflexivity |]).
    split; [reflexivity |]. intros d Hd. split; [exact Hd | tauto]. }
  left. tauto.
Qed.

End AddressFilters.

Lemma Split_not_nil s : Split s <> [].
Proof.
  destruct s as [| ch rest]; cbn [Split]; [discriminate |].
  destruct (Ascii.eqb ch ","); [discriminate |].
  destruct (Split rest); discriminate.
Qed.

Lemma Split_length s : length (Split s) = S (commas s).
Proof.
  induction s as [| ch rest IH]; cbn [Split commas]; [reflexivity |].
  destruct (Ascii.eqb ch ",").
  - cbn [length]. rewrite IH. reflexivity.
  - pose proof (Split_not_nil rest) as Hne.
    destruct (Split rest) as [| word words]; [congruence |].
    cbn [length] in *. rewrite IH. reflexivity.
Qed.

Lemma Split_Join s : Join (Split s) = s.
Proof.
  induction s as [| ch rest IH]; cbn [Split]; [reflexivity |].
  pose proof (Split_not_nil rest) as Hne.
  destruct (Ascii.eqb_spec ch ",") as [-> | Hch].
  - destruct (Split rest) as [| word words]; [congruence |].
    change (Join ("" :: word :: words)) with ("" +:+ "," +:+ Join (word :: words)).
    rewrite IH. reflexivity.
  - destruct (Split rest) as [| word words]; [congruence |].
    destruct words as [| word' words'].
    + cbn [Join] in *. by rewrite IH.
    + change (Join (String ch word :: word' :: words'))
        with (String ch word +:+ "," +:+ Join (word' :: words')).
      change (Join (word :: word' :: words'))
        with (word +:+ "," +:+ Join (word' :: words')) in IH.
      rewrite <- IH. reflexivity.
Qed.

Lemma Split_no_comma s : Forall (fun word => commas word = O) (Split s).
Proof.
  induction s as [| ch rest IH]; cbn [Split].
  - by constructor.
  - destruct (Ascii.eqb ch ",") eqn:Hch.
    + by constructor.
    + pose proof (Split_not_nil rest) as Hne.
      destruct (Split rest) as [| word words]; [congruence |].
      inversion IH as [| ? ? Hword Hwords]; subst.
      constructor; [| exact Hwords]. cbn [commas]. by rewrite Hch.
Qed.

(** X19. [decisionPredicatesFromStr] gives one predicate for each word
    between the commas of the string, in order: the words hold no comma,
    joined by commas they are the string again, and there is one more
    than there are commas. So the list is never empty: the empty string
    gives the one predicate of the empty word. *)
Theorem decisionPredicatesFromStr_words :
  forall s predicateFunc,
    exists words,
      decisionPredicatesFromStr s predicateFunc = map predicateFunc words /\
      Join words = s /\
      Forall (fun word => commas word = O) words /\
      length (decisionPredicatesFromStr s predicateFunc) = S (commas s).
Proof.
  intros s predicateFunc. exists (Split s). unfold decisionPredicatesFromStr.
  split; [reflexivity |]. split; [apply Split_Join |].
  split; [apply Split_no_comma |].
  rewrite length_map. apply Split_length.
Qed.

Section BuildProperties.
Context `{Library}.

Lemma filter_get_cons key k v f :
  filter_get key ((k, v) :: f) = if String.eqb k key then Some v else filter_get key f.
Proof. unfold filter_get. cbn [List.find fst]. by destruct (String.eqb k key). Qed.

Lemma filter_delete_absent key f :
  filter_get key f = None -> filter_delete key f = f.
Proof.
  induction f as [| [k v] f IH]; [reflexivity |].
  rewrite filter_get_cons. unfold filter_delete in *. cbn [List.filter fst].
  destruct (String.eqb k key); [discriminate |]. intros Hf. cbn [negb]. by rewrite IH.
Qed.

Lemma filter_get_delete key f : filter_get key (filter_delete key f) = None.
Proof.
  induction f as [| [k v] f IH]; [reflexivity |].
  unfold filter_delete in *. cbn [List.filter fst].
  destruct (String.eqb k key) eqn:Hk; cbn [negb]; [exact IH |].
  rewrite filter_get_cons, Hk. exact IH.
Qed.

Lemma filter_get_filter (keep : string -> bool) key f :
  keep key = true ->
  filter_get key (List.filter (fun kv => keep (fst kv)) f) = filter_get key f.
Proof.
  intros Hkeep. induction f as [| [k v] f IH]; [reflexivity |].
  cbn [List.filter fst]. rewrite filter_get_cons.
  destruct (String.eqb_spec k key) as [-> | Hne].
  - rewrite Hkeep, filter_get_cons, String.eqb_refl. reflexivity.
  - destruct (keep k); [| exact IH].
    rewrite filter_get_cons. destruct (String.eqb_spec k key); [congruence | exact IH].
Qed.

Lemma filter_delete_filter (keep : string -> bool) key f :
  filter_delete key (List.filter (fun kv => keep (fst kv)) f) =
  List.filter (fun kv => keep (fst kv)) (filter_delete key f).
Proof.
  unfold filter_delete. induction f as [| [k v] f IH]; [reflexivity |].
  cbn [List.filter fst].
  destruct (keep k) eqn:Hk, (String.eqb k key) eqn:Hkey; cbn [List.filter fst negb];
    rewrite ?Hk, ?Hkey; cbn [negb]; rewrite ?IH; reflexivity.
Qed.

Lemma build_case_other_key param value s :
  is_build_key param = false -> build_case param value s = Done (Next s).
Proof.
  unfold is_build_key, build_keys. cbn [existsb]. rewrite !orb_false_iff.
  intros (_ & H1 & H2 & H3 & H4 & H5 & H6 & H7 & H8 & H9 & H10 & H11 & H12 & H13 & _).
  unfold build_case.
  rewrite H1, H2, H3, H4, H5, H6, H7, H8, H9, H10, H11, H12, H13. reflexivity.
Qed.

Lemma range_loop_other_keys f : forall s,
  range_loop build_case (List.filter (fun kv => is_build_key (fst kv)) f) s =
  range_loop build_case f s.
Proof.
  induction f as [| [k v] f IH]; intros s; [reflexivity |].
  cbn [List.filter fst]. destruct (is_build_key k) eqn:Hk.
  - cbn [range_loop]. destruct (build_case k v s) as [[s' | err] | msg]; auto.
  - cbn [range_loop]. rewrite (build_case_other_key k v s Hk). apply IH.
Qed.

(** X20. [BuildDecisionRequestWithFilter] has no [default] case: the
    entries of the map under other keys than the fourteen it reads, such
    as [dedup], change neither the query nor the error, and no panic
    comes from them, whatever their values. *)
Theorem BuildDecisionRequestWithFilter_other_keys :
  forall query filters,
    results (BuildDecisionRequestWithFilter query
               (List.filter (fun kv => is_build_key (fst kv)) filters)) =
    results (BuildDecisionRequestWithFilter query filters).
Proof.
  intros query filters. unfold BuildDecisionRequestWithFilter.
  rewrite filter_get_filter by reflexivity.
  destruct (filter_get "simulated" filters) as [v |].
  - unfold with_value0. destruct (index0 v) as [v0 | msg]; [| reflexivity].
    rewrite filter_delete_filter, range_loop_other_keys.
    destruct (range_loop build_case _ _) as [[s | err] | msg]; try reflexivity.
    destruct (decisionIPFilter _ _ _) as [q' [err |]]; reflexivity.
  - rewrite range_loop_other_keys.
    destruct (range_loop build_case _ _) as [[s | err] | msg]; try reflexivity.
    destruct (decisionIPFilter _ _ _) as [q' [err |]]; reflexivity.
Qed.

(** X21. [BuildDecisionRequestWithFilter] changes the map of its
    caller: whenever it returns, with a query or with an error, the key
    [simulated] is gone from the map and the other entries are as they
    were. *)
Theorem BuildDecisionRequestWithFilter_deletes_simulated :
  forall query filters r filters',
    BuildDecisionRequestWithFilter query filters = Done (r, filters') ->
    filters' = filter_delete "simulated" filters /\
    filter_get "simulated" filters' = None.
Proof.
  intros query filters r filters' Hrun.
  assert (Hf : filters' = filter_delete "simulated" filters).
  { unfold BuildDecisionRequestWithFilter in Hrun.
    destruct (filter_get "simulated" filters) as [v |] eqn:Hsim.
    - unfold with_value0 in Hrun. destruct (index0 v) as [v0 | msg]; [| discriminate].
      destruct (range_loop build_case _ _) as [[s | err] | msg]; try congruence.
      destruct (decisionIPFilter _ _ _) as [q' [err |]]; congruence.
    - rewrite (filter_delete_absent _ _ Hsim).
      destruct (range_loop build_case _ _) as [[s | err] | msg]; try congruence.
      destruct (decisionIPFilter _ _ _) as [q' [err |]]; congruence. }
  split; [exact Hf |]. rewrite Hf. apply filter_get_delete.
Qed.

Lemma build_case_adds param value s s' :
  build_case param value s = Done (Next s') ->
  exists tail,
    predicates (st_query s') = predicates (st_query s) ++ tail /\
    Forall (fun p => forall b, p <> SimulatedEQ b) tail.
Proof.
  intros Hc. unfold build_case, with_value0 in Hc.
  repeat match type of Hc with
         | context [if ?b then _ else _] => destruct b
         end;
    try (destruct (index0 value); [| discriminate]);
    repeat match type of Hc with
           | context [match ?x with _ => _ end] => destruct x
           end;
    try discriminate; injection Hc as <-; cbn [st_query predicates Where Limit Offset];
    first [ by (exists []; rewrite app_nil_r; split; [reflexivity | constructor])
          | by (eexists [_]; split; [reflexivity |];
                constructor; [intros b; discriminate | constructor]) ].
Qed.

Lemma range_loop_adds f : forall s s',
  range_loop build_case f s = Done (Next s') ->
  exists tail,
    predicates (st_query s') = predicates (st_query s) ++ tail /\
    Forall (fun p => forall b, p <> SimulatedEQ b) tail.
Proof.
  induction f as [| [k v] f IH]; intros s s' Hrun; cbn [range_loop] in Hrun.
  - injection Hrun as <-. exists []. rewrite app_nil_r. split; [reflexivity | constructor].
  - destruct (build_case k v s) as [[s1 | err] | msg] eqn:Hcase; try discriminate.
    destruct (build_case_adds _ _ _ _ Hcase) as (t1 & Hp1 & Ht1).
    destruct (IH _ _ Hrun) as (t2 & Hp2 & Ht2).
    exists (t1 ++ t2). rewrite Hp2, Hp1, app_assoc. split; [reflexivity |].
    apply Forall_app. split; assumption.
Qed.

Lemma decisionIPFilter_adds q contains rng q' :
  decisionIPFilter q contains rng = (Some q', None) ->
  exists tail,
    predicates q' = predicates q ++ tail /\
    Forall (fun p => forall b, p <> SimulatedEQ b) tail.
Proof.
  unfold decisionIPFilter, decisionIPv4Filter, decisionIPv6Filter.
  repeat match goal with
         | |- context [if ?b then _ else _] => destruct b
         end;
    intros Hq; try discriminate; injection Hq as <-; cbn [predicates Where];
    first [ by (exists []; rewrite app_nil_r; split; [reflexivity | constructor])
          | by (eexists [_]; split; [reflexivity |];
                constructor; [intros b; discriminate | constructor]) ].
Qed.

(** X22. A request hides the simulated decisions unless it asks for
    them. When [BuildDecisionRequestWithFilter] returns a query, the
    first predicate it added is [SimulatedEQ(false)] if the map has no
    key [simulated] or has the value [false] under it; with any other
    value under that key no predicate on the simulated flag is added at
    all. *)
Theorem BuildDecisionRequestWithFilter_simulated :
  forall query filters q' filters',
    BuildDecisionRequestWithFilter query filters = Done ((Some q', None), filters') ->
    exists tail,
      predicates q' =
        predicates query ++
        match filter_get "simulated" filters with
        | Some (v :: _) => if String.eqb v "false" then [SimulatedEQ false] else []
        | _ => [SimulatedEQ false]
        end ++ tail /\
      Forall (fun p => forall b, p <> SimulatedEQ b) tail.
Proof.
  intros query filters q' filters' Hrun.
  unfold BuildDecisionRequestWithFilter in Hrun.
  assert (Hrest : forall q0 f0,
            match range_loop build_case f0 (mkLoop q0 true zero_Range) with
            | Panicked msg => Panicked msg
            | Done (Return err) => Done ((None, Some err), f0)
            | Done (Next s) =>
                match decisionIPFilter (st_query s) (st_contains s) (st_rng s) with
                | (_, Some err) =>
                    Done ((None, Some (Errorf "fail to apply StartIpEndIpFilter: " err)), f0)
                | (query, None) => Done ((query, None), f0)
                end
            end = Done ((Some q', None), filters') ->
            exists tail, predicates q' = predicates q0 ++ tail /\
                         Forall (fun p => forall b, p <> SimulatedEQ b) tail).
  { intros q0 f0 Hr.
    destruct (range_loop build_case f0 _) as [[s | err] | msg] eqn:Hloop; try discriminate.
    destruct (decisionIPFilter _ _ _) as [q1 [err |]] eqn:Hip; try discriminate.
    injection Hr as -> _.
    destruct (range_loop_adds _ _ _ Hloop) as (t1 & Hp1 & Ht1).
    destruct (decisionIPFilter_adds _ _ _ _ Hip) as (t2 & Hp2 & Ht2).
    exists (t1 ++ t2). rewrite Hp2, Hp1, app_assoc. split; [reflexivity |].
    apply Forall_app. split; assumption. }
  destruct (filter_get "simulated" filters) as [[| v vs] |].
  - discriminate.
  - cbn [with_value0 index0] in Hrun.
    destruct (Hrest _ _ Hrun) as (tail & Hp & Ht). exists tail. split; [| exact Ht].
    rewrite Hp. destruct (String.eqb v "false"); cbn [predicates Where];
      by rewrite <- ?app_assoc.
  - destruct (Hrest _ _ Hrun) as (tail & Hp & Ht). exists tail. split; [| exact Ht].
    rewrite Hp. cbn [predicates Where]. by rewrite <- app_assoc.
Qed.

Lemma build_case_control param value s1 s2 :
  st_contains s1 = st_contains s2 -> st_rng s1 = st_rng s2 ->
  same_control (build_case param value s1) (build_case param value s2).
Proof.
  intros Hc Hr. unfold build_case, with_value0.
  repeat match goal with
         | |- context [if ?b then _ else _] => destruct b
         end;
    try (destruct (index0 value); [| reflexivity]);
    repeat match goal with
           | |- context [match ?x with _ => _ end] => destruct x
           end;
    cbn [same_control st_contains st_rng]; auto.
Qed.

Lemma range_loop_control f : forall s1 s2,
  st_contains s1 = st_contains s2 -> st_rng s1 = st_rng s2 ->
  same_control (range_loop build_case f s1) (range_loop build_case f s2).
Proof.
  induction f as [| [k v] f IH]; intros s1 s2 Hc Hr; cbn [range_loop].
  - cbn [same_control]. auto.
  - pose proof (build_case_control k v s1 s2 Hc Hr) as Hstep.
    destruct (build_case k v s1) as [[t1 | e1] | m1],
             (build_case k v s2) as [[t2 | e2] | m2];
      cbn [same_control] in Hstep; try contradiction.
    + destruct Hstep. by apply IH.
    + exact Hstep.
    + exact Hstep.
Qed.

Lemma decisionIPFilter_error q1 q2 contains rng e :
  snd (decisionIPFilter q1 contains rng) = Some e ->
  decisionIPFilter q1 contains rng = (None, Some e) /\
  decisionIPFilter q2 contains rng = (None, Some e).
Proof.
  unfold decisionIPFilter, decisionIPv4Filter, decisionIPv6Filter.
  repeat match goal with
         | |- context [if ?b then _ else _] => destruct b
         end; cbn [snd]; intros He; try discriminate.
  injection He as <-. split; reflexivity.
Qed.

(** A failing call returns no query, and fails the same way on every
    other query. *)
Lemma BuildDecisionRequestWithFilter_error q1 filters oq e filters' :
  BuildDecisionRequestWithFilter q1 filters = Done ((oq, Some e), filters') ->
  oq = None /\
  forall q2, BuildDecisionRequestWithFilter q2 filters = Done ((None, Some e), filters').
Proof.
  intros Hrun. unfold BuildDecisionRequestWithFilter in *.
  assert (Hrest : forall q0 f0,
            match range_loop build_case f0 (mkLoop q0 true zero_Range) with
            | Panicked msg => Panicked msg
            | Done (Return err) => Done ((None, Some err), f0)
            | Done (Next s) =>
                match decisionIPFilter (st_query s) (st_contains s) (st_rng s) with
                | (_, Some err) =>
                    Done ((None, Some (Errorf "fail to apply StartIpEndIpFilter: " err)), f0)
                | (query, None) => Done ((query, None), f0)
                end
            end = Done ((oq, Some e), filters') ->
            oq = None /\
            forall q2,
              match range_loop build_case f0 (mkLoop q2 true zero_Range) with
              | Panicked msg => Panicked msg
              | Done (Return err) => Done ((None, Some err), f0)
              | Done (Next s) =>
                  match decisionIPFilter (st_query s) (st_contains s) (st_rng s) with
                  | (_, Some err) =>
                      Done ((None, Some (Errorf "fail to apply StartIpEndIpFilter: " err)), f0)
                  | (query, None) => Done ((query, None), f0)
                  end
              end = Done ((None, Some e), filters')).
  { intros q0 f0 Hr.
    assert (Hctl : forall q2, same_control
              (range_loop build_case f0 (mkLoop q0 true zero_Range))
              (range_loop build_case f0 (mkLoop q2 true zero_Range))).
    { intros q2. apply range_loop_control; reflexivity. }
    destruct (range_loop build_case f0 (mkLoop q0 true zero_Range))
      as [[s | err] | msg] eqn:Hloop; try discriminate.
    - destruct (decisionIPFilter (st_query s) _ _) as [q1' [err |]] eqn:Hip;
        try discriminate.
      injection Hr as <- <- <-. split; [reflexivity |]. intros q2.
      specialize (Hctl q2).
      destruct (range_loop build_case f0 (mkLoop q2 true zero_Range))
        as [[s2 | err2] | msg2]; cbn [same_control] in Hctl; try contradiction.
      destruct Hctl as [<- <-].
      destruct (decisionIPFilter_error (st_query s) (st_query s2)
                  (st_contains s) (st_rng s) err) as [_ ->];
        [by rewrite Hip | reflexivity].
    - injection Hr as <- <- <-. split; [reflexivity |]. intros q2.
      specialize (Hctl q2).
      destruct (range_loop build_case f0 (mkLoop q2 true zero_Range))
        as [[s2 | err2] | msg2]; cbn [same_control] in Hctl; try contradiction.
      by subst. }
  destruct (filter_get "simulated" filters) as [[| v vs] |].
  - discriminate.
  - cbn [with_value0 index0] in *.
    destruct (Hrest _ _ Hrun) as [Hq Hall]. split; [exact Hq |].
    intros q2. apply Hall.
  - destruct (Hrest _ _ Hrun) as [Hq Hall]. split; [exact Hq |].
    intros q2. apply Hall.
Qed.

(** X23. With both [ip] and [range] in the map, the address filter is
    the one of the key the [range] loop visits last, so the query depends
    on the order in which Go walks the map: each of the two orders of
    the same two entries filters on the range that order reads second,
    and the other range leaves no trace. *)
Theorem ip_and_range_last_visited_wins :
  forall query a b ra rb,
    NewRange a = inr ra ->
    NewRange b = inr rb ->
    let built r :=
      match decisionIPFilter (Where (SimulatedEQ false) query) true r with
      | (_, Some err) =>
          Done (None, Some (Errorf "fail to apply StartIpEndIpFilter: " err))
      | (q', None) => Done (q', None)
      end in
    results (BuildDecisionRequestWithFilter query [("ip", [a]); ("range", [b])]) = built rb /\
    results (BuildDecisionRequestWithFilter query [("range", [b]); ("ip", [a])]) = built ra.
Proof.
  intros query a b ra rb Ha Hb built. subst built.
  unfold BuildDecisionRequestWithFilter.
  cbn [filter_get List.find fst snd String.eqb Ascii.eqb Bool.eqb].
  cbn [range_loop build_case with_value0 index0 String.eqb Ascii.eqb Bool.eqb orb].
  rewrite Ha, Hb. cbn [st_query st_contains st_rng].
  split.
  - destruct (decisionIPFilter _ true rb) as [q' [err |]]; reflexivity.
  - destruct (decisionIPFilter _ true ra) as [q' [err |]]; reflexivity.
Qed.

End BuildProperties.

Section QueryProperties.
Context `{Library} {Counts : Type}.
Variable All : DecisionQuery -> Client -> string + list Row.
Variable Scan_counts : DecisionQuery -> Client -> string + Counts.
Variable Scan_selected : DecisionQuery -> Client -> string + list Row.

Lemma dedup_returns filters query :
  filter_get "dedup" filters <> Some [] ->
  exists query', dedup filters query = Done query'.
Proof.
  intros Hd. unfold dedup.
  destruct (filter_get "dedup" filters) as [[| v vs] |]; [congruence | |]; by eexists.
Qed.

(** X24. A map that [BuildDecisionRequestWithFilter] refuses is handled
    in four ways by the functions that query with it.
    [QueryAllDecisionsWithFilters] and
    [QueryExpiredDecisionsSinceWithFilters] return no decision and
    [QueryFail] with their message; [QueryDecisionWithFilter] returns the
    error of the builder itself; [QueryNewDecisionsSinceWithFilters]
    returns [QueryFail] when it has a [since] and panics on a nil one,
    whose [String] it calls for the message; and
    [QueryExpiredDecisionsWithFilters], which orders the nil query before
    it looks at the error, panics. *)
Theorem invalid_filter_in_queries :
  forall now since filters c query oq e filters',
    BuildDecisionRequestWithFilter query filters = Done ((oq, Some e), filters') ->
    filter_get "dedup" filters <> Some [] ->
    QueryAllDecisionsWithFilters All now filters c =
      Done (([], Some (Wrapf QueryFail "get all decisions with filters")), filters') /\
    QueryExpiredDecisionsSinceWithFilters All now since filters c =
      Done (([], Some (Wrapf QueryFail "expired decisions with filters")), filters') /\
    QueryDecisionWithFilter Scan_selected now filters c = Done (([], Some e), filters') /\
    QueryNewDecisionsSinceWithFilters All now since filters c =
      match since with
      | Some t =>
          Done (([], Some (Wrapf QueryFail
                             ("new decisions since '" +:+ time_String t +:+ "'"))), filters')
      | None => Panicked nil_dereference
      end /\
    QueryExpiredDecisionsWithFilters All now filters c = Panicked nil_dereference.
Proof.
  intros now since filters c query oq e filters' Hbuild Hdedup.
  destruct (BuildDecisionRequestWithFilter_error _ _ _ _ _ Hbuild) as [_ Hany].
  unfold QueryAllDecisionsWithFilters, QueryExpiredDecisionsSinceWithFilters,
    QueryDecisionWithFilter, QueryNewDecisionsSinceWithFilters,
    QueryExpiredDecisionsWithFilters.
  split; [| split; [| split; [| split]]].
  - destruct (dedup_returns filters (Where (UntilGT now) Query) Hdedup) as [q ->].
    by rewrite Hany.
  - destruct (dedup_returns filters
                match since with
                | Some t => Where (UntilGT t) (Where (UntilLT now) Query)
                | None => Where (UntilLT now) Query
                end Hdedup) as [q Hq].
    cbv zeta. rewrite Hq. by rewrite Hany.
  - by rewrite Hany.
  - destruct (dedup_returns filters
                match since with
                | Some t => Where (CreatedAtGT t) (Where (UntilGT now) Query)
                | None => Where (UntilGT now) Query
                end Hdedup) as [q Hq].
    cbv zeta. rewrite Hq. rewrite Hany.
    unfold new_decisions_error, since_String. by destruct since.
  - destruct (dedup_returns filters (Where (UntilLT now) Query) Hdedup) as [q ->].
    by rewrite Hany.
Qed.

(** X25. Without a [since], [QueryNewDecisionsSinceWithFilters] cannot
    report an error: it returns decisions and no error, or it panics, on
    the nil [since] when the builder or the database fails. *)
Theorem QueryNewDecisionsSinceWithFilters_nil_since :
  forall now filters c,
    (exists data filters',
       QueryNewDecisionsSinceWithFilters All now None filters c =
         Done ((data, None), filters')) \/
    (exists msg,
       QueryNewDecisionsSinceWithFilters All now None filters c = Panicked msg).
Proof.
  intros now filters c. unfold QueryNewDecisionsSinceWithFilters.
  destruct (dedup filters _) as [q | msg]; [| right; by eexists].
  destruct (BuildDecisionRequestWithFilter q filters)
    as [[[oq [e |]] f'] | msg]; try (right; by eexists).
  destruct (Order_on Asc_FieldID oq) as [q1 | msg]; [| right; by eexists].
  destruct (All q1 c) as [err | data]; [right; by eexists | left; do 2 eexists; reflexivity].
Qed.

Lemma expire_case_other_key param value s :
  is_expire_key param = false ->
  expire_case param value s =
    Done (Return (Wrapf InvalidFilter ("'" +:+ param +:+ "' doesn't exist"))).
Proof.
  unfold is_expire_key, expire_keys. cbn [existsb]. rewrite !orb_false_iff.
  intros (H1 & H2 & H3 & H4 & H5 & H6 & H7 & H8 & H9 & _).
  unfold expire_case.
  rewrite H1, H2, H3, H4, H5, H6, H7, H8, H9. reflexivity.
Qed.

Lemma expire_case_returns param value s err :
  expire_case param value s = Done (Return err) ->
  exists cause msg, err = Wrapf cause msg /\
                    (cause = InvalidFilter \/ cause = InvalidIPOrRange).
Proof.
  intros Hc. unfold expire_case, with_value0 in Hc.
  repeat match type of Hc with
         | context [if ?b then _ else _] => destruct b
         end;
    try (destruct (index0 value); [| discriminate]);
    repeat match type of Hc with
           | context [match ?x with _ => _ end] => destruct x
           end;
    try discriminate; injection Hc as <-; eauto.
Qed.

Lemma expire_loop_refuses key value f : forall s,
  In (key, value) f -> is_expire_key key = false ->
  (exists cause msg,
     range_loop expire_case f s = Done (Return (Wrapf cause msg)) /\
     (cause = InvalidFilter \/ cause = InvalidIPOrRange)) \/
  (exists msg, range_loop expire_case f s = Panicked msg).
Proof.
  induction f as [| [k v] f IH]; intros s Hin Hkey; [destruct Hin |].
  cbn [range_loop].
  destruct (expire_case k v s) as [[s1 | err] | msg] eqn:Hcase.
  - destruct Hin as [Heq | Hin].
    + injection Heq as -> ->. rewrite expire_case_other_key in Hcase by exact Hkey.
      discriminate.
    + by apply IH.
  - left. destruct (expire_case_returns _ _ _ _ Hcase) as (cause & msg & -> & Hcause).
    by exists cause, msg.
  - right. by eexists.
Qed.

(** X26. [ExpireDecisionsWithFilter] refuses what the builder of the
    queries lets pass. If the map has a key other than the nine of its
    [switch], the call ends before any statement is sent, at every
    depth allowed: it returns zero, no decision and an error on
    [InvalidFilter] or [InvalidIPOrRange], with the database as it was,
    unless an entry without value made it panic. *)
Theorem ExpireDecisionsWithFilter_refuses_other_keys :
  forall fuel now filters c key value,
    In (key, value) filters ->
    is_expire_key key = false ->
    (exists cause msg,
       ExpireDecisionsWithFilter All fuel now filters c =
         Some (Done (0, [], Some (Wrapf cause msg), c)) /\
       (cause = InvalidFilter \/ cause = InvalidIPOrRange)) \/
    (exists msg, ExpireDecisionsWithFilter All fuel now filters c = Some (Panicked msg)).
Proof.
  intros fuel now filters c key value Hin Hkey. unfold ExpireDecisionsWithFilter.
  destruct (expire_loop_refuses key value filters
              (mkLoop (Where (UntilGT now) Query) true zero_Range) Hin Hkey)
    as [(cause & msg & -> & Hcause) | (msg & ->)].
  - left. by exists cause, msg.
  - right. by eexists.
Qed.

(** X27. When [ExpireDecisionsWithFilter] returns without error, the
    decisions it returns are the ones it expired: every row of the table
    whose id is among them has the expiration [now], and every other row
    is as it was. *)
Theorem ExpireDecisionsWithFilter_expires_what_it_returns :
  forall fuel now filters c count decisions_ c',
    ExpireDecisionsWithFilter All (S (S fuel)) now filters c =
      Some (Done (count, decisions_, None, c')) ->
    forall id, Decisions c' !! id =
               if decide (id ∈ map row_ID decisions_)
               then (fun _ => now) <$> Decisions c !! id
               else Decisions c !! id.
Proof.
  intros fuel now filters c count decisions_ c' Hrun.
  unfold ExpireDecisionsWithFilter in Hrun.
  destruct (range_loop expire_case filters _) as [[s | err] | msg]; try discriminate.
  destruct (decisionIPFilter _ _ _) as [[q |] [err |]]; try discriminate.
  destruct (All q c) as [err | rows]; [discriminate |].
  destruct (db_error c) as [e |] eqn:Herr.
  - rewrite (more_database_properties.ExpireDecisions_fails _ _ _ _ _ Herr) in Hrun.
    discriminate.
  - destruct (more_database_properties.ExpireDecisions_rows fuel now
                (map to_Decision rows) c Herr) as (n & c1 & Hexp & Hlook).
    rewrite Hexp in Hrun. injection Hrun as <- <- <-.
    intros id. rewrite Hlook.
    replace (decisionIDs (map to_Decision rows)) with (map row_ID rows);
      [reflexivity |].
    unfold decisionIDs. rewrite map_map. reflexivity.
Qed.

(** X28. [QueryDecisionCountByScenario] builds its query from an empty
    map, on which the builder cannot fail: the first of its two error
    returns is never taken. The statement it sends asks for the
    decisions that last beyond [now] and are not simulated, and the
    error it can return is the one of that statement. *)
Theorem QueryDecisionCountByScenario_query :
  forall now c,
    QueryDecisionCountByScenario Scan_counts now c =
      match Scan_counts (mkQuery [UntilGT now; SimulatedEQ false] None None []) c with
      | inl _ => Done (None, Some (Wrapf QueryFail "count all decisions with filters"))
      | inr r => Done (Some r, None)
      end.
Proof. intros now c. reflexivity. Qed.

End QueryProperties.

End decisions_properties.

(* ===================================================================== *)
(** * The further properties on sample inputs *)
(* ===================================================================== *)

Module MoreRuns.
Import Samples MoreSamples database decisions.
#[local] Existing Instance externals.
#[local] Existing Instance loader.
#[local] Existing Instance library.

(** A document without [name] and without socket. *)
Lemma UnmarshalConfig_engine_name_witness :
  let w' := mkSource
      (mkConfig "0.0.0.0:4242" "" "" "" "/appsec" 1 ""
         "/etc/crowdsec/appsec-configs/mine.yaml" None "tail" "0.0.0.0:4242/appsec" "")
      "http://127.0.0.1:8080/v1/decisions/stream" NewAuthCache in
  UnmarshalConfig doc_relative_path fresh_source = Done (None, w') /\
  Name (config w') = ListenAddr (config w') +:+ Path (config w').
Proof.
  intros w'.
  assert (Hrun : UnmarshalConfig doc_relative_path fresh_source = Done (None, w'))
    by (vm_compute; reflexivity).
  split; [exact Hrun |].
  pose proof (@UnmarshalConfig_engine_name externals _ _ _ Hrun) as Hname.
  cbv zeta in Hname. destruct Hname as (_ & Hname & _).
  apply Hname; reflexivity.
Defined.

(** The key [k1] with an entry that expired at 10, asked for at 20. *)
Lemma expired_entry_is_probed_again_witness :
  let '(_, w', evs) :=
    appsecHandler r1 (oracle 20 21 (Some 200) false) (with_cache "k1" 10 w0) in
  IsAuth_calls evs = 1%nat /\
  AuthCache_Get "k1" (authCache (self w')) = (21 + DefaultAuthCacheDuration, true).
Proof.
  exact (@expired_entry_is_probed_again externals r1 (oracle 20 21 (Some 200) false)
           (with_cache "k1" 10 w0) 10 DefaultAuthCacheDuration
           ltac:(vm_compute; discriminate) eq_refl eq_refl eq_refl).
Defined.


(** The same request on a source without cache duration, and a request
    without key on it. *)
Lemma nil_duration_panics_after_probe_witness :
  (let '(res, w', evs) :=
     appsecHandler r1 (oracle 0 0 (Some 200) true) without_duration in
   (exists msg, res = Panicked msg) /\
   w' = without_duration /\ IsAuth_calls evs = 1%nat /\ written evs = []) /\
  (let '(res, w', evs) :=
     appsecHandler (request_with_key "") (oracle 0 0 (Some 200) true) without_duration in
   appsecHandler (request_with_key "") (oracle 0 0 (Some 200) true)
     (with_duration 5 without_duration) = (res, with_duration 5 w', evs)).
Proof.
  split.
  - exact (@nil_duration_panics_after_probe externals r1 (oracle 0 0 (Some 200) true)
             without_duration 5 eq_refl).
  - exact (@nil_duration_panics_after_probe externals (request_with_key "")
             (oracle 0 0 (Some 200) true) without_duration 5 eq_refl).
Defined.


(** A document with both a name and a path of the rule set, and one
    that names a rule set the hub does not have. *)
Lemma Configure_rule_source_witness :
  (exists k,
     Configure doc_named fresh_source = Done (None, k) /\
     ruleset k = Some (ByPath "/etc/crowdsec/appsec-configs/mine.yaml")) /\
  (exists k,
     Configure doc_unknown_name fresh_source =
       Done (Some "unable to load appsec_config: no appsec-config found for mine", k) /\
     ruleset k = None).
Proof.
  split.
  - eexists. split; [vm_compute; reflexivity |].
    match goal with
    | |- ruleset ?k = _ =>
        pose proof (@Configure_rule_source externals loader doc_named fresh_source None k
                      ltac:(vm_compute; reflexivity)) as Hk
    end.
    destruct Hk as [_ Hrs]. cbv zeta in Hrs.
    match type of Hrs with
    | match ?x with _ => _ end => destruct x as [rs |] eqn:Hrule
    end.
    + destruct Hrs as [-> _]. exact Hrule.
    + destruct Hrs as (e & [He | [He _]]); discriminate.
  - eexists. split; [vm_compute; reflexivity |].
    match goal with
    | |- ruleset ?k = _ =>
        pose proof (@Configure_rule_source externals loader doc_unknown_name fresh_source
                      (Some "unable to load appsec_config: no appsec-config found for mine")
                      k ltac:(vm_compute; reflexivity)) as Hk
    end.
    destruct Hk as [_ Hrs]. cbv zeta in Hrs.
    match type of Hrs with
    | match ?x with _ => _ end => destruct x as [rs |] eqn:Hrule
    end.
    + destruct Hrs as (_ & _ & Hload). vm_compute in Hload. discriminate.
    + reflexivity.
Defined.

(** [routines: -1], with the rule set by path and by name. *)
Lemma Configure_negative_routines_witness :
  @Configure signed_externals loader doc_negative_routines fresh_source =
    Panicked "runtime error: makeslice: len out of range" /\
  @Configure signed_externals loader doc_negative_routines_named fresh_source =
    Panicked "runtime error: makeslice: len out of range".
Proof.
  split.
  - eapply (@Configure_negative_routines signed_externals loader
              doc_negative_routines fresh_source).
    + vm_compute. reflexivity.
    + reflexivity.
    + left. split; [discriminate |]. split; reflexivity.
    + reflexivity.
    + reflexivity.
  - eapply (@Configure_negative_routines signed_externals loader
              doc_negative_routines_named fresh_source).
    + vm_compute. reflexivity.
    + reflexivity.
    + right. split; [reflexivity |]. split; [discriminate |]. split; reflexivity.
    + reflexivity.
    + reflexivity.
Defined.


(** The same batch on a database that is down. *)
Lemma ExpireDecisions_database_error_witness :
  ExpireDecisions 2 100 (batch 300) (down (table_of (batch 300))) =
    Some (0, Some "expire decisions with provided filter: connection refused",
          down (table_of (batch 300))).
Proof.
  exact (more_database_properties.ExpireDecisions_database_error 0 100 (batch 300)
           (down (table_of (batch 300))) "connection refused" eq_refl).
Defined.

(** Three decisions deleted from a table of five. *)
Lemma DeleteDecisions_deletes_batch_witness :
  exists c',
    DeleteDecisions 1 (batch 3) (table_of (batch 5)) = Some (3, None, c') /\
    Decisions c' !! 3 = None /\
    Decisions c' !! 4 = Some 0.
Proof.
  pose proof (more_database_properties.DeleteDecisions_deletes_batch 0 (batch 3)
                (table_of (batch 5)) ltac:(vm_compute; lia)) as Hdel.
  cbn [db_error table_of] in Hdel. destruct Hdel as (c' & Hrun & Hlook).
  exists c'. split; [rewrite Hrun; vm_compute; reflexivity |].
  split; rewrite Hlook; vm_compute; reflexivity.
Defined.

(** A decision on [2001:db8::/32] and an address inside it. *)
Lemma decisionIPv6Filter_compares_addresses_witness :
  exists q',
    decisionIPv6Filter Query true range_v6 = (Some q', None) /\
    selects [] contains_exactly q' row_v6 = true.
Proof.
  destruct (decisions_properties.decisionIPv6Filter_compares_addresses
              [] contains_exactly Query true range_v6 row_v6) as (q' & Hq & Hiff).
  - unfold int64. cbn. lia.
  - unfold int64. cbn. lia.
  - unfold int64. cbn. lia.
  - unfold int64. cbn. lia.
  - exists q'. split; [exact Hq |]. apply Hiff.
    split; [reflexivity |]. split; [reflexivity |].
    unfold position. cbn. lia.
Defined.

(** A request for the simulated decisions of two scopes. *)
Lemma BuildDecisionRequestWithFilter_deletes_simulated_witness :
  exists r,
    BuildDecisionRequestWithFilter Query filters_simulated =
      Done (r, [("scope", ["ip,range"]); ("dedup", ["false"])]) /\
    filter_get "simulated" [("scope", ["ip,range"]); ("dedup", ["false"])] = None.
Proof.
  eexists. split; [vm_compute; reflexivity |].
  eapply (@decisions_properties.BuildDecisionRequestWithFilter_deletes_simulated
            library Query filters_simulated).
  vm_compute. reflexivity.
Defined.

(** The same request: no predicate on the simulated flag. *)
Lemma BuildDecisionRequestWithFilter_simulated_witness :
  exists q' filters',
    BuildDecisionRequestWithFilter Query filters_simulated =
      Done ((Some q', None), filters') /\
    Forall (fun p => forall b, p <> SimulatedEQ b) (predicates q').
Proof.
  eexists _, _. split; [vm_compute; reflexivity |].
  match goal with
  | |- context [predicates ?q'] =>
      destruct (@decisions_properties.BuildDecisionRequestWithFilter_simulated
                  library Query filters_simulated q' _ ltac:(vm_compute; reflexivity))
        as (tail & Hp & Htail)
  end.
  rewrite Hp. exact Htail.
Defined.

(** A limit that is not a number. *)
Lemma invalid_filter_in_queries_witness :
  QueryAllDecisionsWithFilters table_All 100 filters_bad_limit (table_of (batch 3)) =
    Done (([], Some (Wrapf QueryFail "get all decisions with filters")), filters_bad_limit) /\
  QueryExpiredDecisionsWithFilters table_All 100 filters_bad_limit (table_of (batch 3)) =
    Panicked nil_dereference.
Proof.
  destruct (@decisions_properties.invalid_filter_in_queries library table_All table_All
              100 None filters_bad_limit (table_of (batch 3)) Query None
              (Wrapf InvalidFilter "invalid limit value : parsing ten: invalid syntax")
              filters_bad_limit)
    as (Hall & _ & _ & _ & Hexpired).
  - vm_compute. reflexivity.
  - discriminate.
  - split; [exact Hall | exact Hexpired].
Defined.

(** [origins], a key of the queries, in a request to expire. *)
Lemma ExpireDecisionsWithFilter_refuses_other_keys_witness :
  (exists cause msg,
     ExpireDecisionsWithFilter table_All 0 100 [("origins", ["cscli"])] (table_of (batch 3)) =
       Some (Done (0, [], Some (Wrapf cause msg), table_of (batch 3))) /\
     (cause = InvalidFilter \/ cause = InvalidIPOrRange)) \/
  (exists msg,
     ExpireDecisionsWithFilter table_All 0 100 [("origins", ["cscli"])] (table_of (batch 3)) =
       Some (Panicked msg)).
Proof.
  apply (@decisions_properties.ExpireDecisionsWithFilter_refuses_other_keys library
           table_All 0 100 [("origins", ["cscli"])] (table_of (batch 3)) "origins" ["cscli"]).
  - left. reflexivity.
  - reflexivity.
Defined.

(** A decision that lasts until 500 and one that ended at 50, at the
    time 100. *)
Lemma ExpireDecisionsWithFilter_expires_what_it_returns_witness :
  exists c',
    ExpireDecisionsWithFilter table_All 2 100 [("scopes", ["Ip"])] two_decisions =
      Some (Done (1, [row_of (1, 500)], None, c')) /\
    Decisions c' !! 1 = Some 100 /\
    Decisions c' !! 2 = Some 50.
Proof.
  eexists. split; [vm_compute; reflexivity |].
  match goal with
  | |- context [Decisions ?c'] =>
      pose proof (@decisions_properties.ExpireDecisionsWithFilter_expires_what_it_returns
                    library table_All 0 100 [("scopes", ["Ip"])] two_decisions
                    1 [row_of (1, 500)] c' ltac:(vm_compute; reflexivity)) as Hlook
  end.
  split; rewrite Hlook; vm_compute; reflexivity.
Defined.

(** An address and a range, in the two orders. *)
Lemma ip_and_range_last_visited_wins_witness :
  results (BuildDecisionRequestWithFilter Query
             [("ip", ["192.0.2.7"]); ("range", ["2001:db8::/32"])]) <>
  results (BuildDecisionRequestWithFilter Query
             [("range", ["2001:db8::/32"]); ("ip", ["192.0.2.7"])]).
Proof.
  destruct (@decisions_properties.ip_and_range_last_visited_wins library Query
              "192.0.2.7" "2001:db8::/32" _ _ eq_refl eq_refl) as [Hfirst Hsecond].
  rewrite Hfirst, Hsecond. vm_compute. discriminate.
Defined.

End MoreRuns.
